(** * Control-flow-graph construction of [cpp_code_parser.py]

    A shallow embedding of [Programming_Assignment/cpp_code_parser.py]:
    the graph model ([Node], [Edge], [ControlFlowGraph]), the statement
    tokenizer [split_into_statements], the clause extractors, the recursive
    builder [process_code_block] and the entry point [parse_cpp_code],
    followed by the properties of the specification.

    Text is a list of characters; a character is a code point below 256
    ([ascii]), classified as Python's [str.isspace], [str.isalnum] and the
    [re] classes [\s], [\w] and [.] classify those code points. *)

From Stdlib Require Import Ascii String List Arith Bool Lia.
Import ListNotations.

(** ** Python strings *)

Definition str := list ascii.

(** A string literal of the source. *)
Definition py (s : string) : str := list_ascii_of_string s.
Arguments py s%_string.

Fixpoint str_eqb (a b : str) : bool :=
  match a, b with
  | [], [] => true
  | x :: a', y :: b' => Ascii.eqb x y && str_eqb a' b'
  | _, _ => false
  end.

(** [c in codes], for a character and a list of code points. *)
Definition code_in (codes : list nat) (c : ascii) : bool :=
  existsb (Nat.eqb (nat_of_ascii c)) codes.

Definition in_range (lo hi : nat) (c : ascii) : bool :=
  (lo <=? nat_of_ascii c) && (nat_of_ascii c <=? hi).

(** [str.isspace] of a one-character string (also the class [\s]). *)
Definition isspace (c : ascii) : bool :=
  in_range 9 13 c || in_range 28 32 c || code_in [133; 160] c.

(** [str.isalnum] of a one-character string. *)
Definition isalnum (c : ascii) : bool :=
  in_range 48 57 c || in_range 65 90 c || in_range 97 122 c
  || code_in [170; 178; 179; 181; 185; 186; 188; 189; 190] c
  || in_range 192 214 c || in_range 216 246 c || in_range 248 255 c.

Fixpoint lstrip (s : str) : str :=
  match s with
  | c :: s' => if isspace c then lstrip s' else s
  | [] => []
  end.

Definition rstrip (s : str) : str := rev (lstrip (rev s)).

(** [s.strip()] *)
Definition strip (s : str) : str := rstrip (lstrip s).

(** [s.startswith(p)] *)
Fixpoint startswith (p s : str) : bool :=
  match p, s with
  | [], _ => true
  | x :: p', y :: s' => Ascii.eqb x y && startswith p' s'
  | _ :: _, [] => false
  end.

(** [l[i:j]] for [0 <= i]: empty when [j <= i], clipped to the length. *)
Definition slice {A : Type} (l : list A) (i j : nat) : list A :=
  firstn (j - i) (skipn i l).

(** [sep.join(l)] *)
Fixpoint join (sep : str) (l : list str) : str :=
  match l with
  | [] => []
  | [x] => x
  | x :: l' => x ++ sep ++ join sep l'
  end.

(** Truth value of a string or a list: non-empty. *)
Definition nonempty {A : Type} (l : list A) : bool :=
  match l with [] => false | _ :: _ => true end.

Definition nl : str := py "
".

(** ** Regular expressions

    The patterns of the source are sequences of one-character classes, each
    taken once or under [*], [+] or [*?].  [match_here] is the backtracking
    matcher of [re] on such a sequence: it returns the text taken by each
    item, in order, and the text left after the match. *)

Inductive quant : Type := One | Star | Plus | LazyStar.

Record atom : Type := Atom { cls : ascii -> bool; qt : quant }.

Definition with_seg (seg : str) (r : option (list str * str))
  : option (list str * str) :=
  match r with
  | Some (segs, rest) => Some (seg :: segs, rest)
  | None => None
  end.

Definition cons_seg (c : ascii) (r : option (list str * str))
  : option (list str * str) :=
  match r with
  | Some (seg :: segs, rest) => Some ((c :: seg) :: segs, rest)
  | _ => None
  end.

Definition or_else {A : Type} (a b : option A) : option A :=
  match a with Some _ => a | None => b end.

Section Repeat.
Variable p : ascii -> bool.
Variable k : str -> option (list str * str).

(** Greedy repetition: the longest run first, shorter ones on failure. *)
Fixpoint greedy (s : str) : option (list str * str) :=
  match s with
  | c :: s' =>
      if p c then or_else (cons_seg c (greedy s')) (with_seg [] (k s))
      else with_seg [] (k s)
  | [] => with_seg [] (k s)
  end.

(** Lazy repetition: the shortest run first. *)
Fixpoint lazy (s : str) : option (list str * str) :=
  match with_seg [] (k s) with
  | Some r => Some r
  | None =>
      match s with
      | c :: s' => if p c then cons_seg c (lazy s') else None
      | [] => None
      end
  end.
End Repeat.

Fixpoint match_here (re : list atom) (s : str) : option (list str * str) :=
  match re with
  | [] => Some ([], s)
  | a :: re' =>
      match qt a with
      | One =>
          match s with
          | c :: s' =>
              if cls a c then with_seg [c] (match_here re' s') else None
          | [] => None
          end
      | Star => greedy (cls a) (match_here re') s
      | Plus =>
          match s with
          | c :: s' =>
              if cls a c then cons_seg c (greedy (cls a) (match_here re') s')
              else None
          | [] => None
          end
      | LazyStar => lazy (cls a) (match_here re') s
      end
  end.

(** [re.search]: the match at the leftmost position that has one, as
    (text before the match, text of each item, text after the match). *)
Fixpoint re_search (re : list atom) (s : str)
  : option (str * list str * str) :=
  match match_here re s with
  | Some (segs, rest) => Some ([], segs, rest)
  | None =>
      match s with
      | [] => None
      | c :: s' =>
          match re_search re s' with
          | Some (pre, segs, rest) => Some (c :: pre, segs, rest)
          | None => None
          end
      end
  end.

(** [re.sub] with the empty replacement, for a pattern that takes at least
    one character: [skip] counts the characters of the current match still
    to drop. *)
Fixpoint re_remove_from (re : list atom) (skip : nat) (s : str) : str :=
  match s with
  | [] => []
  | c :: s' =>
      match skip with
      | S n => re_remove_from re n s'
      | O =>
          match match_here re s with
          | Some (_, rest) =>
              match length s - length rest with
              | S n => re_remove_from re n s'
              | O => c :: re_remove_from re 0 s'
              end
          | None => c :: re_remove_from re 0 s'
          end
      end
  end.

Definition re_remove (re : list atom) (s : str) : str := re_remove_from re 0 s.

(** Items of a pattern. *)
Definition lit (c : ascii) : atom := Atom (Ascii.eqb c) One.
Definition lits (s : string) : list atom := map lit (py s).
Definition any_but_newline (c : ascii) : bool := negb (Ascii.eqb c "010"%char).
Definition any_char (c : ascii) : bool := true.
Definition word_char (c : ascii) : bool := isalnum c || Ascii.eqb c "_"%char.
Definition not_rparen (c : ascii) : bool := negb (Ascii.eqb c ")"%char).

(** The text of group [n] is the text of item [n] of the pattern. *)
Definition seg (n : nat) (segs : list str) : str := nth n segs [].

(** The pattern [//.*] *)
Definition re_line_comment : list atom :=
  lits "//" ++ [Atom any_but_newline Star].

(** The pattern [/\* .*? \*/] with [re.DOTALL] *)
Definition re_block_comment : list atom :=
  lits "/*" ++ [Atom any_char LazyStar] ++ lits "*/".

(** The pattern [\w+ \s+ \w+ \s* \( [^)]* \) \s* {], all of it group 1 *)
Definition re_function : list atom :=
  [Atom word_char Plus; Atom isspace Plus; Atom word_char Plus;
   Atom isspace Star; lit "("; Atom not_rparen Star; lit ")";
   Atom isspace Star; lit "{"].

(** The pattern [if \s* \( ( .* ) \)]: group 1 is item 4. *)
Definition re_if : list atom :=
  lits "if" ++ [Atom isspace Star; lit "("; Atom any_but_newline Star; lit ")"].

(** The pattern [for \s* \( ( .*? ) ; ( .*? ) ; ( .*? ) \)]: the groups are
    items 5, 7 and 9. *)
Definition re_for : list atom :=
  lits "for" ++
  [Atom isspace Star; lit "("; Atom any_but_newline LazyStar; lit ";";
   Atom any_but_newline LazyStar; lit ";"; Atom any_but_newline LazyStar;
   lit ")"].

(** The pattern [while \s* \( ( .* ) \)]: group 1 is item 7. *)
Definition re_while : list atom :=
  lits "while" ++
  [Atom isspace Star; lit "("; Atom any_but_newline Star; lit ")"].

(** The pattern [while \s* \( ( .* ) \) ;]: group 1 is item 7. *)
Definition re_do_while : list atom := re_while ++ [lit ";"].

(** [re.search(re, s).group(n)], when there is a match. *)
Definition search_group (re : list atom) (n : nat) (s : str) : option str :=
  match re_search re s with
  | Some (_, segs, _) => Some (seg n segs)
  | None => None
  end.

(** ** Statement tokenizer: [split_into_statements] *)

Definition char_at (s : str) (i : nat) : ascii := nth i s " "%char.

(** Loop state of [split_into_statements]: the index [i], the accumulator
    [current] and the tokens emitted so far, [lines]. *)
Record tok_state : Type :=
  TokState { tk_i : nat; tk_current : str; tk_lines : list str }.

(** The test of a keyword branch:
    [code_block[i:i+len(kw)] == kw and
     (i == 0 or not code_block[i-1].isalnum())] *)
Definition at_keyword (kw : str) (code_block : str) (i : nat) : bool :=
  str_eqb (slice code_block i (i + length kw)) kw
  && ((i =? 0) || negb (isalnum (char_at code_block (i - 1)))).

(** [if current.strip(): lines.append(current.strip())] *)
Definition flush_current (current : str) (lines : list str) : list str :=
  if nonempty (strip current) then lines ++ [strip current] else lines.

(** [while j < len(code_block) and code_block[j] != '(': j += 1], as the
    number of iterations from the text at [j]. *)
Fixpoint scan_to_paren (s : str) : nat :=
  match s with
  | c :: s' => if Ascii.eqb c "("%char then 0 else S (scan_to_paren s')
  | [] => 0
  end.

(** [while j < len(code_block) and paren_count > 0: ...; j += 1], as the
    number of iterations from the text at [j]. *)
Fixpoint balance_parens (s : str) (paren_count : nat) : nat :=
  match paren_count, s with
  | S n, c :: s' =>
      S (balance_parens s'
           (if Ascii.eqb c "("%char then S (S n)
            else if Ascii.eqb c ")"%char then n
            else S n))
  | _, _ => 0
  end.

(** The branch shared by [if], [for] and [while]; [k] is the length of the
    keyword.  When no parenthesis follows, the branch ends without a
    [continue] and without moving [i]. *)
Definition header_token (k : nat) (code_block : str) (st : tok_state)
  : tok_state :=
  let i := tk_i st in
  let lines := flush_current (tk_current st) (tk_lines st) in
  let j := i + k + scan_to_paren (skipn (i + k) code_block) in
  if j <? length code_block then
    let j := j + 1 in
    let j := j + balance_parens (skipn j code_block) 1 in
    TokState j [] (lines ++ [strip (slice code_block i j)])
  else TokState i (tk_current st) lines.

(** The branch shared by [do] and [else]. *)
Definition keyword_token (kw : str) (st : tok_state) : tok_state :=
  TokState (tk_i st + length kw) []
    (flush_current (tk_current st) (tk_lines st) ++ [kw]).

(** One iteration of the loop, for [i < len(code_block)]. *)
Definition split_step (code_block : str) (st : tok_state) : tok_state :=
  let i := tk_i st in
  let c := char_at code_block i in
  if at_keyword (py "if") code_block i then header_token 2 code_block st
  else if at_keyword (py "for") code_block i then header_token 3 code_block st
  else if at_keyword (py "while") code_block i then header_token 5 code_block st
  else if at_keyword (py "do") code_block i then keyword_token (py "do") st
  else if at_keyword (py "else") code_block i then keyword_token (py "else") st
  else if Ascii.eqb c "{"%char || Ascii.eqb c "}"%char then
    TokState (i + 1) []
      (flush_current (tk_current st) (tk_lines st) ++ [[c]])
  else if Ascii.eqb c ";"%char then
    TokState (i + 1) [] (tk_lines st ++ [strip (tk_current st ++ py ";")])
  else TokState (i + 1) (tk_current st ++ [c]) (tk_lines st).

(** The loop, [fuel] iterations at most; [None] when they do not reach the
    end of the text. *)
Fixpoint split_loop (fuel : nat) (code_block : str) (st : tok_state)
  : option (list str) :=
  if length code_block <=? tk_i st then
    Some (flush_current (tk_current st) (tk_lines st))
  else
    match fuel with
    | O => None
    | S fuel' => split_loop fuel' code_block (split_step code_block st)
    end.

(** Every iteration moves [i] forward or leaves it where it is for good
    (lemmas [split_loop_enough] and [split_loop_stuck]), so [len(code_block)]
    iterations decide the loop: [None] is a loop that never ends. *)
Definition split_into_statements (code_block : str) : option (list str) :=
  split_loop (length code_block) code_block (TokState 0 [] []).

(** ** Graph model *)

Inductive node_type : Type :=
  | ty_statement | ty_condition | ty_start | ty_end | ty_loop_condition
  | ty_merge.

Record Node : Type := mkNode { id : nat; content : str; type : node_type }.

Record Edge : Type :=
  mkEdge { source : nat; target : nat; condition : option bool }.

Record ControlFlowGraph : Type :=
  mkCFG { nodes : list Node; edges : list Edge; next_id : nat }.

(** [ControlFlowGraph()] *)
Definition new_cfg : ControlFlowGraph := mkCFG [] [] 0.

(** A computation on the graph under construction; [None] is a computation
    that does not return. *)
Definition M (A : Type) : Type :=
  ControlFlowGraph -> option (A * ControlFlowGraph).

Definition ret {A : Type} (a : A) : M A := fun cfg => Some (a, cfg).

Definition bind {A B : Type} (m : M A) (k : A -> M B) : M B :=
  fun cfg =>
    match m cfg with
    | Some (a, cfg') => k a cfg'
    | None => None
    end.

Definition diverge {A : Type} : M A := fun _ => None.

Notation "x <- m ;; k" := (bind m (fun x => k))
  (at level 61, m at next level, right associativity).
Notation "m ;; k" := (bind m (fun _ => k))
  (at level 61, right associativity).

Definition add_node (content : str) (node_type : node_type) : M Node :=
  fun cfg =>
    let node := mkNode (next_id cfg) content node_type in
    Some (node, mkCFG (nodes cfg ++ [node]) (edges cfg) (next_id cfg + 1)).

(** The [for] loop of [add_edge]: the first edge of the pair, updated in
    place when its condition is [None] and the requested one is not. *)
Fixpoint find_edge (es : list Edge) (s t : nat) (c : option bool)
  : option (list Edge * Edge) :=
  match es with
  | [] => None
  | edge :: es' =>
      if (source edge =? s) && (target edge =? t) then
        let edge' :=
          match condition edge, c with
          | None, Some b => mkEdge (source edge) (target edge) (Some b)
          | _, _ => edge
          end in
        Some (edge' :: es', edge')
      else
        match find_edge es' s t c with
        | Some (es'', r) => Some (edge :: es'', r)
        | None => None
        end
  end.

Definition add_edge (source_node target_node : Node) (c : option bool)
  : M Edge :=
  fun cfg =>
    match find_edge (edges cfg) (id source_node) (id target_node) c with
    | Some (es, edge) => Some (edge, mkCFG (nodes cfg) es (next_id cfg))
    | None =>
        let edge := mkEdge (id source_node) (id target_node) c in
        Some (edge, mkCFG (nodes cfg) (edges cfg ++ [edge]) (next_id cfg))
    end.

(** ** Clause extractors *)

Definition line_at (lines : list str) (i : nat) : str := nth i lines [].

(** [while i < len(lines) and brace_count > 0: ...; i += 1], as the number
    of iterations from the tokens at [i]. *)
Fixpoint scan_braces (ls : list str) (brace_count : nat) : nat :=
  match brace_count, ls with
  | S n, l :: ls' =>
      S (scan_braces ls'
           (if str_eqb (strip l) (py "{") then S (S n)
            else if str_eqb (strip l) (py "}") then n
            else S n))
  | _, _ => 0
  end.

(** The body search that the three extractors repeat, from the token at [i]:
    the text between matching braces, or else the single token at [i]. *)
Definition block_at (lines : list str) (i : nat) : str * nat :=
  if (i <? length lines) && str_eqb (strip (line_at lines i)) (py "{") then
    let i := i + 1 in
    let body_start := i in
    let i := i + scan_braces (skipn i lines) 1 in
    let body_end := i - 1 in
    (join nl (slice lines body_start body_end), i)
  else if i <? length lines then (line_at lines i, i + 1)
  else ([], i).

Definition extract_if_else_blocks (lines : list str) (start_idx : nat)
  : str * str * nat :=
  let '(if_block, i) := block_at lines (start_idx + 1) in
  if (i <? length lines) && str_eqb (strip (line_at lines i)) (py "else") then
    let i := i + 1 in
    if (i <? length lines) && startswith (py "if") (strip (line_at lines i))
    then (if_block, line_at lines i, i + 1)
    else let '(else_block, i) := block_at lines i in (if_block, else_block, i)
  else (if_block, [], i).

(** The second component of the source's result is always [None] and is
    dropped by both callers. *)
Definition extract_loop_body (lines : list str) (start_idx : nat)
  : str * nat :=
  block_at lines (start_idx + 1).

Definition extract_do_while_body_and_condition (lines : list str)
  (start_idx : nat) : str * str * nat :=
  let '(loop_body, i) := block_at lines (start_idx + 1) in
  if (i <? length lines) && startswith (py "while") (strip (line_at lines i))
  then
    match search_group re_do_while 7 (line_at lines i) with
    | Some g => (loop_body, strip g, i + 1)
    | None => (loop_body, [], i + 1)
    end
  else (loop_body, [], i).

(** ** Recursive builder: [process_code_block] *)

(** An entry of [loop_stack]. *)
Record loop_ctx : Type := mkCtx { ctx_condition : Node; ctx_merge : Node }.

(** Loop state of [process_code_block]. *)
Record block_state : Type :=
  mkState { st_i : nat;
            current_node : Node;
            statement_buffer : list str;
            loop_stack : list loop_ctx }.

(** [loop_stack[-1]], when the stack is not empty. *)
Definition innermost (loop_stack : list loop_ctx) : option loop_ctx :=
  last (map Some loop_stack) None.

(** Flushing the statement buffer into one statement node; the caller
    resets the buffer. *)
Definition flush_buffer (current_node : Node) (statement_buffer : list str)
  : M Node :=
  if nonempty statement_buffer then
    stmt_node <- add_node (join nl statement_buffer) ty_statement ;;
    add_edge current_node stmt_node None ;;
    ret stmt_node
  else ret current_node.

Section Step.
(** The recursive call [process_code_block(cfg, entry_node, code_block)]. *)
Variable rec : Node -> str -> M Node.
Variable lines : list str.

(** [i += 1] *)
Definition skip_token (st : block_state) : M block_state :=
  ret (mkState (st_i st + 1) (current_node st) (statement_buffer st)
         (loop_stack st)).

(** The branch [if line == "continue;"]. *)
Definition handle_continue (st : block_state) : M block_state :=
  match innermost (loop_stack st) with
  | Some ctx => add_edge (current_node st) (ctx_condition ctx) None ;; ret tt
  | None => ret tt
  end ;;
  skip_token st.

(** The branch [if line == "break;"]. *)
Definition handle_break (st : block_state) : M block_state :=
  match innermost (loop_stack st) with
  | Some ctx => add_edge (current_node st) (ctx_merge ctx) None ;; ret tt
  | None => ret tt
  end ;;
  skip_token st.

(** The branch [if line.startswith('if')]. *)
Definition handle_if (line : str) (st : block_state) : M block_state :=
  current_node <- flush_buffer (current_node st) (statement_buffer st) ;;
  match search_group re_if 4 line with
  | Some g =>
      let condition := strip g in
      condition_node <- add_node condition ty_condition ;;
      add_edge current_node condition_node None ;;
      let '(if_body, else_body, next_idx) :=
        extract_if_else_blocks lines (st_i st) in
      merge_node <- add_node (py "After If-Else (Merge Node)") ty_merge ;;
      (if nonempty if_body then
         if_entry_node <- add_node (py "If Branch Entry") ty_statement ;;
         add_edge condition_node if_entry_node (Some true) ;;
         if_last_node <- rec if_entry_node if_body ;;
         add_edge if_last_node merge_node None ;; ret tt
       else
         add_edge condition_node merge_node (Some true) ;; ret tt) ;;
      (if nonempty else_body then
         else_entry_node <- add_node (py "Else Branch Entry") ty_statement ;;
         add_edge condition_node else_entry_node (Some false) ;;
         else_last_node <- rec else_entry_node else_body ;;
         add_edge else_last_node merge_node None ;; ret tt
       else
         add_edge condition_node merge_node (Some false) ;; ret tt) ;;
      ret (mkState next_idx merge_node [] (loop_stack st))
  | None => ret (mkState (st_i st + 1) current_node [] (loop_stack st))
  end.

(** The branch [elif line.startswith('for')]. *)
Definition handle_for (line : str) (st : block_state) : M block_state :=
  current_node <- flush_buffer (current_node st) (statement_buffer st) ;;
  match re_search re_for line with
  | Some (_, segs, _) =>
      let init_expr := strip (seg 5 segs) in
      let condition_expr :=
        if nonempty (strip (seg 7 segs)) then strip (seg 7 segs)
        else py "true" in
      let update_expr := strip (seg 9 segs) in
      current_node <-
        (if nonempty init_expr then
           init_node <- add_node init_expr ty_statement ;;
           add_edge current_node init_node None ;;
           ret init_node
         else ret current_node) ;;
      condition_node <- add_node condition_expr ty_loop_condition ;;
      add_edge current_node condition_node None ;;
      let '(loop_body, next_idx) := extract_loop_body lines (st_i st) in
      after_loop_node <-
        add_node (py "After For Loop (Merge Node)") ty_merge ;;
      add_edge condition_node after_loop_node (Some false) ;;
      let loop_stack :=
        loop_stack st ++ [mkCtx condition_node after_loop_node] in
      (if nonempty loop_body then
         loop_entry_node <- add_node (py "For Loop Body Entry") ty_statement ;;
         add_edge condition_node loop_entry_node (Some true) ;;
         loop_last_node <- rec loop_entry_node loop_body ;;
         if nonempty update_expr then
           update_node <- add_node update_expr ty_statement ;;
           add_edge loop_last_node update_node None ;;
           add_edge update_node condition_node None ;; ret tt
         else
           add_edge loop_last_node condition_node None ;; ret tt
       else
         if nonempty update_expr then
           update_node <- add_node update_expr ty_statement ;;
           add_edge condition_node update_node (Some true) ;;
           add_edge update_node condition_node None ;; ret tt
         else
           add_edge condition_node condition_node (Some true) ;; ret tt) ;;
      let loop_stack := removelast loop_stack in
      ret (mkState next_idx after_loop_node [] loop_stack)
  | None => ret (mkState (st_i st + 1) current_node [] (loop_stack st))
  end.

(** The branch
    [elif line.startswith('while') and not line.startswith('while(')]. *)
Definition handle_while (line : str) (st : block_state) : M block_state :=
  current_node <- flush_buffer (current_node st) (statement_buffer st) ;;
  match search_group re_while 7 line with
  | Some g =>
      let condition := strip g in
      loop_condition_node <- add_node condition ty_loop_condition ;;
      add_edge current_node loop_condition_node None ;;
      let '(loop_body, next_idx) := extract_loop_body lines (st_i st) in
      after_loop_node <- add_node (py "After Loop (Merge Node)") ty_merge ;;
      add_edge loop_condition_node after_loop_node (Some false) ;;
      let loop_stack :=
        loop_stack st ++ [mkCtx loop_condition_node after_loop_node] in
      (if nonempty loop_body then
         loop_entry_node <-
           add_node (py "While Loop Body Entry") ty_statement ;;
         add_edge loop_condition_node loop_entry_node (Some true) ;;
         loop_last_node <- rec loop_entry_node loop_body ;;
         add_edge loop_last_node loop_condition_node None ;; ret tt
       else
         add_edge loop_condition_node loop_condition_node (Some true) ;;
         ret tt) ;;
      let loop_stack := removelast loop_stack in
      ret (mkState next_idx after_loop_node [] loop_stack)
  | None => ret (mkState (st_i st + 1) current_node [] (loop_stack st))
  end.

(** The branch [elif line.startswith('do')]. *)
Definition handle_do (st : block_state) : M block_state :=
  current_node <- flush_buffer (current_node st) (statement_buffer st) ;;
  let '(loop_body, condition, next_idx) :=
    extract_do_while_body_and_condition lines (st_i st) in
  do_while_entry <- add_node (py "do") ty_statement ;;
  add_edge current_node do_while_entry None ;;
  loop_last_node <-
    (if nonempty loop_body then rec do_while_entry loop_body
     else ret do_while_entry) ;;
  condition_node <-
    add_node (if nonempty condition then condition else py "x < 5")
      ty_loop_condition ;;
  add_edge loop_last_node condition_node None ;;
  after_loop_node <-
    add_node (py "After Do-While Loop (Merge Node)") ty_merge ;;
  let loop_stack := loop_stack st ++ [mkCtx condition_node after_loop_node] in
  add_edge condition_node do_while_entry (Some true) ;;
  add_edge condition_node after_loop_node (Some false) ;;
  let loop_stack := removelast loop_stack in
  ret (mkState next_idx after_loop_node [] loop_stack).

(** One iteration of [while i < len(lines)], for [i < len(lines)]. *)
Definition block_step (st : block_state) : M block_state :=
  let line := strip (line_at lines (st_i st)) in
  if negb (nonempty line) then skip_token st
  else if str_eqb line (py "continue;") then handle_continue st
  else if str_eqb line (py "break;") then handle_break st
  else if startswith (py "if") line then handle_if line st
  else if startswith (py "for") line then handle_for line st
  else if startswith (py "while") line
          && negb (startswith (py "while(") line)
  then handle_while line st
  else if startswith (py "do") line then handle_do st
  else if negb (startswith (py "else") line || str_eqb line (py "{")
                || str_eqb line (py "}"))
  then ret (mkState (st_i st + 1) (current_node st)
              (statement_buffer st ++ [line]) (loop_stack st))
  else skip_token st.

(** The loop, [n] iterations at most.  Every iteration moves [i] forward
    (lemma [block_step_advances]), so [len(lines)] iterations reach the
    end (lemma [block_loop_enough]). *)
Fixpoint block_loop (n : nat) (st : block_state) : M block_state :=
  if length lines <=? st_i st then ret st
  else
    match n with
    | O => diverge
    | S n' => st' <- block_step st ;; block_loop n' st'
    end.
End Step.

(** [fuel] bounds the depth of the recursion. *)
Fixpoint process_code_block (fuel : nat) (entry_node : Node) (code_block : str)
  : M Node :=
  match fuel with
  | O => diverge
  | S fuel' =>
      if negb (nonempty (strip code_block)) then ret entry_node
      else
        match split_into_statements code_block with
        | None => diverge
        | Some lines =>
            st <- block_loop (process_code_block fuel') lines (length lines)
                    (mkState 0 entry_node [] []) ;;
            flush_buffer (current_node st) (statement_buffer st)
        end
  end.

(** ** Function entry: [parse_cpp_code] *)

(** The brace-balancing loop over [body]: the index of the brace that
    closes the function, [0] when there is none. *)
Fixpoint find_body_end (body : str) (i brace_count : nat) : nat :=
  match body with
  | [] => 0
  | char :: body' =>
      if Ascii.eqb char "{"%char then
        find_body_end body' (i + 1) (brace_count + 1)
      else if Ascii.eqb char "}"%char then
        if brace_count - 1 =? 0 then i
        else find_body_end body' (i + 1) (brace_count - 1)
      else find_body_end body' (i + 1) brace_count
  end.

Definition remove_comments (code : str) : str :=
  re_remove re_block_comment (re_remove re_line_comment code).

Definition parse_cpp_code (fuel : nat) (code : str)
  : option ControlFlowGraph :=
  let code := remove_comments code in
  let build : M unit :=
    start_node <- add_node (py "START") ty_start ;;
    match re_search re_function code with
    | Some (_, segs, body) =>
        function_node <- add_node (concat segs) ty_statement ;;
        add_edge start_node function_node None ;;
        let current_node := function_node in
        let body_end := find_body_end body 0 1 in
        let function_body := strip (firstn body_end body) in
        last_node <- process_code_block fuel current_node function_body ;;
        end_node <- add_node (py "END") ty_end ;;
        add_edge last_node end_node None ;;
        ret tt
    | None => ret tt
    end in
  match build new_cfg with
  | Some (_, cfg) => Some cfg
  | None => None
  end.

(** * Vocabulary of the properties

    Definitions used to state the properties: they describe graphs and
    states, and are tied to the code by the lemmas that follow. *)

(** ** Edges *)

(** The ordered pair of an edge. *)
Definition key (e : Edge) : nat * nat := (source e, target e).

(** What [add_edge] makes of a stored edge of the requested pair. *)
Definition upgrade (e : Edge) (c : option bool) : Edge :=
  match condition e, c with
  | None, Some b => mkEdge (source e) (target e) (Some b)
  | _, _ => e
  end.

(** A sequence of [add_edge] calls on one graph. *)
Fixpoint add_edges (calls : list (Node * Node * option bool)) : M unit :=
  match calls with
  | [] => ret tt
  | (s, t, c) :: calls' => add_edge s t c ;; add_edges calls'
  end.

(** The ordered pair that a call of [add_edge] names. *)
Definition call_key (call : Node * Node * option bool) : nat * nat :=
  let '(s, t, _) := call in (id s, id t).

Definition key_eqb (k1 k2 : nat * nat) : bool :=
  (fst k1 =? fst k2) && (snd k1 =? snd k2).

(** The pairs of [ks] that are not in [seen], each once, in the order of
    their first occurrence. *)
Fixpoint first_occurrences (seen ks : list (nat * nat)) : list (nat * nat) :=
  match ks with
  | [] => []
  | k :: ks' =>
      if existsb (key_eqb k) seen then first_occurrences seen ks'
      else k :: first_occurrences (seen ++ [k]) ks'
  end.

(** Two nodes for the examples. *)
Definition node_a : Node := mkNode 0 (py "START") ty_start.
Definition node_b : Node := mkNode 1 (py "x > 5") ty_condition.

(** ** Vocabulary of the builder's properties *)

(** Every stored edge joins two nodes that were created. *)
Definition closed (cfg : ControlFlowGraph) : Prop :=
  Forall (fun e => source e < next_id cfg /\ target e < next_id cfg)
    (edges cfg).

(** [cfg'] is [cfg] with more nodes and more edges after the old ones; each
    new edge ends in a node that is new for [cfg], and starts from such a
    node or from the node of id [e0]. *)
Definition grows (e0 : nat) (cfg cfg' : ControlFlowGraph) : Prop :=
  next_id cfg <= next_id cfg'
  /\ (exists ns, nodes cfg' = nodes cfg ++ ns)
  /\ exists es, edges cfg' = edges cfg ++ es
       /\ Forall (fun e => next_id cfg <= target e
                           /\ (source e = e0 \/ next_id cfg <= source e)) es.

(** What a call of the builder on a block does to the graph, when it
    returns: the graph grows from the entry node, and the node returned is
    the entry node or a new one. *)
Definition block_ok (rec : Node -> str -> M Node) : Prop :=
  forall entry body cfg exit cfg',
    closed cfg -> id entry < next_id cfg ->
    rec entry body cfg = Some (exit, cfg') ->
    closed cfg' /\ grows (id entry) cfg cfg'
    /\ id exit < next_id cfg'
    /\ (id exit = id entry \/ next_id cfg <= id exit).

(** Postcondition of a computation that returns. *)
Definition wp {A : Type} (m : M A) (cfg : ControlFlowGraph)
  (Q : A -> ControlFlowGraph -> Prop) : Prop :=
  match m cfg with
  | Some (a, cfg') => Q a cfg'
  | None => True
  end.

(** A statement node of content [text] chained after the node [cur]. *)
Definition chain (cfg : ControlFlowGraph) (cur : Node) (text : str)
  : Node * ControlFlowGraph :=
  let n := mkNode (next_id cfg) text ty_statement in
  (n, mkCFG (nodes cfg ++ [n])
        (edges cfg ++ [mkEdge (id cur) (next_id cfg) None])
        (next_id cfg + 1)).

(** The graph and the current node once the statement buffer is flushed. *)
Definition flushed (cfg : ControlFlowGraph) (cur : Node) (buffer : list str)
  : Node * ControlFlowGraph :=
  if nonempty buffer then chain cfg cur (join nl buffer) else (cur, cfg).

(** The graph [cfg] is closed and grew from [cfg0] and the node [e0]. *)
Definition inv (e0 : nat) (cfg0 cfg : ControlFlowGraph) : Prop :=
  closed cfg /\ grows e0 cfg0 cfg.

(** The state of the block loop over a graph that grew from [cfg0]: the
    current node is the entry node [e0] or a new node, and no loop context
    is on the stack. *)
Definition state_ok (e0 : nat) (cfg0 : ControlFlowGraph) (st : block_state)
  (cfg : ControlFlowGraph) : Prop :=
  inv e0 cfg0 cfg
  /\ id (current_node st) < next_id cfg
  /\ (id (current_node st) = e0 \/ next_id cfg0 <= id (current_node st))
  /\ loop_stack st = [].

(** The start of a [for] loop in the graph: after the flush of the buffer,
    the init node when there is an init clause, the loop_condition node, the
    merge node and the false-edge between them.  The result is the condition
    node, the merge node and the graph. *)
Definition for_head (cfg : ControlFlowGraph) (cur : Node) (buffer : list str)
  (init_expr condition_expr : str) : Node * Node * ControlFlowGraph :=
  let '(cur1, cfg1) := flushed cfg cur buffer in
  let '(cur2, cfg2) :=
    if nonempty init_expr then chain cfg1 cur1 init_expr else (cur1, cfg1) in
  let n := next_id cfg2 in
  let cond := mkNode n condition_expr ty_loop_condition in
  let merge := mkNode (n + 1) (py "After For Loop (Merge Node)") ty_merge in
  (cond, merge,
   mkCFG (nodes cfg2 ++ [cond; merge])
     (edges cfg2 ++ [mkEdge (id cur2) n None; mkEdge n (n + 1) (Some false)])
     (n + 2)).

(** The end of a [for] loop in the graph: from the node [last], through the
    update node when there is an update clause, back to the condition node;
    [c] is the condition of the edge that leaves [last]. *)
Definition for_close (cfg : ControlFlowGraph) (last cond : Node)
  (c : option bool) (update_expr : str) : ControlFlowGraph :=
  if nonempty update_expr then
    let update := mkNode (next_id cfg) update_expr ty_statement in
    mkCFG (nodes cfg ++ [update])
      (edges cfg ++ [mkEdge (id last) (id update) c;
                     mkEdge (id update) (id cond) None])
      (next_id cfg + 1)
  else
    mkCFG (nodes cfg) (edges cfg ++ [mkEdge (id last) (id cond) c])
      (next_id cfg).

(** The token of text [line] (stripped) takes the normal-statement branch of
    the builder's loop: it is none of the tokens tested before that branch,
    and it is not [else], [{] or [}]. *)
Definition is_plain (line : str) : bool :=
  nonempty line
  && negb (str_eqb line (py "continue;"))
  && negb (str_eqb line (py "break;"))
  && negb (startswith (py "if") line)
  && negb (startswith (py "for") line)
  && negb (startswith (py "while") line
           && negb (startswith (py "while(") line))
  && negb (startswith (py "do") line)
  && negb (startswith (py "else") line || str_eqb line (py "{")
           || str_eqb line (py "}")).

(** The rest of [process_code_block] from a state of its loop: the
    remaining iterations, then the flush of the statement buffer. *)
Definition finish_block (rec : Node -> str -> M Node) (lines : list str)
  (n : nat) (st : block_state) : M Node :=
  st' <- block_loop rec lines n st ;;
  flush_buffer (current_node st') (statement_buffer st').

(** The first [k] iterations of the loop [while i < len(lines)] of
    [process_code_block]: the state and the graph after them; nothing when
    the loop ends before it has made that many. *)
Fixpoint block_steps (rec : Node -> str -> M Node) (lines : list str)
  (k : nat) (st : block_state) : M block_state :=
  match k with
  | O => ret st
  | S k' =>
      if length lines <=? st_i st then fun _ => None
      else st' <- block_step rec lines st ;; block_steps rec lines k' st'
  end.

(** The sample of the if/else shape. *)
Definition if_else_sample : str :=
  py "if (x > 5) { x = x + 1; } else { x = x - 1; }".

Definition is_merge (n : Node) : bool :=
  match type n with ty_merge => true | _ => false end.

Definition is_loop_condition (n : Node) : bool :=
  match type n with ty_loop_condition => true | _ => false end.


(** Whatever [m] returns, [m'] returns too. *)
Definition refines {A : Type} (m m' : M A) : Prop :=
  forall cfg r, m cfg = Some r -> m' cfg = Some r.

(** ** Vocabulary of the further properties *)

(** A property of graphs that [add_node] and [add_edge] keep. *)
Definition kept (P : ControlFlowGraph -> Prop) : Prop :=
  (forall cfg text ty,
     P cfg ->
     P (mkCFG (nodes cfg ++ [mkNode (next_id cfg) text ty]) (edges cfg)
          (next_id cfg + 1)))
  /\ (forall cfg s t c e cfg',
        P cfg -> add_edge s t c cfg = Some (e, cfg') -> P cfg').

(** The nodes carry the ids [0], [1], ... in creation order, and [next_id]
    is their number. *)
Definition numbered (cfg : ControlFlowGraph) : Prop :=
  map id (nodes cfg) = seq 0 (next_id cfg).

(** No two stored edges have the same ordered pair. *)
Definition distinct_pairs (cfg : ControlFlowGraph) : Prop :=
  NoDup (map key (edges cfg)).

(** No opening parenthesis in the text from index [j] on. *)
Definition no_paren_from (code_block : str) (j : nat) : bool :=
  negb (existsb (Ascii.eqb "("%char) (skipn j code_block)).

(** At index [i] the tokenizer takes the branch of [if], [for] or [while]
    and finds no opening parenthesis after the keyword. *)
Definition stuck_at (code_block : str) (i : nat) : bool :=
  if at_keyword (py "if") code_block i then no_paren_from code_block (i + 2)
  else if at_keyword (py "for") code_block i then
    no_paren_from code_block (i + 3)
  else if at_keyword (py "while") code_block i then
    no_paren_from code_block (i + 5)
  else false.

(** The state of the tokenizer's loop after [k] iterations. *)
Definition tok_after (code_block : str) (k : nat) : tok_state :=
  Nat.iter k (split_step code_block) (TokState 0 [] []).

(** A token as the tokenizer emits them: not empty, with no whitespace at
    either end. *)
Definition trimmed (t : str) : Prop := t <> [] /\ strip t = t.

(** The first character, if any, is not whitespace. *)
Definition hd_ok (s : str) : Prop :=
  match s with
  | c :: _ => isspace c = false
  | [] => True
  end.

(** The nesting depth after the tokens [ls], read from depth [d] inside a
    block; [None] when one of them closes the block itself.  Tokens are
    compared stripped, as the extractors compare them. *)
Fixpoint inner_depth (ls : list str) (d : nat) : option nat :=
  match ls with
  | [] => Some d
  | l :: ls' =>
      if str_eqb (strip l) (py "{") then inner_depth ls' (S d)
      else if str_eqb (strip l) (py "}") then
        match d with
        | S d' => inner_depth ls' d'
        | O => None
        end
      else inner_depth ls' d
  end.

(** Tokens whose braces match one another. *)
Definition balanced (ls : list str) : Prop := inner_depth ls 0 = Some 0.

(** Tokens that never close the block they are read in. *)
Definition unclosed (ls : list str) : Prop := exists d, inner_depth ls 0 = Some d.

(** The text that an item of a pattern may take. *)
Definition seg_ok (a : atom) (sg : str) : Prop :=
  Forall (fun c => cls a c = true) sg
  /\ match qt a with
     | One => length sg = 1
     | Plus => 1 <= length sg
     | Star | LazyStar => True
     end.

(** Text on one line: no newline in it. *)
Definition one_line (s : str) : Prop :=
  Forall (fun c => any_but_newline c = true) s.

(** Text made of whitespace only. *)
Definition blank (s : str) : Prop := Forall (fun c => isspace c = true) s.

(** The nesting depth after the characters [s], read from depth [d] inside
    a block; [None] when one of them closes the block itself. *)
Fixpoint char_depth (s : str) (d : nat) : option nat :=
  match s with
  | [] => Some d
  | c :: s' =>
      if Ascii.eqb c "{"%char then char_depth s' (S d)
      else if Ascii.eqb c "}"%char then
        match d with
        | S d' => char_depth s' d'
        | O => None
        end
      else char_depth s' d
  end.

(** The text of a comment's end: nothing, or text that starts a new line. *)
Definition line_end (t : str) : Prop :=
  match t with
  | [] => True
  | c :: _ => c = "010"%char
  end.

(** * Properties *)

(** ** Strings *)

Lemma str_eqb_eq (a b : str) : str_eqb a b = true <-> a = b.
Proof.
  revert b; induction a as [|x a IH]; intros [|y b]; simpl;
    try (split; congruence).
  rewrite andb_true_iff, Ascii.eqb_eq, IH.
  split; [intros [-> ->]; reflexivity | intros [= -> ->]; auto].
Qed.

Lemma str_eqb_refl (a : str) : str_eqb a a = true.
Proof. apply str_eqb_eq; reflexivity. Qed.

Lemma str_eqb_neq (a b : str) : str_eqb a b = false <-> a <> b.
Proof.
  rewrite <- str_eqb_eq. destruct (str_eqb a b); split; congruence.
Qed.

(** ** The edge list under [add_edge] *)

Lemma key_upgrade (e : Edge) (c : option bool) : key (upgrade e c) = key e.
Proof. unfold upgrade; destruct (condition e), c; reflexivity. Qed.

Lemma pair_test (e : Edge) (s t : nat) :
  (source e =? s) && (target e =? t) = true <-> key e = (s, t).
Proof.
  unfold key. rewrite andb_true_iff, !Nat.eqb_eq.
  split; [intros [-> ->]; reflexivity | intros [= -> ->]; auto].
Qed.

Lemma find_edge_absent (es : list Edge) (s t : nat) (c : option bool) :
  (forall e, In e es -> key e <> (s, t)) -> find_edge es s t c = None.
Proof.
  induction es as [|e es IH]; simpl; intros H; [reflexivity|].
  destruct ((source e =? s) && (target e =? t)) eqn:E.
  - apply pair_test in E. exfalso. apply (H e); auto.
  - rewrite IH; auto.
Qed.

Lemma find_edge_present (l1 l2 : list Edge) (e : Edge) (s t : nat)
  (c : option bool) :
  (forall x, In x l1 -> key x <> (s, t)) -> key e = (s, t) ->
  find_edge (l1 ++ e :: l2) s t c
  = Some (l1 ++ upgrade e c :: l2, upgrade e c).
Proof.
  induction l1 as [|x l1 IH]; simpl; intros H K.
  - apply pair_test in K. rewrite K. reflexivity.
  - destruct ((source x =? s) && (target x =? t)) eqn:E.
    + apply pair_test in E. exfalso. apply (H x); auto.
    + rewrite IH; auto.
Qed.

(** The stored edges either hold no edge of a pair or split at the first
    one. *)
Lemma first_of_pair (es : list Edge) (s t : nat) :
  (forall e, In e es -> key e <> (s, t))
  \/ exists l1 e l2, es = l1 ++ e :: l2 /\ key e = (s, t)
                     /\ forall x, In x l1 -> key x <> (s, t).
Proof.
  induction es as [|e es IH]; [left; intros ? []|].
  destruct ((source e =? s) && (target e =? t)) eqn:E.
  - apply pair_test in E. right. exists [], e, es. simpl. auto.
  - assert (key e <> (s, t)) as N.
    { intros K. apply pair_test in K. congruence. }
    destruct IH as [IH|(l1 & x & l2 & -> & K & H)].
    + left. intros y [<-|Hy]; auto.
    + right. exists (e :: l1), x, l2. simpl. repeat split; auto.
      intros y [<-|Hy]; auto.
Qed.

Lemma add_edge_new (s t : Node) (c : option bool) (cfg : ControlFlowGraph) :
  (forall e, In e (edges cfg) -> key e <> (id s, id t)) ->
  add_edge s t c cfg
  = Some (mkEdge (id s) (id t) c,
          mkCFG (nodes cfg) (edges cfg ++ [mkEdge (id s) (id t) c])
            (next_id cfg)).
Proof.
  intros H. unfold add_edge. rewrite find_edge_absent; auto.
Qed.

Lemma add_edge_old (s t : Node) (c : option bool) (cfg : ControlFlowGraph)
  (l1 l2 : list Edge) (e : Edge) :
  edges cfg = l1 ++ e :: l2 ->
  (forall x, In x l1 -> key x <> (id s, id t)) -> key e = (id s, id t) ->
  add_edge s t c cfg
  = Some (upgrade e c,
          mkCFG (nodes cfg) (l1 ++ upgrade e c :: l2) (next_id cfg)).
Proof.
  intros E H K. unfold add_edge. rewrite E, find_edge_present; auto.
Qed.

(** [add_edge] always returns, and touches the edge list only. *)
Lemma add_edge_total (s t : Node) (c : option bool) (cfg : ControlFlowGraph) :
  exists e es, add_edge s t c cfg = Some (e, mkCFG (nodes cfg) es (next_id cfg))
               /\ map key es = map key (edges cfg)
                               ++ match find_edge (edges cfg) (id s) (id t) c with
                                  | Some _ => []
                                  | None => [(id s, id t)]
                                  end.
Proof.
  destruct (first_of_pair (edges cfg) (id s) (id t))
    as [H|(l1 & e & l2 & E & K & H)].
  - rewrite (add_edge_new s t c cfg H), find_edge_absent by auto.
    do 2 eexists; split; [reflexivity|]. now rewrite map_app.
  - rewrite (add_edge_old s t c cfg l1 l2 e E H K), E, find_edge_present
      by auto.
    do 2 eexists; split; [reflexivity|].
    rewrite !map_app, app_nil_r. simpl. now rewrite key_upgrade.
Qed.

Lemma key_eqb_eq (k1 k2 : nat * nat) : key_eqb k1 k2 = true <-> k1 = k2.
Proof.
  destruct k1, k2; unfold key_eqb; simpl.
  rewrite andb_true_iff, !Nat.eqb_eq.
  split; [intros [-> ->]|intros [= -> ->]]; auto.
Qed.

Lemma seen_iff (k : nat * nat) (seen : list (nat * nat)) :
  existsb (key_eqb k) seen = true <-> In k seen.
Proof.
  rewrite existsb_exists. split.
  - intros (x & Hx & E). apply key_eqb_eq in E. now subst.
  - intros H. exists k. split; auto. now apply key_eqb_eq.
Qed.

Lemma find_edge_seen (es : list Edge) (s t : nat) (c : option bool) :
  existsb (key_eqb (s, t)) (map key es) = true
  <-> find_edge es s t c <> None.
Proof.
  rewrite seen_iff.
  destruct (first_of_pair es s t) as [H|(l1 & e & l2 & -> & K & H)].
  - rewrite find_edge_absent by auto. split; [|congruence].
    intros I. apply in_map_iff in I as (e & K & I). now apply H in I.
  - rewrite find_edge_present by auto. split; [discriminate|]. intros _.
    rewrite map_app, in_app_iff. right. left. exact K.
Qed.

Lemma add_edges_keys (calls : list (Node * Node * option bool)) :
  forall cfg, NoDup (map key (edges cfg)) ->
  exists cfg', add_edges calls cfg = Some (tt, cfg')
    /\ NoDup (map key (edges cfg'))
    /\ map key (edges cfg')
       = map key (edges cfg)
         ++ first_occurrences (map key (edges cfg)) (map call_key calls)
    /\ nodes cfg' = nodes cfg /\ next_id cfg' = next_id cfg.
Proof.
  induction calls as [|[[s t] c] calls IH]; intros cfg ND; simpl.
  - exists cfg. rewrite app_nil_r. auto.
  - destruct (add_edge_total s t c cfg) as (e & es & E & K).
    unfold bind. rewrite E.
    pose proof (find_edge_seen (edges cfg) (id s) (id t) c) as S.
    destruct (find_edge (edges cfg) (id s) (id t) c) as [r|].
    + rewrite app_nil_r in K.
      destruct (IH (mkCFG (nodes cfg) es (next_id cfg)))
        as (g & R & ND' & K' & Nn & Ni); simpl; [now rewrite K|].
      exists g. simpl in *. rewrite K in K'.
      rewrite (proj2 S) by discriminate. auto.
    + destruct (existsb (key_eqb (id s, id t)) (map key (edges cfg))) eqn:X.
      { exfalso. now apply (proj1 S). }
      destruct (IH (mkCFG (nodes cfg) es (next_id cfg)))
        as (g & R & ND' & K' & Nn & Ni); simpl.
      { rewrite K. apply NoDup_app; auto.
        - repeat constructor. intros [].
        - intros k I [<-|[]]. apply seen_iff in I. congruence. }
      exists g. simpl in *. rewrite K, <- app_assoc in K'. auto.
Qed.

(** C2.  Whatever the sequence of [add_edge] calls on a graph, the stored
    edges never hold two edges of one ordered (source, target) pair, and
    their pairs are the pairs of the calls in the order of their first
    call.  A call for a pair that is stored updates the stored edge in
    place when its condition is none and the requested one is true or
    false, and changes nothing in every other combination; a call for a
    pair that is not stored appends its edge. *)
Theorem add_edge_merge_rule :
  (forall ns n calls,
     exists cfg, add_edges calls (mkCFG ns [] n) = Some (tt, cfg)
       /\ NoDup (map key (edges cfg))
       /\ map key (edges cfg) = first_occurrences [] (map call_key calls))
  /\ (forall cfg s t c l1 e l2,
        edges cfg = l1 ++ e :: l2 ->
        (forall x, In x l1 -> key x <> (id s, id t)) ->
        key e = (id s, id t) ->
        (forall b, condition e = None -> c = Some b ->
           add_edge s t c cfg
           = Some (mkEdge (id s) (id t) (Some b),
                   mkCFG (nodes cfg)
                     (l1 ++ mkEdge (id s) (id t) (Some b) :: l2)
                     (next_id cfg)))
        /\ (condition e <> None \/ c = None ->
            add_edge s t c cfg = Some (e, cfg)))
  /\ (forall cfg s t c,
        (forall e, In e (edges cfg) -> key e <> (id s, id t)) ->
        add_edge s t c cfg
        = Some (mkEdge (id s) (id t) c,
                mkCFG (nodes cfg) (edges cfg ++ [mkEdge (id s) (id t) c])
                  (next_id cfg))).
Proof.
  split; [|split].
  - intros ns n calls.
    destruct (add_edges_keys calls (mkCFG ns [] n)) as (g & R & ND & K & _).
    { constructor. }
    exists g. auto.
  - intros cfg s t c l1 e l2 E H K.
    rewrite (add_edge_old s t c cfg l1 l2 e E H K). split.
    + intros b Ce ->. unfold upgrade. rewrite Ce.
      injection K as -> ->. reflexivity.
    + intros D. assert (upgrade e c = e) as ->.
      { unfold upgrade. destruct (condition e), c; try reflexivity.
        destruct D; congruence. }
      rewrite <- E. destruct cfg; reflexivity.
  - intros cfg s t c H. now apply add_edge_new.
Qed.

Lemma add_edge_merge_rule_witness :
  (exists cfg,
     add_edges [(node_a, node_b, None); (node_a, node_b, Some true);
                (node_b, node_a, None); (node_a, node_b, Some false)]
       (mkCFG [node_a; node_b] [] 2) = Some (tt, cfg)
     /\ edges cfg = [mkEdge 0 1 (Some true); mkEdge 1 0 None])
  /\ add_edge node_a node_b (Some true)
       (mkCFG [node_a; node_b] [mkEdge 1 0 None; mkEdge 0 1 None] 2)
     = Some (mkEdge 0 1 (Some true),
             mkCFG [node_a; node_b] [mkEdge 1 0 None; mkEdge 0 1 (Some true)] 2)
  /\ add_edge node_a node_b None
       (mkCFG [node_a; node_b] [mkEdge 0 1 (Some false)] 2)
     = Some (mkEdge 0 1 (Some false),
             mkCFG [node_a; node_b] [mkEdge 0 1 (Some false)] 2)
  /\ add_edge node_b node_a None (mkCFG [node_a; node_b] [mkEdge 0 1 None] 2)
     = Some (mkEdge 1 0 None,
             mkCFG [node_a; node_b] [mkEdge 0 1 None; mkEdge 1 0 None] 2).
Proof.
  destruct add_edge_merge_rule as (Seq & Old & New).
  split; [|split; [|split]].
  - destruct (Seq [node_a; node_b] 2
                [(node_a, node_b, None); (node_a, node_b, Some true);
                 (node_b, node_a, None); (node_a, node_b, Some false)])
      as (cfg & R & _).
    exists cfg. split; [exact R|]. vm_compute in R. now inversion R.
  - apply (Old (mkCFG [node_a; node_b] [mkEdge 1 0 None; mkEdge 0 1 None] 2)
             node_a node_b (Some true) [mkEdge 1 0 None] (mkEdge 0 1 None) []);
      try reflexivity.
    intros x [<-|[]]. discriminate.
  - apply (Old (mkCFG [node_a; node_b] [mkEdge 0 1 (Some false)] 2)
             node_a node_b None [] (mkEdge 0 1 (Some false)) []);
      try reflexivity; [intros x []| now right].
  - apply (New (mkCFG [node_a; node_b] [mkEdge 0 1 None] 2) node_b node_a None).
    intros x [<-|[]]. discriminate.
Defined.

(** ** Computations on the graph *)

Lemma wp_bind {A B : Type} (m : M A) (k : A -> M B) (cfg : ControlFlowGraph)
  (Q : B -> ControlFlowGraph -> Prop) :
  wp m cfg (fun a cfg' => wp (k a) cfg' Q) -> wp (bind m k) cfg Q.
Proof.
  unfold wp, bind. destruct (m cfg) as [[a cfg']|]; auto.
Qed.

Lemma wp_ret {A : Type} (a : A) (cfg : ControlFlowGraph)
  (Q : A -> ControlFlowGraph -> Prop) :
  Q a cfg -> wp (ret a) cfg Q.
Proof. auto. Qed.

Lemma wp_weaken {A : Type} (m : M A) (cfg : ControlFlowGraph)
  (Q Q' : A -> ControlFlowGraph -> Prop) :
  wp m cfg Q -> (forall a cfg', Q a cfg' -> Q' a cfg') -> wp m cfg Q'.
Proof.
  unfold wp. destruct (m cfg) as [[a cfg']|]; auto.
Qed.

Lemma wp_elim {A : Type} (m : M A) (cfg : ControlFlowGraph)
  (Q : A -> ControlFlowGraph -> Prop) (a : A) (cfg' : ControlFlowGraph) :
  wp m cfg Q -> m cfg = Some (a, cfg') -> Q a cfg'.
Proof. unfold wp. intros H E. now rewrite E in H. Qed.

Lemma wp_intro {A : Type} (m : M A) (cfg : ControlFlowGraph)
  (Q : A -> ControlFlowGraph -> Prop) :
  (forall a cfg', m cfg = Some (a, cfg') -> Q a cfg') -> wp m cfg Q.
Proof.
  unfold wp. destruct (m cfg) as [[a cfg']|]; auto.
Qed.

Lemma wp_add_node (text : str) (ty : node_type) (cfg : ControlFlowGraph)
  (Q : Node -> ControlFlowGraph -> Prop) :
  Q (mkNode (next_id cfg) text ty)
    (mkCFG (nodes cfg ++ [mkNode (next_id cfg) text ty]) (edges cfg)
       (next_id cfg + 1)) ->
  wp (add_node text ty) cfg Q.
Proof. auto. Qed.

(** ** Closed graphs *)

Lemma closed_add_node (cfg : ControlFlowGraph) (n : Node) :
  closed cfg -> closed (mkCFG (nodes cfg ++ [n]) (edges cfg) (next_id cfg + 1)).
Proof.
  unfold closed; simpl. intros H. eapply Forall_impl; [|exact H].
  simpl. intros e [? ?]. lia.
Qed.

Lemma closed_no_target (cfg : ControlFlowGraph) (s t : nat) :
  closed cfg -> next_id cfg <= t ->
  forall e, In e (edges cfg) -> key e <> (s, t).
Proof.
  intros C L e I K. unfold closed in C. rewrite Forall_forall in C.
  apply C in I. injection K as _ K. lia.
Qed.

Lemma closed_no_source (cfg : ControlFlowGraph) (s t : nat) :
  closed cfg -> next_id cfg <= s ->
  forall e, In e (edges cfg) -> key e <> (s, t).
Proof.
  intros C L e I K. unfold closed in C. rewrite Forall_forall in C.
  apply C in I. injection K as K _. lia.
Qed.

(** A statement node chained after [cur] is what [add_node] and [add_edge]
    make of it in a closed graph. *)
Lemma chain_eq (cfg : ControlFlowGraph) (cur : Node) (text : str) :
  closed cfg ->
  (stmt_node <- add_node text ty_statement ;;
   add_edge cur stmt_node None ;; ret stmt_node) cfg
  = Some (chain cfg cur text).
Proof.
  intros C. unfold bind, add_node. rewrite add_edge_new; [reflexivity|].
  simpl. apply closed_no_target; auto.
Qed.

Lemma flush_buffer_eq (cfg : ControlFlowGraph) (cur : Node)
  (buffer : list str) :
  closed cfg -> flush_buffer cur buffer cfg = Some (flushed cfg cur buffer).
Proof.
  intros C. unfold flush_buffer, flushed.
  destruct (nonempty buffer); [now apply chain_eq | reflexivity].
Qed.

Lemma closed_chain (cfg : ControlFlowGraph) (cur : Node) (text : str) :
  closed cfg -> id cur < next_id cfg -> closed (snd (chain cfg cur text)).
Proof.
  unfold closed; simpl. intros C L. apply Forall_app. split.
  - eapply Forall_impl; [|exact C]. simpl. intros e [? ?]. lia.
  - repeat constructor; simpl; lia.
Qed.

Lemma closed_flushed (cfg : ControlFlowGraph) (cur : Node)
  (buffer : list str) :
  closed cfg -> id cur < next_id cfg ->
  closed (snd (flushed cfg cur buffer))
  /\ id (fst (flushed cfg cur buffer)) < next_id (snd (flushed cfg cur buffer))
  /\ next_id cfg <= next_id (snd (flushed cfg cur buffer)).
Proof.
  intros C L. unfold flushed. destruct (nonempty buffer).
  - split; [now apply closed_chain|]. simpl. lia.
  - simpl. auto.
Qed.

Lemma find_edge_app (a b : list Edge) (s t : nat) (c : option bool) :
  (forall x, In x a -> key x <> (s, t)) ->
  find_edge (a ++ b) s t c
  = match find_edge b s t c with
    | Some (b', r) => Some (a ++ b', r)
    | None => None
    end.
Proof.
  induction a as [|x a IH]; simpl; intros H.
  - destruct (find_edge b s t c) as [[b' r]|]; reflexivity.
  - destruct ((source x =? s) && (target x =? t)) eqn:E.
    + apply pair_test in E. exfalso. apply (H x); auto.
    + rewrite IH by auto.
      destruct (find_edge b s t c) as [[b' r]|]; reflexivity.
Qed.

Lemma find_edge_Forall (P : Edge -> Prop) (b b' : list Edge) (r : Edge)
  (s t : nat) (c : option bool) :
  (forall e, P e -> P (upgrade e c)) ->
  Forall P b -> find_edge b s t c = Some (b', r) -> Forall P b'.
Proof.
  intros HP. revert b'. induction b as [|x b IH]; simpl; intros b' F E.
  - discriminate.
  - inversion F as [|? ? Px Fb]; subst.
    destruct ((source x =? s) && (target x =? t)).
    + injection E as <- <-. constructor; auto. now apply (HP x).
    + destruct (find_edge b s t c) as [[b'' r'']|]; [|discriminate].
      injection E as <- <-. constructor; auto.
Qed.

(** [add_edge] between two nodes of a closed graph, the target new for a
    closed graph [cfg0] that [cfg] grew from. *)
Lemma add_edge_grows (e0 : nat) (cfg0 cfg cfg' : ControlFlowGraph)
  (s t : Node) (c : option bool) (r : Edge) :
  closed cfg0 -> closed cfg -> grows e0 cfg0 cfg ->
  id s < next_id cfg -> id t < next_id cfg ->
  next_id cfg0 <= id t -> (id s = e0 \/ next_id cfg0 <= id s) ->
  add_edge s t c cfg = Some (r, cfg') ->
  closed cfg' /\ grows e0 cfg0 cfg' /\ next_id cfg' = next_id cfg
  /\ nodes cfg' = nodes cfg.
Proof.
  intros C0 C (Ln & Hn & es & Ee & Fe) Ls Lt Lt0 Ls0 E.
  unfold add_edge in E. rewrite Ee in E.
  rewrite find_edge_app in E by (apply closed_no_target; auto).
  unfold closed in C. rewrite Ee in C. apply Forall_app in C as [Ca Cb].
  destruct (find_edge es (id s) (id t) c) as [[es' r']|] eqn:F.
  - injection E as <- <-. unfold closed, grows; simpl.
    repeat split; auto.
    + apply Forall_app. split; auto.
      eapply find_edge_Forall; [|exact Cb|exact F].
      intros e; unfold upgrade; destruct (condition e), c; simpl; auto.
    + exists es'. split; auto.
      eapply find_edge_Forall; [|exact Fe|exact F].
      intros e; unfold upgrade; destruct (condition e), c; simpl; auto.
  - rewrite <- Ee in E. injection E as <- <-. unfold closed, grows; simpl.
    repeat split; auto.
    + rewrite Ee. rewrite <- app_assoc. apply Forall_app. split; auto.
      apply Forall_app. split; auto.
    + exists (es ++ [mkEdge (id s) (id t) c]). split.
      * rewrite Ee. now rewrite app_assoc.
      * apply Forall_app. split; auto.
Qed.

Lemma grows_refl (e0 : nat) (cfg : ControlFlowGraph) : grows e0 cfg cfg.
Proof.
  unfold grows. repeat split; auto.
  - exists []. now rewrite app_nil_r.
  - exists []. rewrite app_nil_r. auto.
Qed.

Lemma grows_add_node (e0 : nat) (cfg0 cfg : ControlFlowGraph) (n : Node) :
  grows e0 cfg0 cfg ->
  grows e0 cfg0 (mkCFG (nodes cfg ++ [n]) (edges cfg) (next_id cfg + 1)).
Proof.
  intros (Ln & (ns & Hn) & es & Ee & Fe). unfold grows; simpl.
  repeat split; [lia| |].
  - exists (ns ++ [n]). rewrite Hn. now rewrite app_assoc.
  - exists es. auto.
Qed.

Lemma grows_trans (e0 e1 : nat) (cfg0 cfg cfg' : ControlFlowGraph) :
  grows e0 cfg0 cfg -> grows e1 cfg cfg' ->
  (e1 = e0 \/ next_id cfg0 <= e1) ->
  grows e0 cfg0 cfg'.
Proof.
  intros (Ln & (ns & Hn) & es & Ee & Fe)
    (Ln' & (ns' & Hn') & es' & Ee' & Fe') H.
  unfold grows. repeat split; [lia| |].
  - exists (ns ++ ns'). rewrite Hn', Hn. now rewrite app_assoc.
  - exists (es ++ es'). split.
    + rewrite Ee', Ee. now rewrite app_assoc.
    + apply Forall_app. split; auto.
      eapply Forall_impl; [|exact Fe']. simpl. intros e [? ?]. lia.
Qed.

(** ** The builder keeps the graph closed and only adds to it *)

Section Invariant.
Variable e0 : nat.
Variable cfg0 : ControlFlowGraph.
Hypothesis closed0 : closed cfg0.

Lemma inv_le (cfg : ControlFlowGraph) :
  inv e0 cfg0 cfg -> next_id cfg0 <= next_id cfg.
Proof. intros [_ [L _]]. exact L. Qed.

Lemma inv_add_node (cfg : ControlFlowGraph) (text : str) (ty : node_type)
  (Q : Node -> ControlFlowGraph -> Prop) :
  inv e0 cfg0 cfg ->
  (forall n cfg', inv e0 cfg0 cfg' -> next_id cfg0 <= id n ->
                  id n = next_id cfg ->
                  next_id cfg' = next_id cfg + 1 -> Q n cfg') ->
  wp (add_node text ty) cfg Q.
Proof.
  intros I H. pose proof (inv_le cfg I). destruct I as [C G].
  apply wp_add_node. apply H; auto.
  split; [now apply closed_add_node | now apply grows_add_node].
Qed.

Lemma inv_add_edge (cfg : ControlFlowGraph) (s t : Node) (c : option bool)
  (Q : Edge -> ControlFlowGraph -> Prop) :
  inv e0 cfg0 cfg ->
  id s < next_id cfg -> id t < next_id cfg -> next_id cfg0 <= id t ->
  (id s = e0 \/ next_id cfg0 <= id s) ->
  (forall r cfg', inv e0 cfg0 cfg' -> next_id cfg' = next_id cfg -> Q r cfg') ->
  wp (add_edge s t c) cfg Q.
Proof.
  intros [C G] Ls Lt Lt0 Ls0 H. apply wp_intro. intros r cfg' E.
  destruct (add_edge_grows e0 cfg0 cfg cfg' s t c r) as (C' & G' & N & _);
    auto.
  apply H; [split|]; auto.
Qed.

Lemma inv_rec (rec : Node -> str -> M Node) (cfg : ControlFlowGraph)
  (entry : Node) (body : str) (Q : Node -> ControlFlowGraph -> Prop) :
  block_ok rec -> inv e0 cfg0 cfg ->
  id entry < next_id cfg -> next_id cfg0 <= id entry ->
  (forall exit cfg', inv e0 cfg0 cfg' -> next_id cfg <= next_id cfg' ->
                     id exit < next_id cfg' -> next_id cfg0 <= id exit ->
                     Q exit cfg') ->
  wp (rec entry body) cfg Q.
Proof.
  intros R I Le Le0 H. pose proof (inv_le cfg I). destruct I as [C G].
  apply wp_intro. intros exit cfg' E.
  destruct (R entry body cfg exit cfg' C Le E) as (C' & G' & Lx & X).
  apply H; auto.
  - split; auto. eapply grows_trans; eauto.
  - destruct G' as [? _]. auto.
  - lia.
Qed.

Lemma inv_flush (cfg : ControlFlowGraph) (cur : Node) (buffer : list str)
  (Q : Node -> ControlFlowGraph -> Prop) :
  inv e0 cfg0 cfg -> id cur < next_id cfg ->
  (id cur = e0 \/ next_id cfg0 <= id cur) ->
  (forall cur' cfg', inv e0 cfg0 cfg' -> next_id cfg <= next_id cfg' ->
                     id cur' < next_id cfg' ->
                     (id cur' = e0 \/ next_id cfg0 <= id cur') ->
                     Q cur' cfg') ->
  wp (flush_buffer cur buffer) cfg Q.
Proof.
  intros I L L0 H. unfold flush_buffer. destruct (nonempty buffer).
  - apply wp_bind. apply inv_add_node; auto. intros n g Ig Ln En Eg.
    apply wp_bind. apply inv_add_edge; auto; try lia.
    intros r g' Ig' Eg'. apply wp_ret. apply H; auto; lia.
  - apply wp_ret. apply H; auto.
Qed.

Ltac run_inv :=
  repeat
    (cbv beta;
     lazymatch goal with
     | |- wp (ret _) _ _ => apply wp_ret
     | |- wp (bind _ _) _ _ => apply wp_bind
     | |- wp (add_node _ _) _ _ =>
         apply inv_add_node; [assumption | intros ? ? ? ? ? ?]
     | |- wp (add_edge _ _ _) _ _ =>
         apply inv_add_edge;
         [assumption | lia | lia | lia | lia | intros ? ? ? ?]
     | |- wp (flush_buffer _ _) _ _ =>
         apply inv_flush; [assumption | lia | lia | intros ? ? ? ? ? ?]
     | |- wp (?f _ _) _ _ =>
         apply inv_rec;
         [assumption | assumption | lia | lia | intros ? ? ? ? ? ?]
     end).

Ltac close_state :=
  unfold state_ok; simpl;
  split; [assumption | split; [lia | split; [lia | auto]]].

Variable rec : Node -> str -> M Node.
Variable lines : list str.
Hypothesis rec_ok : block_ok rec.

Lemma removelast_push (l : list loop_ctx) (x : loop_ctx) :
  removelast (l ++ [x]) = l.
Proof. apply removelast_last. Qed.

Lemma handle_while_ok (line : str) (st : block_state)
  (cfg : ControlFlowGraph) :
  state_ok e0 cfg0 st cfg ->
  wp (handle_while rec lines line st) cfg (state_ok e0 cfg0).
Proof.
  intros (I & L & L0 & S). unfold handle_while, state_ok.
  run_inv.
  destruct (search_group re_while 7 line) as [g|]; run_inv.
  - destruct (extract_loop_body lines (st_i st)) as [loop_body next_idx].
    run_inv. destruct (nonempty loop_body); run_inv;
      rewrite removelast_push; close_state.
  - close_state.
Qed.

Lemma handle_if_ok (line : str) (st : block_state) (cfg : ControlFlowGraph) :
  state_ok e0 cfg0 st cfg ->
  wp (handle_if rec lines line st) cfg (state_ok e0 cfg0).
Proof.
  intros (I & L & L0 & S). unfold handle_if.
  run_inv.
  destruct (search_group re_if 4 line) as [g|]; run_inv.
  - destruct (extract_if_else_blocks lines (st_i st))
      as [[if_body else_body] next_idx].
    run_inv.
    destruct (nonempty if_body); run_inv;
      destruct (nonempty else_body); run_inv; close_state.
  - close_state.
Qed.

Lemma handle_for_ok (line : str) (st : block_state) (cfg : ControlFlowGraph) :
  state_ok e0 cfg0 st cfg ->
  wp (handle_for rec lines line st) cfg (state_ok e0 cfg0).
Proof.
  intros (I & L & L0 & S). unfold handle_for.
  run_inv.
  destruct (re_search re_for line) as [[[pre segs] rest]|]; run_inv.
  - destruct (nonempty (strip (seg 5 segs))); run_inv;
      (destruct (extract_loop_body lines (st_i st)) as [loop_body next_idx];
       run_inv;
       destruct (nonempty loop_body); run_inv;
       destruct (nonempty (strip (seg 9 segs))); run_inv;
       rewrite removelast_push; close_state).
  - close_state.
Qed.

Lemma handle_do_ok (st : block_state) (cfg : ControlFlowGraph) :
  state_ok e0 cfg0 st cfg ->
  wp (handle_do rec lines st) cfg (state_ok e0 cfg0).
Proof.
  intros (I & L & L0 & S). unfold handle_do.
  run_inv.
  destruct (extract_do_while_body_and_condition lines (st_i st))
    as [[loop_body condition] next_idx].
  run_inv.
  destruct (nonempty loop_body); run_inv;
    rewrite removelast_push; close_state.
Qed.

Lemma block_step_ok (st : block_state) (cfg : ControlFlowGraph) :
  state_ok e0 cfg0 st cfg ->
  wp (block_step rec lines st) cfg (state_ok e0 cfg0).
Proof.
  intros H. unfold block_step.
  repeat match goal with
         | |- wp (if ?b then _ else _) _ _ => destruct b
         end;
    try (apply handle_if_ok || apply handle_for_ok
         || apply handle_while_ok || apply handle_do_ok; exact H);
    destruct H as (I & L & L0 & S);
    unfold handle_continue, handle_break, skip_token; rewrite ?S; simpl;
    run_inv; close_state.
Qed.

Lemma block_loop_ok (n : nat) :
  forall st cfg, state_ok e0 cfg0 st cfg ->
                 wp (block_loop rec lines n st) cfg (state_ok e0 cfg0).
Proof.
  induction n as [|n IH]; intros st cfg H; simpl;
    destruct (length lines <=? st_i st); try (apply wp_ret; exact H).
  - exact I.
  - apply wp_bind. eapply wp_weaken; [apply block_step_ok; exact H|].
    intros st' cfg' H'. now apply IH.
Qed.
End Invariant.

Lemma process_code_block_ok (fuel : nat) : block_ok (process_code_block fuel).
Proof.
  induction fuel as [|fuel IH]; intros entry body cfg exit cfg' C L E.
  - discriminate.
  - simpl in E. destruct (negb (nonempty (strip body))).
    + injection E as <- <-.
      split; [auto | split; [apply grows_refl | split; auto]].
    + destruct (split_into_statements body) as [lines|]; [|discriminate].
      assert (state_ok (id entry) cfg (mkState 0 entry [] []) cfg) as S0.
      { split; [split; [auto | apply grows_refl] | simpl; auto]. }
      pose proof (block_loop_ok (id entry) cfg C _ lines IH (length lines)
                    _ _ S0) as W.
      unfold bind in E. unfold wp in W.
      destruct (block_loop (process_code_block fuel) lines (length lines)
                  (mkState 0 entry [] []) cfg) as [[st g]|]; [|discriminate].
      destruct W as (I & Lc & Lc0 & _).
      pose proof (inv_flush (id entry) cfg C g (current_node st)
                    (statement_buffer st)
                    (fun x g' => closed g' /\ grows (id entry) cfg g'
                                 /\ id x < next_id g'
                                 /\ (id x = id entry \/ next_id cfg <= id x))
                    I Lc Lc0) as W.
      apply (wp_elim _ _ _ _ _ (W (fun cur' g' '(conj C' G') _ L1 L2 =>
                                     conj C' (conj G' (conj L1 L2)))) E).
Qed.

(** ** Stepping through the builder *)

Lemma bind_add_node {B : Type} (text : str) (ty : node_type)
  (k : Node -> M B) (cfg : ControlFlowGraph) :
  bind (add_node text ty) k cfg
  = k (mkNode (next_id cfg) text ty)
      (mkCFG (nodes cfg ++ [mkNode (next_id cfg) text ty]) (edges cfg)
         (next_id cfg + 1)).
Proof. reflexivity. Qed.

Lemma bind_add_edge {B : Type} (s t : Node) (c : option bool)
  (k : Edge -> M B) (cfg : ControlFlowGraph) :
  (forall e, In e (edges cfg) -> key e <> (id s, id t)) ->
  bind (add_edge s t c) k cfg
  = k (mkEdge (id s) (id t) c)
      (mkCFG (nodes cfg) (edges cfg ++ [mkEdge (id s) (id t) c])
         (next_id cfg)).
Proof. intros H. unfold bind. now rewrite add_edge_new. Qed.

Lemma bind_ret {A B : Type} (a : A) (k : A -> M B) (cfg : ControlFlowGraph) :
  bind (ret a) k cfg = k a cfg.
Proof. reflexivity. Qed.

Lemma bind_assoc {A B C : Type} (m : M A) (k : A -> M B) (k' : B -> M C)
  (cfg : ControlFlowGraph) :
  bind (bind m k) k' cfg = bind m (fun a => bind (k a) k') cfg.
Proof. unfold bind. destruct (m cfg) as [[a g]|]; reflexivity. Qed.

Lemma bind_flush {B : Type} (cur : Node) (buffer : list str)
  (k : Node -> M B) (cfg : ControlFlowGraph) :
  closed cfg ->
  bind (flush_buffer cur buffer) k cfg
  = k (fst (flushed cfg cur buffer)) (snd (flushed cfg cur buffer)).
Proof.
  intros C. unfold bind. rewrite flush_buffer_eq by auto.
  now destruct (flushed cfg cur buffer).
Qed.

Lemma startswith_head (c0 : ascii) (p : str) (c : ascii) (l : str) :
  startswith (c0 :: p) (c :: l) = true -> c = c0.
Proof.
  cbn [startswith]. intros E. apply andb_true_iff in E as [E _].
  apply Ascii.eqb_eq in E. auto.
Qed.

(** The branch of [block_step] that a token takes. *)
Lemma block_step_while (rec : Node -> str -> M Node) (lines : list str)
  (st : block_state) :
  let line := strip (line_at lines (st_i st)) in
  startswith (py "while") line = true ->
  startswith (py "while(") line = false ->
  block_step rec lines st = handle_while rec lines line st.
Proof.
  intros line H1 H2. unfold block_step. fold line.
  destruct line as [|c l]; [simpl in H1; discriminate|].
  assert (c = "w"%char) as -> by exact (startswith_head _ (py "hile") _ _ H1).
  rewrite H1, H2. reflexivity.
Qed.

Lemma block_step_for (rec : Node -> str -> M Node) (lines : list str)
  (st : block_state) :
  let line := strip (line_at lines (st_i st)) in
  startswith (py "for") line = true ->
  block_step rec lines st = handle_for rec lines line st.
Proof.
  intros line H1. unfold block_step. fold line.
  destruct line as [|c l]; [simpl in H1; discriminate|].
  assert (c = "f"%char) as -> by exact (startswith_head _ (py "or") _ _ H1).
  rewrite H1. reflexivity.
Qed.

Lemma block_step_do (rec : Node -> str -> M Node) (lines : list str)
  (st : block_state) :
  let line := strip (line_at lines (st_i st)) in
  startswith (py "do") line = true ->
  block_step rec lines st = handle_do rec lines st.
Proof.
  intros line H1. unfold block_step. fold line.
  destruct line as [|c l]; [simpl in H1; discriminate|].
  assert (c = "d"%char) as -> by exact (startswith_head _ (py "o") _ _ H1).
  rewrite H1. reflexivity.
Qed.

(** No stored edge has the pair of the requested one: the stored edges
    are those of a closed graph [C] followed by edges given one by one. *)
Ltac fresh_pair C :=
  let e := fresh "e" in
  let I := fresh "I" in
  let K := fresh "K" in
  intros e I K; cbn [edges nodes next_id id] in I;
  rewrite ?in_app_iff in I; cbn [In] in I;
  unfold key in K; injection K as ? ?;
  repeat match goal with
         | H : _ \/ _ |- _ => destruct H
         | H : False |- _ => destruct H
         end;
  try (subst e; cbn [source target id] in *; lia);
  match goal with
  | H : In e (edges ?g) |- _ =>
      let P := fresh "P" in
      pose proof (proj1 (Forall_forall _ _) C e H) as P;
      cbn beta in P; cbn [id] in *; lia
  end.

(** A closed graph [C] with more nodes, followed by edges given one by one,
    is closed. *)
Ltac closed_graph C :=
  unfold closed; cbn [edges next_id]; apply Forall_app; split;
  [ eapply Forall_impl; [|exact C]; cbn beta; intros ? [? ?]; lia
  | repeat constructor; cbn [source target id]; lia ].

Ltac norm_graph :=
  cbn [nodes edges next_id id fst snd];
  rewrite <- ?app_assoc, <- ?Nat.add_assoc; cbn [app Nat.add].

Lemma plain_step (rec : Node -> str -> M Node) (lines : list str)
  (st : block_state) (cfg : ControlFlowGraph) :
  is_plain (strip (line_at lines (st_i st))) = true ->
  block_step rec lines st cfg
  = Some (mkState (st_i st + 1) (current_node st)
            (statement_buffer st ++ [strip (line_at lines (st_i st))])
            (loop_stack st), cfg).
Proof.
  unfold is_plain, block_step. intros H.
  repeat (apply andb_true_iff in H; destruct H as [H ?]).
  repeat match goal with
         | E : negb _ = true |- _ => apply negb_true_iff in E; rewrite ?E
         end.
  rewrite H. reflexivity.
Qed.

(** A token that starts with [while(] takes the normal-statement branch. *)
Lemma while_paren_is_plain (line : str) :
  startswith (py "while(") line = true -> is_plain line = true.
Proof.
  intros H.
  do 6 (destruct line as [|? line]; [discriminate|];
        cbn [py list_ascii_of_string startswith] in H;
        apply andb_true_iff in H as [E H]; apply Ascii.eqb_eq in E; subst).
  reflexivity.
Qed.

(** C3 (amended).  A header token that starts with [while(] is not handled
    as a loop: whatever the token, the builder appends it to the statement
    buffer and creates nothing.  A header token that starts with [while]
    but not with [while(], on which the condition pattern matches, is
    handled as a while loop: after the flush of the statement buffer, a
    loop_condition node with the stripped condition text is created and
    wired from the current node, a merge node receives a false-edge from
    it, and the merge node becomes the current node.  An empty body gives a
    true-edge from the condition to itself; a non-empty body gives a
    true-edge from the condition to a body-entry node and, when the
    recursion on the body returns, an edge from its exit back to the
    condition, after everything the recursion added. *)
Theorem while_loop_shape (fuel : nat) (lines : list str) (st : block_state)
  (cfg : ControlFlowGraph) (g : str) :
  let line := strip (line_at lines (st_i st)) in
  (startswith (py "while(") line = true ->
   block_step (process_code_block fuel) lines st cfg
   = Some (mkState (st_i st + 1) (current_node st)
             (statement_buffer st ++ [line]) (loop_stack st), cfg))
  /\ (startswith (py "while") line = true ->
      startswith (py "while(") line = false ->
      search_group re_while 7 line = Some g ->
      closed cfg -> id (current_node st) < next_id cfg ->
      let '(cur1, cfg1) :=
        flushed cfg (current_node st) (statement_buffer st) in
      let '(loop_body, next_idx) := extract_loop_body lines (st_i st) in
      let n := next_id cfg1 in
      let cond := mkNode n (strip g) ty_loop_condition in
      let merge := mkNode (n + 1) (py "After Loop (Merge Node)") ty_merge in
      let entry :=
        mkNode (n + 2) (py "While Loop Body Entry") ty_statement in
      let head := [mkEdge (id cur1) n None; mkEdge n (n + 1) (Some false)] in
      let cfg3 :=
        mkCFG (nodes cfg1 ++ [cond; merge; entry])
          (edges cfg1 ++ head ++ [mkEdge n (n + 2) (Some true)]) (n + 3) in
      (loop_body = [] ->
       block_step (process_code_block fuel) lines st cfg
       = Some (mkState next_idx merge [] (loop_stack st),
               mkCFG (nodes cfg1 ++ [cond; merge])
                 (edges cfg1 ++ head ++ [mkEdge n n (Some true)]) (n + 2)))
      /\ (loop_body <> [] ->
          forall exit cfg4,
            process_code_block fuel entry loop_body cfg3 = Some (exit, cfg4) ->
            block_step (process_code_block fuel) lines st cfg
            = Some (mkState next_idx merge [] (loop_stack st),
                    mkCFG (nodes cfg4)
                      (edges cfg4 ++ [mkEdge (id exit) n None])
                      (next_id cfg4))
            /\ exists ns es, nodes cfg4 = nodes cfg3 ++ ns
                             /\ edges cfg4 = edges cfg3 ++ es)).
Proof.
  intros line. split.
  { intros P. apply while_paren_is_plain in P.
    exact (plain_step (process_code_block fuel) lines st cfg P). }
  intros H1 H2 Hre C L.
  pose proof (closed_flushed cfg (current_node st) (statement_buffer st) C L)
    as (C1 & L1 & _).
  rewrite (block_step_while _ lines st H1 H2). fold line.
  unfold handle_while. rewrite bind_flush by auto.
  destruct (flushed cfg (current_node st) (statement_buffer st))
    as [cur1 cfg1]. simpl in C1, L1. cbn [fst snd].
  rewrite Hre.
  destruct (extract_loop_body lines (st_i st)) as [loop_body next_idx].
  rewrite bind_add_node.
  rewrite bind_add_edge by fresh_pair C1. norm_graph.
  rewrite bind_add_node. norm_graph.
  rewrite bind_add_edge by fresh_pair C1. norm_graph.
  rewrite removelast_last.
  split.
  - intros ->. cbn [nonempty]. rewrite bind_assoc.
    rewrite bind_add_edge by fresh_pair C1. norm_graph.
    reflexivity.
  - intros NE exit cfg4 R.
    destruct loop_body as [|c body]; [congruence|]. cbn [nonempty].
    rewrite bind_assoc, bind_add_node. norm_graph.
    rewrite bind_assoc, bind_add_edge by fresh_pair C1. norm_graph.
    match type of R with
    | process_code_block _ ?entry _ ?cfg3 = _ =>
        destruct (process_code_block_ok fuel entry (c :: body) cfg3 exit cfg4)
          as (C4 & (_ & Hn & es & He & Fe) & Lx & X);
        [closed_graph C1 | cbn [id next_id]; lia | exact R |]
    end.
    cbn [id next_id nodes edges] in *.
    rewrite bind_assoc. unfold bind at 1. rewrite R.
    rewrite bind_assoc, bind_add_edge.
    + split; [reflexivity|]. destruct Hn as [ns Hn]. exists ns, es. auto.
    + rewrite He. intros e I K. apply in_app_or in I. destruct I as [I|I].
      * revert e I K. fresh_pair C1.
      * rewrite Forall_forall in Fe. apply Fe in I. injection K as ? ?.
        cbn [id] in *. lia.
Qed.

Lemma bind_chain {B : Type} (cur : Node) (text : str) (k : Node -> M B)
  (cfg : ControlFlowGraph) :
  closed cfg ->
  bind (stmt_node <- add_node text ty_statement ;;
        add_edge cur stmt_node None ;; ret stmt_node) k cfg
  = k (fst (chain cfg cur text)) (snd (chain cfg cur text)).
Proof.
  intros C. unfold bind at 1. rewrite chain_eq by auto. reflexivity.
Qed.

(** The step of the builder on a [for] header, for every combination of
    empty and non-empty clauses and body. *)
Lemma for_step_shape (fuel : nat) (lines : list str) (st : block_state)
  (cfg : ControlFlowGraph) (pre : str) (segs : list str) (rest : str) :
  let line := strip (line_at lines (st_i st)) in
  startswith (py "for") line = true ->
  re_search re_for line = Some (pre, segs, rest) ->
  closed cfg -> id (current_node st) < next_id cfg ->
  let condition_expr :=
    if nonempty (strip (seg 7 segs)) then strip (seg 7 segs) else py "true" in
  let update_expr := strip (seg 9 segs) in
  let '(cond, merge, cfg3) :=
    for_head cfg (current_node st) (statement_buffer st)
      (strip (seg 5 segs)) condition_expr in
  let '(loop_body, next_idx) := extract_loop_body lines (st_i st) in
  let entry :=
    mkNode (next_id cfg3) (py "For Loop Body Entry") ty_statement in
  let cfg4 :=
    mkCFG (nodes cfg3 ++ [entry])
      (edges cfg3 ++ [mkEdge (id cond) (id entry) (Some true)])
      (next_id cfg3 + 1) in
  (loop_body = [] ->
   block_step (process_code_block fuel) lines st cfg
   = Some (mkState next_idx merge [] (loop_stack st),
           for_close cfg3 cond cond (Some true) update_expr))
  /\ (loop_body <> [] ->
      forall exit cfg5,
        process_code_block fuel entry loop_body cfg4 = Some (exit, cfg5) ->
        block_step (process_code_block fuel) lines st cfg
        = Some (mkState next_idx merge [] (loop_stack st),
                for_close cfg5 exit cond None update_expr)
        /\ exists ns es,
             nodes cfg5 = nodes cfg4 ++ ns /\ edges cfg5 = edges cfg4 ++ es
             /\ Forall (fun e => source e <> id cond /\ target e <> id cond
                                 /\ target e <> id merge) es).
Proof.
  intros line H1 Hre C L condition_expr update_expr.
  pose proof (closed_flushed cfg (current_node st) (statement_buffer st) C L)
    as (C1 & L1 & _).
  rewrite (block_step_for _ lines st H1). fold line.
  unfold handle_for, for_head. rewrite bind_flush by auto.
  destruct (flushed cfg (current_node st) (statement_buffer st))
    as [cur1 cfg1]. simpl in C1, L1. cbn [fst snd].
  rewrite Hre. fold condition_expr update_expr.
  assert (exists cur2 cfg2,
             (if nonempty (strip (seg 5 segs))
              then chain cfg1 cur1 (strip (seg 5 segs)) else (cur1, cfg1))
             = (cur2, cfg2)
             /\ closed cfg2 /\ id cur2 < next_id cfg2
             /\ forall B (k : Node -> M B),
                 bind (if nonempty (strip (seg 5 segs))
                       then
                         init_node <-
                           add_node (strip (seg 5 segs)) ty_statement ;;
                         add_edge cur1 init_node None ;; ret init_node
                       else ret cur1) k cfg1
                 = k cur2 cfg2) as (cur2 & cfg2 & -> & C2 & L2 & ->).
  { destruct (nonempty (strip (seg 5 segs))).
    - do 2 eexists. split; [reflexivity|].
      split; [apply (closed_chain cfg1 cur1 _ C1 L1)|].
      split; [simpl; lia|]. intros B k. now rewrite bind_chain.
    - exists cur1, cfg1. auto. }
  destruct (extract_loop_body lines (st_i st)) as [loop_body next_idx].
  rewrite bind_add_node. norm_graph.
  rewrite bind_add_edge by fresh_pair C2. norm_graph.
  rewrite bind_add_node. norm_graph.
  rewrite bind_add_edge by fresh_pair C2. norm_graph.
  rewrite removelast_last. unfold for_close.
  split.
  - intros ->. cbn [nonempty].
    destruct (nonempty update_expr); rewrite bind_assoc.
    + rewrite bind_add_node. norm_graph.
      rewrite bind_assoc, bind_add_edge by fresh_pair C2. norm_graph.
      rewrite bind_assoc, bind_add_edge by fresh_pair C2. norm_graph.
      reflexivity.
    + rewrite bind_add_edge by fresh_pair C2. norm_graph. reflexivity.
  - intros NE exit cfg5 R.
    destruct loop_body as [|c body]; [congruence|]. cbn [nonempty].
    rewrite bind_assoc, bind_add_node. norm_graph.
    rewrite bind_assoc, bind_add_edge by fresh_pair C2. norm_graph.
    revert R. norm_graph. intros R.
    match type of R with
    | process_code_block _ ?entry _ ?cfg4 = _ =>
        destruct (process_code_block_ok fuel entry (c :: body) cfg4 exit cfg5)
          as (C5 & (_ & Hn & es & He & Fe) & Lx & X);
        [closed_graph C2 | cbn [id next_id]; lia | exact R |]
    end.
    cbn [id next_id nodes edges] in *.
    rewrite bind_assoc. unfold bind at 1. rewrite R.
    assert (forall e, In e (edges cfg5) ->
                      source e < next_id cfg5 /\ target e < next_id cfg5) as B5.
    { apply Forall_forall. exact C5. }
    split.
    + destruct (nonempty update_expr).
      * rewrite bind_assoc, bind_add_node. norm_graph.
        rewrite bind_assoc, bind_add_edge by fresh_pair C5. norm_graph.
        rewrite bind_assoc, bind_add_edge by fresh_pair C5. norm_graph.
        reflexivity.
      * rewrite bind_assoc, bind_add_edge; [reflexivity|].
        rewrite He. intros e I K. apply in_app_or in I. destruct I as [I|I].
        -- revert e I K. fresh_pair C2.
        -- rewrite Forall_forall in Fe. apply Fe in I. injection K as ? ?.
           cbn [id] in *. lia.
    + destruct Hn as [ns Hn]. exists ns, es. repeat split; auto.
      eapply Forall_impl; [|exact Fe]. cbn beta. cbn [id]. intros e [? ?]. lia.
Qed.

Lemma nonempty_true {A : Type} (l : list A) : l <> [] -> nonempty l = true.
Proof. destruct l; [congruence | reflexivity]. Qed.

(** C7 (amended).  On a [for] header on which the pattern matches, with an
    init clause, a condition clause, an update clause and a body that are not
    empty, the builder creates, after the flush of the statement buffer, an
    init node wired from the current node, a loop_condition node wired from
    the init node with one false-edge to a merge node and one true-edge to a
    body-entry node, processes the body, and then creates an update node
    with an edge from the exit of the body and an edge from the update node
    back to the condition node; nothing that the body adds leaves or enters
    the condition node or enters the merge node.  On a [for] header whose
    condition clause is empty, whatever the other clauses and the body, the
    loop is built around a loop_condition node whose content is the text
    [true]. *)
Theorem for_loop_shape (fuel : nat) (lines : list str) (st : block_state)
  (cfg : ControlFlowGraph) (pre : str) (segs : list str) (rest : str) :
  let line := strip (line_at lines (st_i st)) in
  startswith (py "for") line = true ->
  re_search re_for line = Some (pre, segs, rest) ->
  closed cfg -> id (current_node st) < next_id cfg ->
  let init_expr := strip (seg 5 segs) in
  let condition_expr := strip (seg 7 segs) in
  let update_expr := strip (seg 9 segs) in
  let '(loop_body, next_idx) := extract_loop_body lines (st_i st) in
  (init_expr <> [] -> condition_expr <> [] -> update_expr <> [] ->
   loop_body <> [] ->
   let '(cur1, cfg1) := flushed cfg (current_node st) (statement_buffer st) in
   let n := next_id cfg1 in
   let init := mkNode n init_expr ty_statement in
   let cond := mkNode (n + 1) condition_expr ty_loop_condition in
   let merge := mkNode (n + 2) (py "After For Loop (Merge Node)") ty_merge in
   let entry := mkNode (n + 3) (py "For Loop Body Entry") ty_statement in
   let cfg4 :=
     mkCFG (nodes cfg1 ++ [init; cond; merge; entry])
       (edges cfg1 ++ [mkEdge (id cur1) n None; mkEdge n (n + 1) None;
                       mkEdge (n + 1) (n + 2) (Some false);
                       mkEdge (n + 1) (n + 3) (Some true)])
       (n + 4) in
   forall exit cfg5,
     process_code_block fuel entry loop_body cfg4 = Some (exit, cfg5) ->
     let update := mkNode (next_id cfg5) update_expr ty_statement in
     block_step (process_code_block fuel) lines st cfg
     = Some (mkState next_idx merge [] (loop_stack st),
             mkCFG (nodes cfg5 ++ [update])
               (edges cfg5 ++ [mkEdge (id exit) (next_id cfg5) None;
                               mkEdge (next_id cfg5) (n + 1) None])
               (next_id cfg5 + 1))
     /\ exists ns es,
          nodes cfg5 = nodes cfg4 ++ ns /\ edges cfg5 = edges cfg4 ++ es
          /\ Forall (fun e => source e <> n + 1 /\ target e <> n + 1
                              /\ target e <> n + 2) es)
  /\ (condition_expr = [] ->
      let '(cond, merge, cfg3) :=
        for_head cfg (current_node st) (statement_buffer st) init_expr
          (py "true") in
      let entry :=
        mkNode (next_id cfg3) (py "For Loop Body Entry") ty_statement in
      let cfg4 :=
        mkCFG (nodes cfg3 ++ [entry])
          (edges cfg3 ++ [mkEdge (id cond) (id entry) (Some true)])
          (next_id cfg3 + 1) in
      content cond = py "true" /\ type cond = ty_loop_condition
      /\ In cond (nodes cfg3)
      /\ (loop_body = [] ->
          block_step (process_code_block fuel) lines st cfg
          = Some (mkState next_idx merge [] (loop_stack st),
                  for_close cfg3 cond cond (Some true) update_expr))
      /\ (loop_body <> [] ->
          forall exit cfg5,
            process_code_block fuel entry loop_body cfg4 = Some (exit, cfg5) ->
            block_step (process_code_block fuel) lines st cfg
            = Some (mkState next_idx merge [] (loop_stack st),
                    for_close cfg5 exit cond None update_expr)
            /\ exists ns, nodes cfg5 = nodes cfg3 ++ ns)).
Proof.
  intros line H1 Hre C L init_expr condition_expr update_expr.
  pose proof (for_step_shape fuel lines st cfg pre segs rest H1 Hre C L) as S.
  cbv zeta in S. fold init_expr condition_expr update_expr in S.
  destruct (extract_loop_body lines (st_i st)) as [loop_body next_idx].
  split.
  - intros Ni Nc Nu Nb.
    unfold for_head in S.
    destruct (flushed cfg (current_node st) (statement_buffer st))
      as [cur1 cfg1].
    rewrite (nonempty_true _ Ni), (nonempty_true _ Nc) in S.
    unfold chain in S. cbn [id next_id nodes edges] in S.
    revert S. norm_graph. intros [_ S] exit cfg5 R.
    destruct (S Nb exit cfg5 R) as [E X]. split; [|exact X].
    rewrite E. unfold for_close. rewrite (nonempty_true _ Nu).
    reflexivity.
  - intros Ec. rewrite Ec in S. cbn [nonempty] in S.
    unfold for_head in *.
    destruct (flushed cfg (current_node st) (statement_buffer st))
      as [cur1 cfg1].
    destruct (if nonempty init_expr then chain cfg1 cur1 init_expr
              else (cur1, cfg1)) as [cur2 cfg2].
    destruct S as [Sa Sb].
    split; [reflexivity|]. split; [reflexivity|].
    split; [cbn [nodes]; apply in_or_app; right; now left|].
    split; [exact Sa|].
    intros Nb exit cfg5 R.
    destruct (Sb Nb exit cfg5 R) as (E & ns & es & Hn & _).
    split; [exact E|]. cbn [nodes] in Hn. rewrite <- app_assoc in Hn.
    eexists. exact Hn.
Qed.

(** X26.  On a [do] token the builder flushes the statement buffer,
    creates the body-entry node wired from the current node and processes
    the body from it; only when that has returned does it create the
    loop_condition node and the merge node.  So no edge of the graph that
    the processing of the body returns enters either of them, and in the
    graph after the step the only edge that enters the condition node is
    the one from the exit of the body, added after the body, and the only
    edge that enters the merge node is the false-edge from the condition
    node. *)
Theorem do_while_shape (fuel : nat) (lines : list str) (st : block_state)
  (cfg : ControlFlowGraph) :
  let line := strip (line_at lines (st_i st)) in
  startswith (py "do") line = true ->
  closed cfg -> id (current_node st) < next_id cfg ->
  let '(cur1, cfg1) := flushed cfg (current_node st) (statement_buffer st) in
  let '(loop_body, condition, next_idx) :=
    extract_do_while_body_and_condition lines (st_i st) in
  let n := next_id cfg1 in
  let entry := mkNode n (py "do") ty_statement in
  let cfg2 :=
    mkCFG (nodes cfg1 ++ [entry]) (edges cfg1 ++ [mkEdge (id cur1) n None])
      (n + 1) in
  forall exit cfg3,
    (if nonempty loop_body then process_code_block fuel entry loop_body
     else ret entry) cfg2 = Some (exit, cfg3) ->
    let cond :=
      mkNode (next_id cfg3)
        (if nonempty condition then condition else py "x < 5")
        ty_loop_condition in
    let merge :=
      mkNode (next_id cfg3 + 1) (py "After Do-While Loop (Merge Node)")
        ty_merge in
    let cfg5 :=
      mkCFG (nodes cfg3 ++ [cond; merge])
        (edges cfg3 ++ [mkEdge (id exit) (id cond) None;
                        mkEdge (id cond) n (Some true);
                        mkEdge (id cond) (id merge) (Some false)])
        (next_id cfg3 + 2) in
    block_step (process_code_block fuel) lines st cfg
    = Some (mkState next_idx merge [] (loop_stack st), cfg5)
    /\ (forall e, In e (edges cfg3) ->
                  target e <> id cond /\ target e <> id merge)
    /\ (forall e, In e (edges cfg5) -> target e = id cond ->
                  e = mkEdge (id exit) (id cond) None)
    /\ (forall e, In e (edges cfg5) -> target e = id merge ->
                  e = mkEdge (id cond) (id merge) (Some false)).
Proof.
  intros line H1 C L.
  pose proof (closed_flushed cfg (current_node st) (statement_buffer st) C L)
    as (C1 & L1 & _).
  rewrite (block_step_do _ lines st H1).
  unfold handle_do. rewrite bind_flush by auto.
  destruct (flushed cfg (current_node st) (statement_buffer st))
    as [cur1 cfg1]. simpl in C1, L1. cbn [fst snd].
  destruct (extract_do_while_body_and_condition lines (st_i st))
    as [[loop_body condition] next_idx].
  rewrite bind_add_node. norm_graph.
  rewrite bind_add_edge by fresh_pair C1. norm_graph.
  intros exit cfg3 R.
  assert (closed cfg3 /\ id exit < next_id cfg3 /\ next_id cfg1 <= id exit)
    as (C3 & Lx & Ln).
  { destruct (nonempty loop_body).
    - match type of R with
      | process_code_block _ ?entry ?body ?cfg2 = _ =>
          destruct (process_code_block_ok fuel entry body cfg2 exit cfg3)
            as (C3 & (Lg & _) & Lx & X);
          [closed_graph C1 | cbn [id next_id]; lia | exact R |]
      end.
      cbn [id next_id] in *. split; [auto|]. lia.
    - injection R as <- <-. split; [closed_graph C1|].
      cbn [id next_id]. lia. }
  unfold bind at 1. rewrite R.
  assert (forall e, In e (edges cfg3) ->
                    source e < next_id cfg3 /\ target e < next_id cfg3) as B3.
  { apply Forall_forall. exact C3. }
  rewrite bind_add_node. norm_graph.
  rewrite bind_add_edge by fresh_pair C3. norm_graph.
  rewrite bind_add_node. norm_graph.
  rewrite bind_add_edge by fresh_pair C3. norm_graph.
  rewrite bind_add_edge by fresh_pair C3. norm_graph.
  rewrite removelast_last.
  split; [reflexivity|]. split; [|split].
  - intros e I. apply B3 in I. lia.
  - intros e I T. apply in_app_or in I. destruct I as [I|I].
    + apply B3 in I. lia.
    + cbn [In] in I. destruct I as [<-|[<-|[<-|[]]]]; cbn [target] in T;
        try lia; reflexivity.
  - intros e I T. apply in_app_or in I. destruct I as [I|I].
    + apply B3 in I. lia.
    + cbn [In] in I. destruct I as [<-|[<-|[<-|[]]]]; cbn [target] in T;
        try lia; reflexivity.
Qed.

(** ** [break] and [continue] *)

(** C10.  A [break;] or [continue;] token met with an empty loop-context
    stack is consumed and nothing else happens: the graph is the same (no
    node, no edge), the current node is the same, and the statement buffer
    is the same, so the text of the token reaches no statement node. *)
Theorem break_continue_outside_loop (rec : Node -> str -> M Node)
  (lines : list str) (st : block_state) (cfg : ControlFlowGraph) :
  strip (line_at lines (st_i st)) = py "break;"
  \/ strip (line_at lines (st_i st)) = py "continue;" ->
  loop_stack st = [] ->
  block_step rec lines st cfg
  = Some (mkState (st_i st + 1) (current_node st) (statement_buffer st) [],
          cfg).
Proof.
  intros H S. unfold block_step.
  destruct H as [-> | ->]; cbn -[handle_break handle_continue];
    unfold handle_break, handle_continue, skip_token; rewrite S;
    reflexivity.
Qed.

Lemma break_continue_outside_loop_witness :
  block_step (process_code_block 1) [py "x = 1;"; py "break;"; py "y = 2;"]
    (mkState 1 node_a [py "x = 1;"] []) (mkCFG [node_a] [] 1)
  = Some (mkState 2 node_a [py "x = 1;"] [], mkCFG [node_a] [] 1).
Proof.
  apply (break_continue_outside_loop (process_code_block 1)
           [py "x = 1;"; py "break;"; py "y = 2;"]
           (mkState 1 node_a [py "x = 1;"] []) (mkCFG [node_a] [] 1)).
  - left. reflexivity.
  - reflexivity.
Defined.

(** The step on a [break;] or [continue;] token, whatever the stack. *)
Lemma break_continue_step (rec : Node -> str -> M Node) (lines : list str)
  (st : block_state) (cfg : ControlFlowGraph) :
  strip (line_at lines (st_i st)) = py "break;"
  \/ strip (line_at lines (st_i st)) = py "continue;" ->
  exists cfg1,
    block_step rec lines st cfg
    = Some (mkState (st_i st + 1) (current_node st) (statement_buffer st)
              (loop_stack st), cfg1)
    /\ nodes cfg1 = nodes cfg /\ next_id cfg1 = next_id cfg
    /\ (loop_stack st = [] -> cfg1 = cfg).
Proof.
  intros H. unfold block_step.
  destruct H as [-> | ->]; cbn -[handle_break handle_continue];
    unfold handle_break, handle_continue, skip_token;
    (destruct (innermost (loop_stack st)) as [ctx|] eqn:X;
     [ match goal with
       | |- context [add_edge ?s ?t ?c] =>
           destruct (add_edge_total s t c cfg) as (e & es & E & _)
       end;
       unfold bind; rewrite E; eexists; split; [reflexivity|];
       repeat split; auto;
       intros S; rewrite S in X; discriminate
     | eexists; split; [reflexivity|]; auto ]).
Qed.

Lemma skipn_line_at (lines : list str) (i : nat) :
  i < length lines -> skipn i lines = line_at lines i :: skipn (i + 1) lines.
Proof.
  revert i. induction lines as [|l lines IH]; intros i L; simpl in L; [lia|].
  destruct i as [|i]; [reflexivity|]. simpl. apply IH. lia.
Qed.

(** Plain statements to the end of the block are all buffered. *)
Lemma plain_run (rec : Node -> str -> M Node) (lines : list str) (n : nat) :
  forall st cfg,
    st_i st <= length lines -> length lines <= n + st_i st ->
    Forall (fun l => is_plain (strip l) = true) (skipn (st_i st) lines) ->
    block_loop rec lines n st cfg
    = Some (mkState (length lines) (current_node st)
              (statement_buffer st ++ map strip (skipn (st_i st) lines))
              (loop_stack st), cfg).
Proof.
  induction n as [|n IH]; intros st cfg L1 L2 F.
  - assert (st_i st = length lines) as E by lia.
    assert (skipn (st_i st) lines = []) as -> by (rewrite E; apply skipn_all).
    simpl. rewrite E, Nat.leb_refl, app_nil_r.
    destruct st; simpl in *; subst; reflexivity.
  - simpl. destruct (length lines <=? st_i st) eqn:D.
    + apply Nat.leb_le in D. assert (st_i st = length lines) as E by lia.
      assert (skipn (st_i st) lines = []) as -> by (rewrite E; apply skipn_all).
      rewrite app_nil_r. destruct st; simpl in *; subst; reflexivity.
    + apply Nat.leb_gt in D. rewrite (skipn_line_at lines _ D) in *.
      inversion F as [|? ? P F']; subst.
      unfold bind. rewrite plain_step by exact P.
      rewrite IH; cbn [st_i current_node statement_buffer loop_stack];
        try lia; auto.
      now rewrite <- app_assoc.
Qed.

(** The step on a [break;] or [continue;] token, and the rest of the block
    from there when the tokens that follow are plain statements. *)
Lemma break_then_plain_statements (rec : Node -> str -> M Node)
  (lines : list str) (st : block_state) (cfg : ControlFlowGraph) (n : nat) :
  st_i st < length lines ->
  strip (line_at lines (st_i st)) = py "break;"
  \/ strip (line_at lines (st_i st)) = py "continue;" ->
  exists cfg1,
    block_step rec lines st cfg
    = Some (mkState (st_i st + 1) (current_node st) (statement_buffer st)
              (loop_stack st), cfg1)
    /\ nodes cfg1 = nodes cfg /\ next_id cfg1 = next_id cfg
    /\ (loop_stack st = [] -> cfg1 = cfg)
    /\ (skipn (st_i st + 1) lines <> [] ->
        Forall (fun l => is_plain (strip l) = true)
          (skipn (st_i st + 1) lines) ->
        closed cfg1 -> length lines <= n + st_i st ->
        finish_block rec lines n st cfg
        = Some (chain cfg1 (current_node st)
                  (join nl (statement_buffer st
                            ++ map strip (skipn (st_i st + 1) lines))))).
Proof.
  intros L H. destruct (break_continue_step rec lines st cfg H)
    as (cfg1 & E & Hn & Hi & Hs).
  exists cfg1. repeat split; auto.
  intros NE F C Ln. unfold finish_block.
  destruct n as [|n]; [lia|]. simpl.
  apply Nat.leb_gt in L. rewrite L. apply Nat.leb_gt in L.
  rewrite bind_assoc. unfold bind at 1. rewrite E. unfold bind.
  rewrite plain_run; cbn [st_i current_node statement_buffer loop_stack];
    try lia; auto.
  rewrite flush_buffer_eq by auto. unfold flushed.
  destruct (skipn (st_i st + 1) lines) as [|l rest]; [congruence|].
  destruct (statement_buffer st); reflexivity.
Qed.

(** ** Blocks *)

Lemma block_step_if (rec : Node -> str -> M Node) (lines : list str)
  (st : block_state) :
  let line := strip (line_at lines (st_i st)) in
  startswith (py "if") line = true ->
  block_step rec lines st = handle_if rec lines line st.
Proof.
  intros line H1. unfold block_step. fold line.
  destruct line as [|c l]; [simpl in H1; discriminate|].
  assert (c = "i"%char) as -> by exact (startswith_head _ (py "f") _ _ H1).
  rewrite H1. reflexivity.
Qed.

(** A block of plain statements becomes one statement node after the entry
    node. *)
Lemma plain_block (fuel : nat) (entry : Node) (code_block : str)
  (lines : list str) (cfg : ControlFlowGraph) :
  closed cfg -> strip code_block <> [] ->
  split_into_statements code_block = Some lines -> lines <> [] ->
  Forall (fun l => is_plain (strip l) = true) lines ->
  process_code_block (S fuel) entry code_block cfg
  = Some (chain cfg entry (join nl (map strip lines))).
Proof.
  intros C NE T NL F. simpl.
  rewrite (nonempty_true _ NE), T. cbn [negb]. unfold bind.
  rewrite plain_run; cbn [st_i]; try lia; auto.
  cbn [current_node statement_buffer app skipn].
  rewrite flush_buffer_eq by auto. unfold flushed.
  destruct lines; [congruence | reflexivity].
Qed.

Lemma block_loop_next (rec : Node -> str -> M Node) (lines : list str)
  (n : nat) (st : block_state) :
  st_i st < length lines ->
  block_loop rec lines (S n) st
  = (st' <- block_step rec lines st ;; block_loop rec lines n st').
Proof.
  intros L. apply Nat.leb_gt in L. simpl. now rewrite L.
Qed.

Lemma block_loop_done (rec : Node -> str -> M Node) (lines : list str)
  (n : nat) (st : block_state) :
  length lines <= st_i st -> block_loop rec lines n st = ret st.
Proof.
  intros L. apply Nat.leb_le in L. destruct n; simpl; now rewrite L.
Qed.

Lemma if_else_sample_block (fuel : nat) (entry : Node)
  (cfg : ControlFlowGraph) :
  closed cfg -> id entry < next_id cfg ->
  let n := next_id cfg in
  let merge := mkNode (n + 1) (py "After If-Else (Merge Node)") ty_merge in
  process_code_block (S (S fuel)) entry if_else_sample cfg
  = Some (merge,
          mkCFG (nodes cfg
                 ++ [mkNode n (py "x > 5") ty_condition; merge;
                     mkNode (n + 2) (py "If Branch Entry") ty_statement;
                     mkNode (n + 3) (py "x = x + 1;") ty_statement;
                     mkNode (n + 4) (py "Else Branch Entry") ty_statement;
                     mkNode (n + 5) (py "x = x - 1;") ty_statement])
            (edges cfg
             ++ [mkEdge (id entry) n None;
                 mkEdge n (n + 2) (Some true);
                 mkEdge (n + 2) (n + 3) None;
                 mkEdge (n + 3) (n + 1) None;
                 mkEdge n (n + 4) (Some false);
                 mkEdge (n + 4) (n + 5) None;
                 mkEdge (n + 5) (n + 1) None])
            (n + 6)).
Proof.
  intros C L n merge. subst n merge.
  assert (split_into_statements if_else_sample
          = Some [py "if (x > 5)"; py "{"; py "x = x + 1;"; py "}";
                  py "else"; py "{"; py "x = x - 1;"; py "}"]) as T
    by (vm_compute; reflexivity).
  change (process_code_block (S (S fuel)) entry if_else_sample cfg)
    with ((if negb (nonempty (strip if_else_sample)) then ret entry
           else match split_into_statements if_else_sample with
                | None => diverge
                | Some lines =>
                    st <- block_loop (process_code_block (S fuel)) lines
                            (length lines) (mkState 0 entry [] []) ;;
                    flush_buffer (current_node st) (statement_buffer st)
                end) cfg).
  rewrite T.
  replace (negb (nonempty (strip if_else_sample))) with false
    by (vm_compute; reflexivity).
  cbn [length].
  rewrite block_loop_next by (simpl; lia).
  rewrite block_step_if by (vm_compute; reflexivity).
  unfold handle_if. cbn [current_node statement_buffer loop_stack st_i].
  rewrite ?bind_assoc. rewrite bind_flush by auto. cbn [flushed nonempty fst snd].
  replace (search_group re_if 4 (strip (line_at _ 0))) with (Some (py "x > 5"))
    by (vm_compute; reflexivity).
  replace (strip (py "x > 5")) with (py "x > 5") by (vm_compute; reflexivity).
  replace (extract_if_else_blocks _ 0)
    with (py "x = x + 1;", py "x = x - 1;", 8) by (vm_compute; reflexivity).
  cbv iota beta.
  change (nonempty (py "x = x + 1;")) with true.
  change (nonempty (py "x = x - 1;")) with true. cbv iota.
  assert (forall text, Forall (fun l => is_plain (strip l) = true)
                         [py text] <-> is_plain (strip (py text)) = true)
    as One.
  { intros text. split; [now inversion 1 | now repeat constructor]. }
  rewrite ?bind_assoc, bind_add_node. norm_graph.
  rewrite ?bind_assoc, bind_add_edge by fresh_pair C. norm_graph.
  rewrite ?bind_assoc, bind_add_node. norm_graph.
  rewrite ?bind_assoc, bind_add_node. norm_graph.
  rewrite ?bind_assoc, bind_add_edge by fresh_pair C. norm_graph.
  rewrite ?bind_assoc. unfold bind at 1.
  rewrite (plain_block fuel _ (py "x = x + 1;") [py "x = x + 1;"]);
    [ | closed_graph C | vm_compute; discriminate | vm_compute; reflexivity
      | discriminate | apply One; vm_compute; reflexivity ].
  replace (join nl (map strip [py "x = x + 1;"])) with (py "x = x + 1;")
    by (vm_compute; reflexivity).
  unfold chain. norm_graph.
  rewrite ?bind_assoc, bind_add_edge by fresh_pair C. norm_graph.
  rewrite ?bind_assoc, bind_ret.
  rewrite ?bind_assoc, bind_add_node. norm_graph.
  rewrite ?bind_assoc, bind_add_edge by fresh_pair C. norm_graph.
  rewrite ?bind_assoc. unfold bind at 1.
  rewrite (plain_block fuel _ (py "x = x - 1;") [py "x = x - 1;"]);
    [ | closed_graph C | vm_compute; discriminate | vm_compute; reflexivity
      | discriminate | apply One; vm_compute; reflexivity ].
  replace (join nl (map strip [py "x = x - 1;"])) with (py "x = x - 1;")
    by (vm_compute; reflexivity).
  unfold chain. norm_graph.
  rewrite ?bind_assoc, bind_add_edge by fresh_pair C. norm_graph.
  rewrite ?bind_assoc, ?bind_ret.
  rewrite block_loop_done by (simpl; lia).
  rewrite bind_ret. cbn [current_node statement_buffer].
  reflexivity.
Qed.

(** ** Whole functions *)

(** [parse_cpp_code] on a text in which a function is found. *)
Lemma parse_cpp_code_function (fuel : nat) (code pre : str) (segs : list str)
  (body : str) :
  re_search re_function (remove_comments code) = Some (pre, segs, body) ->
  let start_node := mkNode 0 (py "START") ty_start in
  let function_node := mkNode 1 (concat segs) ty_statement in
  parse_cpp_code fuel code
  = match
      (last_node <-
         process_code_block fuel function_node
           (strip (firstn (find_body_end body 0 1) body)) ;;
       end_node <- add_node (py "END") ty_end ;;
       add_edge last_node end_node None ;; ret tt)
        (mkCFG [start_node; function_node] [mkEdge 0 1 None] 2)
    with
    | Some (_, cfg) => Some cfg
    | None => None
    end.
Proof.
  intros H. unfold parse_cpp_code. rewrite H. reflexivity.
Qed.

(** C6.  For every input in which the function found has the body
    [if (x > 5) { x = x + 1; } else { x = x - 1; }], the graph is the one
    given here: the condition node (id 2) has exactly two outgoing edges,
    one true-edge to the if-branch entry node (id 4) and one false-edge to
    the else-branch entry node (id 6); there is exactly one merge node
    (id 3), and exactly two edges enter it, from the statement nodes that
    end the two branches (ids 5 and 7). *)
Theorem if_else_shape (fuel : nat) (code pre : str) (segs : list str)
  (body : str) :
  re_search re_function (remove_comments code) = Some (pre, segs, body) ->
  strip (firstn (find_body_end body 0 1) body) = if_else_sample ->
  exists cfg,
    parse_cpp_code (S (S fuel)) code = Some cfg
    /\ nodes cfg
       = [mkNode 0 (py "START") ty_start;
          mkNode 1 (concat segs) ty_statement;
          mkNode 2 (py "x > 5") ty_condition;
          mkNode 3 (py "After If-Else (Merge Node)") ty_merge;
          mkNode 4 (py "If Branch Entry") ty_statement;
          mkNode 5 (py "x = x + 1;") ty_statement;
          mkNode 6 (py "Else Branch Entry") ty_statement;
          mkNode 7 (py "x = x - 1;") ty_statement;
          mkNode 8 (py "END") ty_end]
    /\ edges cfg
       = [mkEdge 0 1 None; mkEdge 1 2 None; mkEdge 2 4 (Some true);
          mkEdge 4 5 None; mkEdge 5 3 None; mkEdge 2 6 (Some false);
          mkEdge 6 7 None; mkEdge 7 3 None; mkEdge 3 8 None]
    /\ filter (fun e => source e =? 2) (edges cfg)
       = [mkEdge 2 4 (Some true); mkEdge 2 6 (Some false)]
    /\ filter is_merge (nodes cfg)
       = [mkNode 3 (py "After If-Else (Merge Node)") ty_merge]
    /\ filter (fun e => target e =? 3) (edges cfg)
       = [mkEdge 5 3 None; mkEdge 7 3 None].
Proof.
  intros H B. rewrite (parse_cpp_code_function _ code pre segs body H).
  cbv zeta. rewrite B. unfold bind at 1.
  rewrite if_else_sample_block;
    [ | repeat constructor; simpl; lia | simpl; lia ].
  eexists. split; [reflexivity|].
  repeat split; reflexivity.
Qed.

Lemma if_else_shape_witness :
  exists cfg,
    parse_cpp_code 2
      (py "int main() { if (x > 5) { x = x + 1; } else { x = x - 1; } }")
    = Some cfg
    /\ filter (fun e => source e =? 2) (edges cfg)
       = [mkEdge 2 4 (Some true); mkEdge 2 6 (Some false)]
    /\ filter is_merge (nodes cfg)
       = [mkNode 3 (py "After If-Else (Merge Node)") ty_merge]
    /\ filter (fun e => target e =? 3) (edges cfg)
       = [mkEdge 5 3 None; mkEdge 7 3 None].
Proof.
  destruct (if_else_shape 0
              (py "int main() { if (x > 5) { x = x + 1; } else { x = x - 1; } }")
              []
              [py "int"; py " "; py "main"; py ""; py "("; py ""; py ")";
               py " "; py "{"]
              (py " if (x > 5) { x = x + 1; } else { x = x - 1; } }"))
    as (cfg & E & _ & _ & F1 & F2 & F3).
  - vm_compute. reflexivity.
  - vm_compute. reflexivity.
  - exists cfg. auto.
Defined.

Lemma no_function_closed (fuel : nat) (code : str) :
  re_search re_function (remove_comments code) = None ->
  parse_cpp_code fuel code
  = Some (mkCFG [mkNode 0 (py "START") ty_start] [] 1).
Proof.
  intros H. unfold parse_cpp_code. rewrite H. reflexivity.
Qed.

(** C9.  When the function pattern matches nowhere in the text (comments
    removed), the graph returned holds the START node, of id 0, and nothing
    else: no END node, no other node, no edge. *)
Theorem no_function_only_start (fuel : nat) (code : str) :
  re_search re_function (remove_comments code) = None ->
  parse_cpp_code fuel code
  = Some (mkCFG [mkNode 0 (py "START") ty_start] [] 1).
Proof.
  intros H. now apply no_function_closed.
Qed.

Lemma no_function_only_start_witness :
  parse_cpp_code 0 (py "x = 1; // int main() {")
  = Some (mkCFG [mkNode 0 (py "START") ty_start] [] 1).
Proof.
  apply (no_function_only_start 0 (py "x = 1; // int main() {")).
  vm_compute. reflexivity.
Defined.

(** C1.  On [void f() { while (x < 5) { break; } }] the builder returns the
    graph given here.  The [break;] is met with the body-entry node (id 4)
    current, inside the loop whose merge node has id 3, and no edge joins
    4 to 3: the only edge that enters the merge node is the false-edge of
    the condition node. *)
Theorem break_in_while_adds_no_edge :
  exists cfg,
    parse_cpp_code 2 (py "void f() { while (x < 5) { break; } }") = Some cfg
    /\ nodes cfg
       = [mkNode 0 (py "START") ty_start;
          mkNode 1 (py "void f() {") ty_statement;
          mkNode 2 (py "x < 5") ty_loop_condition;
          mkNode 3 (py "After Loop (Merge Node)") ty_merge;
          mkNode 4 (py "While Loop Body Entry") ty_statement;
          mkNode 5 (py "END") ty_end]
    /\ edges cfg
       = [mkEdge 0 1 None; mkEdge 1 2 None; mkEdge 2 3 (Some false);
          mkEdge 2 4 (Some true); mkEdge 4 2 None; mkEdge 3 5 None]
    /\ filter (fun e => target e =? 3) (edges cfg)
       = [mkEdge 2 3 (Some false)].
Proof.
  eexists. split; [vm_compute; reflexivity|]. repeat split; reflexivity.
Qed.

(** C3, as stated, fails on [while(x < 5) { }]: the header token starts
    with [while(], the builder buffers it as a plain statement, and the
    graph has no loop_condition node. *)
Lemma while_paren_is_not_a_loop :
  exists cfg,
    parse_cpp_code 2 (py "void f() { while(x < 5) { } }") = Some cfg
    /\ filter is_loop_condition (nodes cfg) = []
    /\ In (mkNode 2 (py "while(x < 5)") ty_statement) (nodes cfg)
    /\ block_step (process_code_block 1) [py "while(x < 5)"; py "{"; py "}"]
         (mkState 0 node_a [] []) (mkCFG [node_a] [] 1)
       = Some (mkState 1 node_a [py "while(x < 5)"] [], mkCFG [node_a] [] 1).
Proof.
  eexists. split; [vm_compute; reflexivity|].
  split; [reflexivity|]. split; [|vm_compute; reflexivity].
  simpl. auto.
Qed.

Lemma while_loop_shape_witness :
  block_step (process_code_block 1)
    [py "while(x < 5)"; py "{"; py "x++;"; py "}"]
    (mkState 0 node_a [] []) (mkCFG [node_a] [] 1)
  = Some (mkState 1 node_a [py "while(x < 5)"] [], mkCFG [node_a] [] 1)
  /\ block_step (process_code_block 1) [py "while (x < 5)"; py "{"; py "}"]
       (mkState 0 node_a [] []) (mkCFG [node_a] [] 1)
     = Some (mkState 3 (mkNode 2 (py "After Loop (Merge Node)") ty_merge)
               [] [],
             mkCFG [node_a; mkNode 1 (py "x < 5") ty_loop_condition;
                    mkNode 2 (py "After Loop (Merge Node)") ty_merge]
               [mkEdge 0 1 None; mkEdge 1 2 (Some false);
                mkEdge 1 1 (Some true)]
               3)
  /\ block_step (process_code_block 1)
       [py "while (x < 5)"; py "{"; py "x++;"; py "}"]
       (mkState 0 node_a [] []) (mkCFG [node_a] [] 1)
     = Some (mkState 4 (mkNode 2 (py "After Loop (Merge Node)") ty_merge)
               [] [],
             mkCFG [node_a; mkNode 1 (py "x < 5") ty_loop_condition;
                    mkNode 2 (py "After Loop (Merge Node)") ty_merge;
                    mkNode 3 (py "While Loop Body Entry") ty_statement;
                    mkNode 4 (py "x++;") ty_statement]
               [mkEdge 0 1 None; mkEdge 1 2 (Some false);
                mkEdge 1 3 (Some true); mkEdge 3 4 None; mkEdge 4 1 None]
               5).
Proof.
  assert (closed (mkCFG [node_a] [] 1)) as C by constructor.
  assert (id (current_node (mkState 0 node_a [] []))
          < next_id (mkCFG [node_a] [] 1)) as L by (simpl; lia).
  split; [|split].
  - pose proof (while_loop_shape 1
                  [py "while(x < 5)"; py "{"; py "x++;"; py "}"]
                  (mkState 0 node_a [] []) (mkCFG [node_a] [] 1) []) as [W _].
    exact (W eq_refl).
  - pose proof (while_loop_shape 1 [py "while (x < 5)"; py "{"; py "}"]
                  (mkState 0 node_a [] []) (mkCFG [node_a] [] 1) (py "x < 5"))
      as [_ W].
    destruct (W eq_refl eq_refl eq_refl C L) as [W0 _].
    exact (W0 eq_refl).
  - pose proof (while_loop_shape 1
                  [py "while (x < 5)"; py "{"; py "x++;"; py "}"]
                  (mkState 0 node_a [] []) (mkCFG [node_a] [] 1) (py "x < 5"))
      as [_ W].
    destruct (W eq_refl eq_refl eq_refl C L) as [_ W1].
    assert (py "x++;" <> []) as NE by discriminate.
    destruct (W1 NE (mkNode 4 (py "x++;") ty_statement)
                (mkCFG [node_a; mkNode 1 (py "x < 5") ty_loop_condition;
                        mkNode 2 (py "After Loop (Merge Node)") ty_merge;
                        mkNode 3 (py "While Loop Body Entry") ty_statement;
                        mkNode 4 (py "x++;") ty_statement]
                   [mkEdge 0 1 None; mkEdge 1 2 (Some false);
                    mkEdge 1 3 (Some true); mkEdge 3 4 None] 5)
                eq_refl) as [E _].
    exact E.
Defined.

(** C5.  On [void f() { while (a < 1) { do { break; } while (b < 2); } }]
    the [break;] of the do-body is met with the [do] node (id 5) current,
    inside the [while] loop whose merge node has id 3.  The claim has it
    resolve against that enclosing loop; the builder adds no edge for it:
    the only edge that leaves node 5 goes on to the do-while's condition
    node, and the only edge that enters the merge node 3 is the false-edge
    of the [while] condition.  The invocation that processes the do-body
    starts with an empty stack. *)
Theorem break_in_do_while_reaches_no_loop :
  exists cfg,
    parse_cpp_code 3
      (py "void f() { while (a < 1) { do { break; } while (b < 2); } }")
    = Some cfg
    /\ In (mkNode 3 (py "After Loop (Merge Node)") ty_merge) (nodes cfg)
    /\ In (mkNode 5 (py "do") ty_statement) (nodes cfg)
    /\ filter (fun e => target e =? 3) (edges cfg) = [mkEdge 2 3 (Some false)]
    /\ filter (fun e => source e =? 5) (edges cfg) = [mkEdge 5 6 None].
Proof.
  eexists. split; [vm_compute; reflexivity|].
  simpl. repeat split; auto 10.
Qed.

Lemma do_while_shape_witness :
  block_step (process_code_block 2)
    [py "do"; py "{"; py "break;"; py "}"; py "while (b < 2)"; py ";"]
    (mkState 0 node_a [] []) (mkCFG [node_a] [] 1)
  = Some (mkState 5
            (mkNode 3 (py "After Do-While Loop (Merge Node)") ty_merge) [] [],
          mkCFG [node_a; mkNode 1 (py "do") ty_statement;
                 mkNode 2 (py "x < 5") ty_loop_condition;
                 mkNode 3 (py "After Do-While Loop (Merge Node)") ty_merge]
            [mkEdge 0 1 None; mkEdge 1 2 None; mkEdge 2 1 (Some true);
             mkEdge 2 3 (Some false)]
            4).
Proof.
  assert (closed (mkCFG [node_a] [] 1)) as C by constructor.
  assert (id (current_node (mkState 0 node_a [] []))
          < next_id (mkCFG [node_a] [] 1)) as L by (simpl; lia).
  pose proof (do_while_shape 2
                [py "do"; py "{"; py "break;"; py "}"; py "while (b < 2)";
                 py ";"]
                (mkState 0 node_a [] []) (mkCFG [node_a] [] 1)
                eq_refl C L
                (mkNode 1 (py "do") ty_statement)
                (mkCFG [node_a; mkNode 1 (py "do") ty_statement]
                   [mkEdge 0 1 None] 2)
                eq_refl) as [W _].
  exact W.
Defined.

Lemma for_loop_shape_witness :
  block_step (process_code_block 1)
    [py "for (int i = 0; i < 10; i++)"; py "{"; py "sum += i;"; py "}"]
    (mkState 0 node_a [] []) (mkCFG [node_a] [] 1)
  = Some (mkState 4 (mkNode 3 (py "After For Loop (Merge Node)") ty_merge)
            [] [],
          mkCFG [node_a; mkNode 1 (py "int i = 0") ty_statement;
                 mkNode 2 (py "i < 10") ty_loop_condition;
                 mkNode 3 (py "After For Loop (Merge Node)") ty_merge;
                 mkNode 4 (py "For Loop Body Entry") ty_statement;
                 mkNode 5 (py "sum += i;") ty_statement;
                 mkNode 6 (py "i++") ty_statement]
            [mkEdge 0 1 None; mkEdge 1 2 None; mkEdge 2 3 (Some false);
             mkEdge 2 4 (Some true); mkEdge 4 5 None; mkEdge 5 6 None;
             mkEdge 6 2 None]
            7)
  /\ block_step (process_code_block 1) [py "for (;;)"; py "{"; py "}"]
       (mkState 0 node_a [] []) (mkCFG [node_a] [] 1)
     = Some (mkState 3 (mkNode 2 (py "After For Loop (Merge Node)") ty_merge)
               [] [],
             mkCFG [node_a; mkNode 1 (py "true") ty_loop_condition;
                    mkNode 2 (py "After For Loop (Merge Node)") ty_merge]
               [mkEdge 0 1 None; mkEdge 1 2 (Some false);
                mkEdge 1 1 (Some true)]
               3).
Proof.
  assert (closed (mkCFG [node_a] [] 1)) as C by constructor.
  assert (id (current_node (mkState 0 node_a [] []))
          < next_id (mkCFG [node_a] [] 1)) as L by (simpl; lia).
  split.
  - pose proof (for_loop_shape 1
                  [py "for (int i = 0; i < 10; i++)"; py "{"; py "sum += i;";
                   py "}"]
                  (mkState 0 node_a [] []) (mkCFG [node_a] [] 1) []
                  [py "f"; py "o"; py "r"; py " "; py "("; py "int i = 0";
                   py ";"; py " i < 10"; py ";"; py " i++"; py ")"] []
                  eq_refl eq_refl C L) as [W _].
    refine (proj1 (W _ _ _ _
                     (mkNode 5 (py "sum += i;") ty_statement)
                     (mkCFG [node_a; mkNode 1 (py "int i = 0") ty_statement;
                             mkNode 2 (py "i < 10") ty_loop_condition;
                             mkNode 3 (py "After For Loop (Merge Node)")
                               ty_merge;
                             mkNode 4 (py "For Loop Body Entry") ty_statement;
                             mkNode 5 (py "sum += i;") ty_statement]
                        [mkEdge 0 1 None; mkEdge 1 2 None;
                         mkEdge 2 3 (Some false); mkEdge 2 4 (Some true);
                         mkEdge 4 5 None]
                        6)
                     eq_refl)); vm_compute; discriminate.
  - pose proof (for_loop_shape 1 [py "for (;;)"; py "{"; py "}"]
                  (mkState 0 node_a [] []) (mkCFG [node_a] [] 1) []
                  [py "f"; py "o"; py "r"; py " "; py "("; py ""; py ";";
                   py ""; py ";"; py ""; py ")"] []
                  eq_refl eq_refl C L) as [_ W].
    exact (proj1 (proj2 (proj2 (proj2 (W eq_refl)))) eq_refl).
Defined.

(** C7, as stated, fails on a header whose clauses stand on two lines,
    [for (int i = 0;] and [ i < 10; i++)], before [{ sum += i; }]: the
    three clauses and the body are not empty, the pattern, whose [.] takes
    no newline, does not match the header token, and the builder skips the
    token: the graph has no loop_condition node and no merge node, and the
    body is wired as a plain statement. *)
Lemma for_header_on_two_lines_is_no_loop :
  let header := py "for (int i = 0;" ++ nl ++ py " i < 10; i++)" in
  split_into_statements (header ++ py " { sum += i; }")
  = Some [header; py "{"; py "sum += i;"; py "}"]
  /\ re_search re_for (strip header) = None
  /\ exists cfg,
      parse_cpp_code 2 (py "void f() { " ++ header ++ py " { sum += i; } }")
      = Some cfg
      /\ filter is_loop_condition (nodes cfg) = []
      /\ filter is_merge (nodes cfg) = []
      /\ nodes cfg = [node_a; mkNode 1 (py "void f() {") ty_statement;
                      mkNode 2 (py "sum += i;") ty_statement;
                      mkNode 3 (py "END") ty_end]
      /\ edges cfg = [mkEdge 0 1 None; mkEdge 1 2 None; mkEdge 2 3 None].
Proof.
  cbv zeta. split; [vm_compute; reflexivity|].
  split; [vm_compute; reflexivity|].
  eexists. split; [vm_compute; reflexivity|].
  repeat split; reflexivity.
Qed.


(** ** The tokenizer *)






Lemma split_loop_next (n : nat) (code : str) (st : tok_state) :
  tk_i st < length code ->
  split_loop (S n) code st = split_loop n code (split_step code st).
Proof.
  intros L. apply Nat.leb_gt in L. simpl. now rewrite L.
Qed.

Lemma split_loop_done (n : nat) (code : str) (st : tok_state) :
  length code <= tk_i st ->
  split_loop n code st = Some (flush_current (tk_current st) (tk_lines st)).
Proof.
  intros L. apply Nat.leb_le in L. destruct n; simpl; now rewrite L.
Qed.

Section Word.
Variable w : str.
Hypothesis w_alnum : Forall (fun c => isalnum c = true) w.




End Word.







(** ** The bounds of the loops

    The tokenizer's loop moves its index forward in every iteration or
    leaves it where it is for good, so [len(code_block)] iterations decide
    whether it ends. *)

Lemma split_step_index (code : str) (st st' : tok_state) :
  tk_i st = tk_i st' ->
  tk_i (split_step code st) = tk_i (split_step code st').
Proof.
  intros E. unfold split_step, header_token, keyword_token. rewrite E.
  repeat match goal with
         | |- context [if ?b then _ else _] => destruct b
         end; reflexivity.
Qed.

Lemma split_step_progress (code : str) (st : tok_state) :
  tk_i st <= tk_i (split_step code st).
Proof.
  unfold split_step, header_token, keyword_token.
  repeat match goal with
         | |- context [if ?b then _ else _] => destruct b
         end; cbn [tk_i]; lia.
Qed.

Lemma split_loop_stuck (code : str) (fuel : nat) :
  forall st, tk_i st < length code ->
             tk_i (split_step code st) = tk_i st ->
             split_loop fuel code st = None.
Proof.
  induction fuel as [|fuel IH]; intros st L E.
  - simpl. apply Nat.leb_gt in L. now rewrite L.
  - rewrite split_loop_next by auto. apply IH; [lia|].
    exact (split_step_index code _ _ E).
Qed.

Lemma split_loop_more (code : str) (r : list str) (n : nat) :
  forall st, split_loop n code st = Some r ->
             split_loop (S n) code st = Some r.
Proof.
  induction n as [|n IH]; intros st H.
  - simpl in *. destruct (length code <=? tk_i st); [auto|discriminate].
  - destruct (Nat.leb_spec (length code) (tk_i st)) as [L|L].
    + rewrite split_loop_done in * by auto. auto.
    + rewrite split_loop_next in * by auto. auto.
Qed.

Lemma split_loop_enough (code : str) (n : nat) :
  forall st m, length code <= n + tk_i st -> n <= m ->
               split_loop m code st = split_loop n code st.
Proof.
  induction n as [|n IH]; intros st m L Lm.
  - rewrite !split_loop_done by lia. reflexivity.
  - destruct (Nat.leb_spec (length code) (tk_i st)) as [D|D].
    + rewrite !split_loop_done by auto. reflexivity.
    + destruct m as [|m]; [lia|]. rewrite !split_loop_next by auto.
      pose proof (split_step_progress code st) as P.
      destruct (Nat.eq_dec (tk_i (split_step code st)) (tk_i st)) as [E|E].
      * pose proof (split_step_index code _ _ E) as E'.
        rewrite !split_loop_stuck; auto; lia.
      * apply IH; lia.
Qed.

(** [split_into_statements] returns what the loop returns with any bound
    that lets it end, and [None] only when no bound does. *)
Lemma split_into_statements_returns (code : str) (fuel : nat)
  (r : list str) :
  split_loop fuel code (TokState 0 [] []) = Some r ->
  split_into_statements code = Some r.
Proof.
  intros H. unfold split_into_statements.
  destruct (Nat.le_ge_cases fuel (length code)) as [L|L].
  - induction L as [|m L IH]; auto. now apply split_loop_more.
  - rewrite <- H. symmetry. apply split_loop_enough; cbn [tk_i]; lia.
Qed.

Lemma split_into_statements_diverges (code : str) :
  split_into_statements code = None ->
  forall fuel, split_loop fuel code (TokState 0 [] []) = None.
Proof.
  intros H fuel.
  destruct (split_loop fuel code (TokState 0 [] [])) as [r|] eqn:E; auto.
  apply split_into_statements_returns in E. congruence.
Qed.

(** The builder's loop moves its index forward in every iteration, so
    [len(lines)] iterations reach the end of the tokens. *)

Lemma block_at_index (lines : list str) (i : nat) :
  i <= snd (block_at lines i).
Proof.
  unfold block_at.
  repeat match goal with
         | |- context [if ?b then _ else _] => destruct b
         end; cbn [snd]; lia.
Qed.

Lemma extract_if_else_index (lines : list str) (i : nat) :
  i < snd (extract_if_else_blocks lines i).
Proof.
  unfold extract_if_else_blocks.
  pose proof (block_at_index lines (i + 1)) as P.
  destruct (block_at lines (i + 1)) as [if_block j]. cbn [snd] in P.
  destruct ((j <? length lines) && _).
  - destruct ((j + 1 <? length lines) && _); [cbn [snd]; lia|].
    pose proof (block_at_index lines (j + 1)) as P'.
    destruct (block_at lines (j + 1)) as [else_block k]. cbn [snd] in *. lia.
  - cbn [snd]. lia.
Qed.

Lemma extract_loop_body_index (lines : list str) (i : nat) :
  i < snd (extract_loop_body lines i).
Proof.
  unfold extract_loop_body. pose proof (block_at_index lines (i + 1)). lia.
Qed.

Lemma extract_do_while_index (lines : list str) (i : nat) :
  i < snd (extract_do_while_body_and_condition lines i).
Proof.
  unfold extract_do_while_body_and_condition.
  pose proof (block_at_index lines (i + 1)) as P.
  destruct (block_at lines (i + 1)) as [loop_body j]. cbn [snd] in P.
  destruct ((j <? length lines) && _); [|cbn [snd]; lia].
  destruct (search_group re_do_while 7 (line_at lines j)); cbn [snd]; lia.
Qed.

Lemma wp_any {A : Type} (m : M A) (cfg : ControlFlowGraph)
  (Q : A -> ControlFlowGraph -> Prop) :
  (forall a cfg', Q a cfg') -> wp m cfg Q.
Proof. intros H. apply wp_intro. auto. Qed.

Ltac run_any :=
  repeat
    (cbv beta;
     lazymatch goal with
     | |- wp (ret _) _ _ => apply wp_ret
     | |- wp (bind _ _) _ _ => apply wp_bind
     | |- wp (if ?b then _ else _) _ _ => destruct b
     | |- wp (match ?x with _ => _ end) _ _ => destruct x eqn:?
     | |- wp _ _ _ => apply wp_any; intros ? ?
     end).

Lemma block_step_advances (rec : Node -> str -> M Node) (lines : list str)
  (st : block_state) (cfg : ControlFlowGraph) :
  wp (block_step rec lines st) cfg (fun st' _ => st_i st < st_i st').
Proof.
  pose proof (extract_if_else_index lines (st_i st)) as P1.
  pose proof (extract_loop_body_index lines (st_i st)) as P2.
  pose proof (extract_do_while_index lines (st_i st)) as P3.
  unfold block_step, handle_if, handle_for, handle_while, handle_do,
    handle_continue, handle_break, skip_token.
  run_any; cbn [st_i];
    repeat match goal with
           | E : _ = _ |- _ => rewrite E in *
           end; cbn [snd] in *; lia.
Qed.

(** No step leaves a loop context on the stack: what a loop pushes, it pops
    before the step ends, and the body in between is processed by a
    recursive call with a stack of its own.  So every [break;] and
    [continue;] of a block is met with the stack the block started with,
    which is empty. *)
Lemma block_step_stack (rec : Node -> str -> M Node) (lines : list str)
  (st : block_state) (cfg : ControlFlowGraph) :
  wp (block_step rec lines st) cfg
    (fun st' _ => loop_stack st' = loop_stack st).
Proof.
  unfold block_step, handle_if, handle_for, handle_while, handle_do,
    handle_continue, handle_break, skip_token.
  run_any; cbn [loop_stack]; rewrite ?removelast_last; reflexivity.
Qed.

Lemma block_loop_enough (rec : Node -> str -> M Node) (lines : list str)
  (n : nat) :
  forall st m cfg, length lines <= n + st_i st -> n <= m ->
                   block_loop rec lines m st cfg = block_loop rec lines n st cfg.
Proof.
  induction n as [|n IH]; intros st m cfg L Lm.
  - rewrite !block_loop_done by lia. reflexivity.
  - destruct (Nat.leb_spec (length lines) (st_i st)) as [D|D].
    + rewrite !block_loop_done by auto. reflexivity.
    + destruct m as [|m]; [lia|]. rewrite !block_loop_next by auto.
      unfold bind. pose proof (block_step_advances rec lines st cfg) as P.
      unfold wp in P.
      destruct (block_step rec lines st cfg) as [[st' cfg']|]; auto.
      apply IH; lia.
Qed.

(** ** More fuel does not change what the builder returns *)

Lemma refines_refl {A : Type} (m : M A) : refines m m.
Proof. intros cfg r H. exact H. Qed.

Lemma refines_bind {A B : Type} (m m' : M A) (k k' : A -> M B) :
  refines m m' -> (forall a, refines (k a) (k' a)) ->
  refines (bind m k) (bind m' k').
Proof.
  intros Hm Hk cfg r. unfold bind.
  destruct (m cfg) as [[a g]|] eqn:E; [|discriminate].
  rewrite (Hm cfg _ E). apply Hk.
Qed.

Ltac run_refines H :=
  repeat
    (cbv beta;
     lazymatch goal with
     | |- refines (bind _ _) (bind _ _) => apply refines_bind; [|intros ?]
     | |- refines (if ?b then _ else _) _ => destruct b
     | |- refines (match ?x with _ => _ end) _ => destruct x
     | |- refines _ _ => first [apply refines_refl | apply H]
     end).

Lemma block_step_refines (rec rec' : Node -> str -> M Node)
  (lines : list str) (st : block_state) :
  (forall entry body, refines (rec entry body) (rec' entry body)) ->
  refines (block_step rec lines st) (block_step rec' lines st).
Proof.
  intros H.
  unfold block_step, handle_if, handle_for, handle_while, handle_do,
    handle_continue, handle_break, skip_token.
  run_refines H.
Qed.

Lemma block_loop_refines (rec rec' : Node -> str -> M Node)
  (lines : list str) (n : nat) :
  (forall entry body, refines (rec entry body) (rec' entry body)) ->
  forall st, refines (block_loop rec lines n st) (block_loop rec' lines n st).
Proof.
  intros H. induction n as [|n IH]; intros st; simpl;
    destruct (length lines <=? st_i st); try apply refines_refl.
  apply refines_bind; [now apply block_step_refines | exact IH].
Qed.

Lemma process_code_block_eq (fuel : nat) (entry_node : Node)
  (code_block : str) :
  process_code_block (S fuel) entry_node code_block
  = if negb (nonempty (strip code_block)) then ret entry_node
    else
      match split_into_statements code_block with
      | None => diverge
      | Some lines =>
          st <- block_loop (process_code_block fuel) lines (length lines)
                  (mkState 0 entry_node [] []) ;;
          flush_buffer (current_node st) (statement_buffer st)
      end.
Proof. reflexivity. Qed.

Lemma process_code_block_more (fuel : nat) :
  forall entry_node code_block,
    refines (process_code_block fuel entry_node code_block)
      (process_code_block (S fuel) entry_node code_block).
Proof.
  induction fuel as [|fuel IH]; intros entry_node code_block.
  - intros cfg r H. discriminate.
  - rewrite (process_code_block_eq (S fuel)), (process_code_block_eq fuel).
    destruct (negb (nonempty (strip code_block))); [apply refines_refl|].
    destruct (split_into_statements code_block) as [lines|];
      [|apply refines_refl].
    apply refines_bind; [|intros ?; apply refines_refl].
    now apply block_loop_refines.
Qed.

Lemma process_code_block_fuel (fuel fuel' : nat) (entry_node : Node)
  (code_block : str) :
  fuel <= fuel' ->
  refines (process_code_block fuel entry_node code_block)
    (process_code_block fuel' entry_node code_block).
Proof.
  induction 1 as [|m L IH]; [apply refines_refl|].
  intros cfg r H. apply process_code_block_more. now apply IH.
Qed.

(** ** Code after [break] and [continue] *)

Lemma block_steps_ok (fuel : nat) (lines : list str) (e0 : nat)
  (cfg0 : ControlFlowGraph) (k : nat) :
  closed cfg0 ->
  forall st cfg,
    state_ok e0 cfg0 st cfg ->
    wp (block_steps (process_code_block fuel) lines k st) cfg
      (state_ok e0 cfg0).
Proof.
  intros C0. induction k as [|k IH]; intros st cfg H; cbn [block_steps].
  - apply wp_ret. exact H.
  - destruct (length lines <=? st_i st); [exact I|].
    apply wp_bind. eapply wp_weaken.
    + apply (block_step_ok e0 cfg0 C0 _ lines (process_code_block_ok fuel)).
      exact H.
    + intros st' cfg' H'. now apply IH.
Qed.

(** The loop of [process_code_block] goes on from the state that its first
    [k] iterations reach. *)
Lemma block_loop_after (rec : Node -> str -> M Node) (lines : list str)
  (k : nat) :
  forall st cfg st' cfg' n,
    block_steps rec lines k st cfg = Some (st', cfg') ->
    block_loop rec lines (k + n) st cfg = block_loop rec lines n st' cfg'.
Proof.
  induction k as [|k IH]; intros st cfg st' cfg' n H; cbn [block_steps] in H.
  - injection H as <- <-. reflexivity.
  - destruct (Nat.leb_spec (length lines) (st_i st)) as [D|D]; [discriminate|].
    cbn [Nat.add]. rewrite block_loop_next by auto.
    unfold bind in *.
    destruct (block_step rec lines st cfg) as [[st1 cfg1]|]; [|discriminate].
    now apply IH.
Qed.

(** C8.  In a block that [process_code_block] tokenizes into [lines], let
    the loop reach a [break;] or [continue;] token, after some number of
    iterations, in the state [st] with the graph [cfg], and let the tokens
    that follow it be plain statements.  The step on the token changes
    neither the current node nor the statement buffer nor the graph, and
    the call returns the graph [cfg] with one more statement node, wired
    from the node that was current before the [break;] or [continue;],
    whose content is what the buffer held followed by the statements after
    the token: the code after it stays wired as if it were reachable. *)
Theorem code_after_break_stays_wired (fuel : nat) (entry : Node)
  (code_block : str) (cfg0 : ControlFlowGraph) (lines : list str) (k : nat)
  (st : block_state) (cfg : ControlFlowGraph) :
  closed cfg0 -> id entry < next_id cfg0 ->
  strip code_block <> [] ->
  split_into_statements code_block = Some lines ->
  block_steps (process_code_block fuel) lines k (mkState 0 entry [] []) cfg0
  = Some (st, cfg) ->
  st_i st < length lines ->
  strip (line_at lines (st_i st)) = py "break;"
  \/ strip (line_at lines (st_i st)) = py "continue;" ->
  skipn (st_i st + 1) lines <> [] ->
  Forall (fun l => is_plain (strip l) = true) (skipn (st_i st + 1) lines) ->
  block_step (process_code_block fuel) lines st cfg
  = Some (mkState (st_i st + 1) (current_node st) (statement_buffer st)
            (loop_stack st), cfg)
  /\ process_code_block (S fuel) entry code_block cfg0
     = Some (chain cfg (current_node st)
               (join nl (statement_buffer st
                         ++ map strip (skipn (st_i st + 1) lines)))).
Proof.
  intros C0 L0 NE T R Li B NP F.
  assert (state_ok (id entry) cfg0 (mkState 0 entry [] []) cfg0) as S0.
  { split; [split; [auto | apply grows_refl] | simpl; auto]. }
  pose proof (block_steps_ok fuel lines (id entry) cfg0 k C0 _ _ S0) as W.
  unfold wp in W. rewrite R in W. destruct W as ((Cc & _) & _ & _ & Sk).
  destruct (break_then_plain_statements (process_code_block fuel) lines st cfg
              (length lines) Li B) as (cfg1 & E & _ & _ & Hs & Fin).
  pose proof (Hs Sk) as ->. split; [exact E|].
  assert (length lines <= length lines + st_i st) as Le by lia.
  specialize (Fin NP F Cc Le). unfold finish_block, bind in Fin.
  rewrite process_code_block_eq, (nonempty_true _ NE), T. cbn [negb].
  unfold bind.
  rewrite <- (block_loop_enough (process_code_block fuel) lines (length lines)
                (mkState 0 entry [] []) (k + length lines) cfg0)
    by (cbn [st_i]; lia).
  rewrite (block_loop_after _ _ k _ _ _ _ (length lines) R).
  exact Fin.
Qed.

Lemma code_after_break_stays_wired_witness :
  process_code_block 2 node_a (py "if (a) { b; } c; break; d;")
    (mkCFG [node_a] [] 1)
  = Some (mkNode 5 (py "c;" ++ nl ++ py "d;") ty_statement,
          mkCFG [node_a; mkNode 1 (py "a") ty_condition;
                 mkNode 2 (py "After If-Else (Merge Node)") ty_merge;
                 mkNode 3 (py "If Branch Entry") ty_statement;
                 mkNode 4 (py "b;") ty_statement;
                 mkNode 5 (py "c;" ++ nl ++ py "d;") ty_statement]
            [mkEdge 0 1 None; mkEdge 1 3 (Some true); mkEdge 3 4 None;
             mkEdge 4 2 None; mkEdge 1 2 (Some false); mkEdge 2 5 None]
            6).
Proof.
  assert (closed (mkCFG [node_a] [] 1)) as C by constructor.
  assert (id node_a < next_id (mkCFG [node_a] [] 1)) as L by (simpl; lia).
  destruct (code_after_break_stays_wired 1 node_a
              (py "if (a) { b; } c; break; d;") (mkCFG [node_a] [] 1)
              [py "if (a)"; py "{"; py "b;"; py "}"; py "c;"; py "break;";
               py "d;"]
              2
              (mkState 5 (mkNode 2 (py "After If-Else (Merge Node)") ty_merge)
                 [py "c;"] [])
              (mkCFG [node_a; mkNode 1 (py "a") ty_condition;
                      mkNode 2 (py "After If-Else (Merge Node)") ty_merge;
                      mkNode 3 (py "If Branch Entry") ty_statement;
                      mkNode 4 (py "b;") ty_statement]
                 [mkEdge 0 1 None; mkEdge 1 3 (Some true); mkEdge 3 4 None;
                  mkEdge 4 2 None; mkEdge 1 2 (Some false)] 5)
              C L) as [_ E].
  - vm_compute. discriminate.
  - vm_compute. reflexivity.
  - vm_compute. reflexivity.
  - vm_compute. lia.
  - left. vm_compute. reflexivity.
  - vm_compute. discriminate.
  - repeat constructor.
  - exact E.
Defined.

(** ** The graph returned *)

(** Every edge of the graph that [parse_cpp_code] returns joins two nodes
    that were created: the builder runs on closed graphs throughout. *)
Lemma parse_cpp_code_closed (fuel : nat) (code : str)
  (cfg : ControlFlowGraph) :
  parse_cpp_code fuel code = Some cfg -> closed cfg.
Proof.
  destruct (re_search re_function (remove_comments code))
    as [[[pre segs] body]|] eqn:F.
  - rewrite (parse_cpp_code_function fuel code pre segs body F). cbv zeta.
    set (g0 := mkCFG _ _ 2). set (fn := mkNode 1 _ _).
    assert (closed g0) as C0 by (repeat constructor; simpl; lia).
    unfold bind.
    set (text := strip (firstn (find_body_end body 0 1) body)).
    destruct (process_code_block fuel fn text g0) as [[last g]|] eqn:R;
      [|discriminate].
    destruct (process_code_block_ok fuel fn text g0 last g C0)
      as (C & _ & L & _); [simpl; lia | exact R |].
    unfold add_node.
    rewrite add_edge_new by (cbn [edges id]; apply closed_no_target; auto).
    intros [= <-]. closed_graph C.
  - rewrite no_function_closed by exact F. intros [= <-]. constructor.
Qed.

(** * Further properties *)

(** ** What the whole builder keeps *)

Section Kept.
Variable P : ControlFlowGraph -> Prop.
Hypothesis P_kept : kept P.

Lemma kept_add_node (cfg : ControlFlowGraph) (text : str) (ty : node_type)
  (Q : Node -> ControlFlowGraph -> Prop) :
  P cfg -> (forall n cfg', P cfg' -> Q n cfg') -> wp (add_node text ty) cfg Q.
Proof.
  intros H K. apply wp_add_node. apply K. now apply (proj1 P_kept).
Qed.

Lemma kept_add_edge (cfg : ControlFlowGraph) (s t : Node) (c : option bool)
  (Q : Edge -> ControlFlowGraph -> Prop) :
  P cfg -> (forall e cfg', P cfg' -> Q e cfg') -> wp (add_edge s t c) cfg Q.
Proof.
  intros H K. apply wp_intro. intros e cfg' E. apply K.
  exact (proj2 P_kept cfg s t c e cfg' H E).
Qed.

Lemma kept_computation {A : Type} (m : M A) (cfg : ControlFlowGraph)
  (Q : A -> ControlFlowGraph -> Prop) :
  wp m cfg (fun _ cfg' => P cfg') ->
  (forall a cfg', P cfg' -> Q a cfg') -> wp m cfg Q.
Proof. intros W K. eapply wp_weaken; [exact W|]. auto. Qed.

Lemma kept_flush (cur : Node) (buffer : list str) (cfg : ControlFlowGraph) :
  P cfg -> wp (flush_buffer cur buffer) cfg (fun _ cfg' => P cfg').
Proof.
  intros H. unfold flush_buffer. destruct (nonempty buffer).
  - apply wp_bind. apply kept_add_node; [exact H|]. intros n g Hg.
    apply wp_bind. apply kept_add_edge; [exact Hg|]. intros e g' Hg'.
    apply wp_ret. exact Hg'.
  - apply wp_ret. exact H.
Qed.

Variable rec : Node -> str -> M Node.
Variable lines : list str.
Hypothesis rec_kept :
  forall entry body cfg, P cfg -> wp (rec entry body) cfg (fun _ cfg' => P cfg').

Lemma block_step_kept (st : block_state) (cfg : ControlFlowGraph) :
  P cfg -> wp (block_step rec lines st) cfg (fun _ cfg' => P cfg').
Proof.
  intros H.
  unfold block_step, handle_if, handle_for, handle_while, handle_do,
    handle_continue, handle_break, skip_token.
  repeat
    (cbv beta;
     lazymatch goal with
     | |- wp (ret _) _ _ => apply wp_ret
     | |- wp (bind _ _) _ _ => apply wp_bind
     | |- wp (if ?b then _ else _) _ _ => destruct b
     | |- wp (match ?x with _ => _ end) _ _ => destruct x
     | |- wp (add_node _ _) _ _ =>
         apply kept_add_node; [assumption | intros ? ? ?]
     | |- wp (add_edge _ _ _) _ _ =>
         apply kept_add_edge; [assumption | intros ? ? ?]
     | |- wp (flush_buffer _ _) _ _ =>
         apply kept_computation; [apply kept_flush; assumption | intros ? ? ?]
     | |- wp (rec _ _) _ _ =>
         apply kept_computation; [apply rec_kept; assumption | intros ? ? ?]
     end); assumption.
Qed.

Lemma block_loop_kept (n : nat) :
  forall st cfg, P cfg ->
                 wp (block_loop rec lines n st) cfg (fun _ cfg' => P cfg').
Proof.
  induction n as [|n IH]; intros st cfg H; simpl;
    destruct (length lines <=? st_i st); try (apply wp_ret; exact H).
  - exact I.
  - apply wp_bind. eapply wp_weaken; [apply block_step_kept; exact H|].
    intros st' cfg' H'. now apply IH.
Qed.
End Kept.

Lemma process_code_block_kept (P : ControlFlowGraph -> Prop) (fuel : nat) :
  kept P ->
  forall entry body cfg,
    P cfg -> wp (process_code_block fuel entry body) cfg (fun _ cfg' => P cfg').
Proof.
  intros K. induction fuel as [|fuel IH]; intros entry body cfg H.
  - exact I.
  - rewrite process_code_block_eq.
    destruct (negb (nonempty (strip body))); [apply wp_ret; exact H|].
    destruct (split_into_statements body) as [lines|]; [|exact I].
    apply wp_bind.
    eapply wp_weaken; [apply (block_loop_kept P K _ lines IH); exact H|].
    intros st cfg' H'. now apply kept_flush.
Qed.

Lemma parse_cpp_code_kept (P : ControlFlowGraph -> Prop) (fuel : nat)
  (code : str) (cfg : ControlFlowGraph) :
  kept P -> P new_cfg -> parse_cpp_code fuel code = Some cfg -> P cfg.
Proof.
  intros K H0 E. unfold parse_cpp_code in E.
  match type of E with
  | match ?m new_cfg with _ => _ end = _ =>
      assert (wp m new_cfg (fun _ cfg' => P cfg')) as W
  end.
  { apply wp_bind. apply (kept_add_node P K); [exact H0|]. intros n g Hg.
    destruct (re_search re_function (remove_comments code))
      as [[[pre segs] body]|]; [|apply wp_ret; exact Hg].
    apply wp_bind. apply (kept_add_node P K); [exact Hg|]. intros n1 g1 Hg1.
    apply wp_bind. apply (kept_add_edge P K); [exact Hg1|]. intros e g2 Hg2.
    apply wp_bind.
    eapply wp_weaken; [apply (process_code_block_kept P fuel K); exact Hg2|].
    intros last g3 Hg3. cbv beta.
    apply wp_bind. apply (kept_add_node P K); [exact Hg3|]. intros n4 g4 Hg4.
    apply wp_bind. apply (kept_add_edge P K); [exact Hg4|]. intros e5 g5 Hg5.
    apply wp_ret. exact Hg5. }
  unfold wp in W.
  match type of E with
  | match ?m with _ => _ end = _ => destruct m as [[u g]|]
  end; [|discriminate].
  injection E as <-. exact W.
Qed.

Lemma numbered_kept : kept numbered.
Proof.
  split.
  - intros cfg text ty H. unfold numbered in *. simpl.
    rewrite map_app, H, seq_app. reflexivity.
  - intros cfg s t c e cfg' H E.
    destruct (add_edge_total s t c cfg) as (e' & es & E' & _).
    rewrite E' in E. injection E as _ <-. exact H.
Qed.

Lemma distinct_pairs_kept : kept distinct_pairs.
Proof.
  split.
  - intros cfg text ty H. exact H.
  - intros cfg s t c e cfg' H E. unfold distinct_pairs in *.
    destruct (add_edge_total s t c cfg) as (e' & es & E' & K).
    rewrite E' in E. injection E as _ <-. simpl. rewrite K.
    pose proof (find_edge_seen (edges cfg) (id s) (id t) c) as S.
    destruct (find_edge (edges cfg) (id s) (id t) c).
    + now rewrite app_nil_r.
    + apply NoDup_app; auto.
      * repeat constructor. intros [].
      * intros k I [<-|[]]. apply seen_iff in I. apply S in I. congruence.
Qed.

(** X1.  In every graph that [parse_cpp_code] returns, the nodes carry the
    ids 0, 1, 2, ... in the order of their creation: the node at position
    [k] has id [k], no two nodes share an id, and [next_id] is the number of
    nodes. *)
Theorem ids_follow_creation_order (fuel : nat) (code : str)
  (cfg : ControlFlowGraph) :
  parse_cpp_code fuel code = Some cfg ->
  map id (nodes cfg) = seq 0 (next_id cfg)
  /\ next_id cfg = length (nodes cfg)
  /\ NoDup (map id (nodes cfg))
  /\ forall k n, nth_error (nodes cfg) k = Some n -> id n = k.
Proof.
  intros E.
  assert (numbered cfg) as N.
  { apply (parse_cpp_code_kept numbered fuel code cfg numbered_kept);
      [reflexivity | exact E]. }
  unfold numbered in N. split; [exact N|]. split; [|split].
  - rewrite <- (length_map id), N, length_seq. reflexivity.
  - rewrite N. apply seq_NoDup.
  - intros k n H. apply (map_nth_error id) in H. rewrite N in H.
    assert (k < length (seq 0 (next_id cfg))) as L
      by (apply nth_error_Some; congruence).
    rewrite length_seq in L.
    rewrite (nth_error_nth' _ 0) in H by (rewrite length_seq; exact L).
    rewrite seq_nth in H by exact L. injection H as ->. reflexivity.
Qed.

Lemma ids_follow_creation_order_witness :
  exists cfg,
    parse_cpp_code 2 (py "void f() { while (x < 5) { x++; } return; }")
    = Some cfg
    /\ map id (nodes cfg) = seq 0 (next_id cfg)
    /\ next_id cfg = 8.
Proof.
  eexists. split; [vm_compute; reflexivity|]. split; [|reflexivity].
  apply (ids_follow_creation_order 2
           (py "void f() { while (x < 5) { x++; } return; }")).
  vm_compute. reflexivity.
Defined.

(** X2.  In every graph that [parse_cpp_code] returns, no two edges have
    the same ordered (source, target) pair. *)
Theorem returned_edges_have_distinct_pairs (fuel : nat) (code : str)
  (cfg : ControlFlowGraph) :
  parse_cpp_code fuel code = Some cfg -> NoDup (map key (edges cfg)).
Proof.
  intros E.
  apply (parse_cpp_code_kept distinct_pairs fuel code cfg distinct_pairs_kept);
    [constructor | exact E].
Qed.

Lemma returned_edges_have_distinct_pairs_witness :
  exists cfg,
    parse_cpp_code 2 (py "void f() { if (x) { } y = 1; }") = Some cfg
    /\ map key (edges cfg) = [(0, 1); (1, 2); (2, 3); (3, 4); (4, 5)]
    /\ NoDup (map key (edges cfg)).
Proof.
  eexists. split; [vm_compute; reflexivity|]. split; [reflexivity|].
  apply (returned_edges_have_distinct_pairs 2
           (py "void f() { if (x) { } y = 1; }")).
  vm_compute. reflexivity.
Defined.

(** X3.  In every graph that [parse_cpp_code] returns, each edge joins two
    nodes of the graph: its source and its target are ids of stored
    nodes. *)
Theorem edges_join_stored_nodes (fuel : nat) (code : str)
  (cfg : ControlFlowGraph) :
  parse_cpp_code fuel code = Some cfg ->
  forall e, In e (edges cfg) ->
            (exists n, In n (nodes cfg) /\ id n = source e)
            /\ (exists n, In n (nodes cfg) /\ id n = target e).
Proof.
  intros E e I.
  assert (numbered cfg) as N.
  { apply (parse_cpp_code_kept numbered fuel code cfg numbered_kept);
      [reflexivity | exact E]. }
  pose proof (parse_cpp_code_closed fuel code cfg E) as C.
  unfold closed in C. rewrite Forall_forall in C. destruct (C e I) as [Ls Lt].
  assert (forall k, k < next_id cfg -> exists n, In n (nodes cfg) /\ id n = k)
    as Has.
  { intros k L. assert (In k (map id (nodes cfg))) as Ik.
    { rewrite N. apply in_seq. lia. }
    apply in_map_iff in Ik as (n & En & In'). exists n. auto. }
  split; apply Has; assumption.
Qed.

Lemma edges_join_stored_nodes_witness :
  exists cfg,
    parse_cpp_code 2 (py "void f() { do { x++; } while (x < 5); }") = Some cfg
    /\ In (mkEdge 4 2 (Some true)) (edges cfg)
    /\ (exists n, In n (nodes cfg) /\ id n = 4)
    /\ (exists n, In n (nodes cfg) /\ id n = 2).
Proof.
  eexists. split; [vm_compute; reflexivity|].
  split; [simpl; auto 10|].
  refine (edges_join_stored_nodes 2
            (py "void f() { do { x++; } while (x < 5); }") _ _
            (mkEdge 4 2 (Some true)) _).
  - vm_compute. reflexivity.
  - simpl. auto 10.
Defined.

(** X4.  [process_code_block] only appends.  Called on a closed graph with
    an entry node of that graph, it keeps every stored node and edge where
    and as it is and adds nodes and edges after them; every edge it adds
    ends in a node it created and starts from such a node or from the entry
    node; the node it returns is the entry node or a node it created. *)
Theorem process_code_block_only_appends (fuel : nat) (entry : Node)
  (code_block : str) (cfg cfg' : ControlFlowGraph) (exit : Node) :
  closed cfg -> id entry < next_id cfg ->
  process_code_block fuel entry code_block cfg = Some (exit, cfg') ->
  (exists ns, nodes cfg' = nodes cfg ++ ns)
  /\ (exists es,
        edges cfg' = edges cfg ++ es
        /\ forall e, In e es ->
                     next_id cfg <= target e
                     /\ (source e = id entry \/ next_id cfg <= source e))
  /\ closed cfg'
  /\ next_id cfg <= next_id cfg'
  /\ id exit < next_id cfg'
  /\ (id exit = id entry \/ next_id cfg <= id exit).
Proof.
  intros C L E.
  destruct (process_code_block_ok fuel entry code_block cfg exit cfg' C L E)
    as (C' & (Ln & Hn & es & He & Fe) & Lx & X).
  split; [exact Hn|]. split; [|auto].
  exists es. split; [exact He|]. now apply Forall_forall.
Qed.

Lemma process_code_block_only_appends_witness :
  exists exit cfg',
    process_code_block 2 node_a (py "if (x) { y = 1; }")
      (mkCFG [node_a] [] 1) = Some (exit, cfg')
    /\ (exists ns, nodes cfg' = [node_a] ++ ns)
    /\ id exit = 2 /\ next_id cfg' = 5.
Proof.
  do 2 eexists. split; [vm_compute; reflexivity|].
  split; [|split; reflexivity].
  refine (proj1 (process_code_block_only_appends 2 node_a
                   (py "if (x) { y = 1; }") (mkCFG [node_a] [] 1) _ _ _ _ _)).
  - constructor.
  - simpl. lia.
  - vm_compute. reflexivity.
Defined.

(** X5.  When a function is found and the builder returns, the graph
    starts with the START node (id 0) and the signature node (id 1), joined
    by the first edge, and ends with the END node, whose only use is as the
    target of the last edge; no edge enters START and no edge leaves END. *)
Theorem start_and_end_frame_the_graph (fuel : nat) (code pre : str)
  (segs : list str) (body : str) (cfg : ControlFlowGraph) :
  re_search re_function (remove_comments code) = Some (pre, segs, body) ->
  parse_cpp_code fuel code = Some cfg ->
  exists mid es last,
    nodes cfg
    = mkNode 0 (py "START") ty_start
      :: mkNode 1 (concat segs) ty_statement
      :: mid ++ [mkNode (next_id cfg - 1) (py "END") ty_end]
    /\ edges cfg
       = mkEdge 0 1 None :: es ++ [mkEdge last (next_id cfg - 1) None]
    /\ (forall e, In e (edges cfg) -> target e <> 0)
    /\ (forall e, In e (edges cfg) -> source e <> next_id cfg - 1)
    /\ (forall e, In e es -> target e <> next_id cfg - 1).
Proof.
  intros F E.
  rewrite (parse_cpp_code_function fuel code pre segs body F) in E.
  cbv zeta in E.
  set (g0 := mkCFG _ _ 2) in E. set (fn := mkNode 1 _ _) in E.
  set (text := strip (firstn (find_body_end body 0 1) body)) in E.
  assert (closed g0) as C0 by (repeat constructor; simpl; lia).
  unfold bind in E.
  destruct (process_code_block fuel fn text g0) as [[last g]|] eqn:R;
    [|discriminate].
  destruct (process_code_block_ok fuel fn text g0 last g C0)
    as (C & (Ln & (ns & Hn) & es & He & Fe) & L & _);
    [simpl; lia | exact R |].
  unfold add_node in E.
  rewrite add_edge_new in E by (cbn [edges id]; apply closed_no_target; auto).
  injection E as <-. unfold g0, fn in *. cbn [nodes edges next_id id] in *.
  replace (next_id g + 1 - 1) with (next_id g) by lia.
  assert (forall e, In e (edges g) ->
                    source e < next_id g /\ target e < next_id g) as B
    by (apply Forall_forall; exact C).
  rewrite Forall_forall in Fe.
  exists ns, es, (id last). rewrite Hn, He. cbn [app].
  split; [reflexivity|]. split; [reflexivity|].
  assert (forall e, In e es -> In e (edges g)) as Sub.
  { intros e I. rewrite He. apply in_or_app. now right. }
  split; [|split].
  - intros e [<-|I]; [simpl; lia|]. apply in_app_or in I.
    destruct I as [I|[<-|[]]]; [apply Fe in I; lia | simpl; lia].
  - intros e [<-|I]; [simpl; lia|]. apply in_app_or in I.
    destruct I as [I|[<-|[]]]; [apply Sub, B in I; lia | simpl; lia].
  - intros e I. apply Sub, B in I. lia.
Qed.

Lemma start_and_end_frame_the_graph_witness :
  exists cfg mid es last,
    parse_cpp_code 1 (py "int main() { x = 1; }") = Some cfg
    /\ nodes cfg
       = mkNode 0 (py "START") ty_start
         :: mkNode 1 (py "int main() {") ty_statement
         :: mid ++ [mkNode 3 (py "END") ty_end]
    /\ edges cfg = mkEdge 0 1 None :: es ++ [mkEdge last 3 None].
Proof.
  destruct (start_and_end_frame_the_graph 1 (py "int main() { x = 1; }") []
              [py "int"; py " "; py "main"; py ""; py "("; py ""; py ")";
               py " "; py "{"] (py " x = 1; }")
              (mkCFG [mkNode 0 (py "START") ty_start;
                      mkNode 1 (py "int main() {") ty_statement;
                      mkNode 2 (py "x = 1;") ty_statement;
                      mkNode 3 (py "END") ty_end]
                 [mkEdge 0 1 None; mkEdge 1 2 None; mkEdge 2 3 None] 4))
    as (mid & es & last & Hn & He & _).
  - vm_compute. reflexivity.
  - vm_compute. reflexivity.
  - do 4 eexists. split; [vm_compute; reflexivity|].
    split; [exact Hn | exact He].
Defined.

(** X6.  A block whose tokens are all plain statements becomes one statement
    node: its content is the tokens joined by newlines, in order, it is
    wired from the entry node, and it is the node returned. *)
Theorem simple_statements_share_one_node (fuel : nat) (entry : Node)
  (code_block : str) (lines : list str) (cfg : ControlFlowGraph) :
  closed cfg -> strip code_block <> [] ->
  split_into_statements code_block = Some lines -> lines <> [] ->
  Forall (fun l => is_plain (strip l) = true) lines ->
  let stmt :=
    mkNode (next_id cfg) (join nl (map strip lines)) ty_statement in
  process_code_block (S fuel) entry code_block cfg
  = Some (stmt,
          mkCFG (nodes cfg ++ [stmt])
            (edges cfg ++ [mkEdge (id entry) (next_id cfg) None])
            (next_id cfg + 1)).
Proof.
  intros C NE T NL F. now rewrite (plain_block fuel entry code_block lines).
Qed.

Lemma simple_statements_share_one_node_witness :
  process_code_block 1 node_a (py "x = 1; y = x + 2; return y;")
    (mkCFG [node_a] [] 1)
  = Some (mkNode 1 (py "x = 1;
y = x + 2;
return y;") ty_statement,
          mkCFG [node_a; mkNode 1 (py "x = 1;
y = x + 2;
return y;") ty_statement] [mkEdge 0 1 None] 2).
Proof.
  apply (simple_statements_share_one_node 0 node_a
           (py "x = 1; y = x + 2; return y;")
           [py "x = 1;"; py "y = x + 2;"; py "return y;"]
           (mkCFG [node_a] [] 1)).
  - constructor.
  - vm_compute. discriminate.
  - vm_compute. reflexivity.
  - discriminate.
  - repeat constructor.
Defined.

Lemma find_body_end_unclosed (body : str) :
  ~ In "}"%char body -> forall i d, find_body_end body i d = 0.
Proof.
  induction body as [|c body IH]; intros N i d; [reflexivity|].
  simpl. destruct (Ascii.eqb_spec c "{"%char).
  - apply IH. intros I. apply N. now right.
  - destruct (Ascii.eqb_spec c "}"%char).
    + exfalso. apply N. left. auto.
    + apply IH. intros I. apply N. now right.
Qed.

(** X7.  When the text after the function signature holds no closing brace,
    the function body is taken to be empty: the graph is START, the
    signature node and END, chained by two edges. *)
Theorem unclosed_function_has_empty_body (fuel : nat) (code pre : str)
  (segs : list str) (body : str) :
  re_search re_function (remove_comments code) = Some (pre, segs, body) ->
  ~ In "}"%char body ->
  parse_cpp_code (S fuel) code
  = Some (mkCFG [mkNode 0 (py "START") ty_start;
                 mkNode 1 (concat segs) ty_statement;
                 mkNode 2 (py "END") ty_end]
            [mkEdge 0 1 None; mkEdge 1 2 None] 3).
Proof.
  intros F N. rewrite (parse_cpp_code_function _ code pre segs body F).
  rewrite find_body_end_unclosed by exact N. reflexivity.
Qed.

Lemma unclosed_function_has_empty_body_witness :
  parse_cpp_code 1 (py "int main() { x = 1; if (x) { y = 2;")
  = Some (mkCFG [mkNode 0 (py "START") ty_start;
                 mkNode 1 (py "int main() {") ty_statement;
                 mkNode 2 (py "END") ty_end]
            [mkEdge 0 1 None; mkEdge 1 2 None] 3).
Proof.
  apply (unclosed_function_has_empty_body 0
           (py "int main() { x = 1; if (x) { y = 2;") []
           [py "int"; py " "; py "main"; py ""; py "("; py ""; py ")";
            py " "; py "{"] (py " x = 1; if (x) { y = 2;")).
  - vm_compute. reflexivity.
  - vm_compute. intuition discriminate.
Defined.

(** X8.  A header token on which its pattern does not match is skipped:
    the statement buffer is flushed, the index moves to the next token, and
    no condition, merge or entry node is created, so the tokens of its body
    are then met as tokens of the enclosing block. *)
Theorem unmatched_header_is_skipped (rec : Node -> str -> M Node)
  (lines : list str) (st : block_state) (cfg : ControlFlowGraph) :
  let line := strip (line_at lines (st_i st)) in
  (startswith (py "if") line = true /\ search_group re_if 4 line = None)
  \/ (startswith (py "for") line = true /\ re_search re_for line = None)
  \/ (startswith (py "while") line = true
      /\ startswith (py "while(") line = false
      /\ search_group re_while 7 line = None) ->
  closed cfg ->
  block_step rec lines st cfg
  = Some (mkState (st_i st + 1)
            (fst (flushed cfg (current_node st) (statement_buffer st))) []
            (loop_stack st),
          snd (flushed cfg (current_node st) (statement_buffer st))).
Proof.
  intros line H C.
  destruct H as [[H1 H2]|[[H1 H2]|(H1 & H2 & H3)]].
  - rewrite (block_step_if rec lines st H1). fold line. unfold handle_if.
    rewrite bind_flush by auto. now rewrite H2.
  - rewrite (block_step_for rec lines st H1). fold line. unfold handle_for.
    rewrite bind_flush by auto. now rewrite H2.
  - rewrite (block_step_while rec lines st H1 H2). fold line.
    unfold handle_while. rewrite bind_flush by auto. now rewrite H3.
Qed.

Lemma unmatched_header_is_skipped_witness :
  block_step (process_code_block 1)
    [py "y = 0;"; py "for (i = 0; i < n)"; py "{"; py "x = 1;"; py "}"]
    (mkState 1 node_a [py "y = 0;"] []) (mkCFG [node_a] [] 1)
  = Some (mkState 2 (mkNode 1 (py "y = 0;") ty_statement) [] [],
          mkCFG [node_a; mkNode 1 (py "y = 0;") ty_statement]
            [mkEdge 0 1 None] 2).
Proof.
  apply (unmatched_header_is_skipped (process_code_block 1)
           [py "y = 0;"; py "for (i = 0; i < n)"; py "{"; py "x = 1;"; py "}"]
           (mkState 1 node_a [py "y = 0;"] []) (mkCFG [node_a] [] 1)).
  - right. left. split; vm_compute; reflexivity.
  - constructor.
Defined.

(** ** The [if] branch of the builder *)

(** No stored edge has the pair of the requested one: each stored edge is
    given, or comes from a list whose edges a hypothesis bounds. *)
Ltac fresh_in :=
  let e := fresh "e" in
  let I := fresh "I" in
  let K := fresh "K" in
  intros e I K; cbn [edges] in I;
  rewrite ?in_app_iff in I; cbn [In] in I;
  unfold key in K; injection K as ? ?;
  repeat match goal with
         | H : _ \/ _ |- _ => destruct H
         | H : False |- _ => destruct H
         end;
  try (subst e; cbn [source target id] in *; lia);
  match goal with
  | H : In e ?l, F : forall x, In x ?l -> _ |- _ =>
      apply F in H; cbn [id] in *; lia
  end.

(** The step of the builder on an [if] header on which the pattern matches,
    for every combination of empty and non-empty branches. *)
Lemma if_step_shape (fuel : nat) (lines : list str) (st : block_state)
  (cfg : ControlFlowGraph) (g : str) :
  let line := strip (line_at lines (st_i st)) in
  startswith (py "if") line = true ->
  search_group re_if 4 line = Some g ->
  closed cfg -> id (current_node st) < next_id cfg ->
  let '(cur1, cfg1) := flushed cfg (current_node st) (statement_buffer st) in
  let '(if_body, else_body, next_idx) :=
    extract_if_else_blocks lines (st_i st) in
  let n := next_id cfg1 in
  let cond := mkNode n (strip g) ty_condition in
  let merge := mkNode (n + 1) (py "After If-Else (Merge Node)") ty_merge in
  let done := mkState next_idx merge [] (loop_stack st) in
  let cfg2 :=
    mkCFG (nodes cfg1 ++ [cond; merge]) (edges cfg1 ++ [mkEdge (id cur1) n None])
      (n + 2) in
  let if_entry := mkNode (n + 2) (py "If Branch Entry") ty_statement in
  let cfg3 :=
    mkCFG (nodes cfg2 ++ [if_entry])
      (edges cfg2 ++ [mkEdge n (n + 2) (Some true)]) (n + 3) in
  (if_body = [] -> else_body = [] ->
   block_step (process_code_block fuel) lines st cfg
   = Some (done,
           mkCFG (nodes cfg2) (edges cfg2 ++ [mkEdge n (n + 1) (Some true)])
             (n + 2)))
  /\ (if_body <> [] -> else_body = [] ->
      forall exit cfg4,
        process_code_block fuel if_entry if_body cfg3 = Some (exit, cfg4) ->
        block_step (process_code_block fuel) lines st cfg
        = Some (done,
                mkCFG (nodes cfg4)
                  (edges cfg4 ++ [mkEdge (id exit) (n + 1) None;
                                  mkEdge n (n + 1) (Some false)])
                  (next_id cfg4)))
  /\ (if_body = [] -> else_body <> [] ->
      let else_entry := mkNode (n + 2) (py "Else Branch Entry") ty_statement in
      let cfg3' :=
        mkCFG (nodes cfg2 ++ [else_entry])
          (edges cfg2 ++ [mkEdge n (n + 1) (Some true);
                          mkEdge n (n + 2) (Some false)]) (n + 3) in
      forall exit cfg4,
        process_code_block fuel else_entry else_body cfg3' = Some (exit, cfg4) ->
        block_step (process_code_block fuel) lines st cfg
        = Some (done,
                mkCFG (nodes cfg4) (edges cfg4 ++ [mkEdge (id exit) (n + 1) None])
                  (next_id cfg4)))
  /\ (if_body <> [] -> else_body <> [] ->
      forall exit cfg4,
        process_code_block fuel if_entry if_body cfg3 = Some (exit, cfg4) ->
        let else_entry :=
          mkNode (next_id cfg4) (py "Else Branch Entry") ty_statement in
        let cfg5 :=
          mkCFG (nodes cfg4 ++ [else_entry])
            (edges cfg4 ++ [mkEdge (id exit) (n + 1) None;
                            mkEdge n (next_id cfg4) (Some false)])
            (next_id cfg4 + 1) in
        forall exit' cfg6,
          process_code_block fuel else_entry else_body cfg5
          = Some (exit', cfg6) ->
          block_step (process_code_block fuel) lines st cfg
          = Some (done,
                  mkCFG (nodes cfg6)
                    (edges cfg6 ++ [mkEdge (id exit') (n + 1) None])
                    (next_id cfg6))
          /\ (exists ns es, nodes cfg4 = nodes cfg3 ++ ns
                            /\ edges cfg4 = edges cfg3 ++ es
                            /\ Forall (fun e => n + 3 <= target e
                                                /\ n + 2 <= source e) es)
          /\ (exists ns es, nodes cfg6 = nodes cfg5 ++ ns
                            /\ edges cfg6 = edges cfg5 ++ es
                            /\ Forall (fun e => next_id cfg4 + 1 <= target e
                                                /\ next_id cfg4 <= source e)
                                 es)).
Proof.
  intros line H1 Hre C L.
  pose proof (closed_flushed cfg (current_node st) (statement_buffer st) C L)
    as (C1 & L1 & _).
  rewrite (block_step_if _ lines st H1). fold line.
  unfold handle_if. rewrite bind_flush by auto.
  destruct (flushed cfg (current_node st) (statement_buffer st))
    as [cur1 cfg1]. simpl in C1, L1. cbn [fst snd].
  rewrite Hre.
  destruct (extract_if_else_blocks lines (st_i st))
    as [[if_body else_body] next_idx].
  rewrite bind_add_node. norm_graph.
  rewrite bind_add_edge by fresh_pair C1. norm_graph.
  rewrite bind_add_node. norm_graph.
  assert (forall (l : str), l <> [] -> exists c l', l = c :: l') as Cons.
  { intros [|c l'] N; [congruence|]. eauto. }
  assert (forall e, In e (edges cfg1) ->
                    source e < next_id cfg1 /\ target e < next_id cfg1) as B1
    by (apply Forall_forall; exact C1).
  split; [|split; [|split]].
  - intros -> ->. cbn [nonempty].
    rewrite bind_assoc, bind_add_edge by fresh_pair C1. norm_graph.
    rewrite bind_ret, bind_assoc.
    unfold bind.
    rewrite (add_edge_old _ _ (Some false) _
               (edges cfg1 ++ [mkEdge (id cur1) (next_id cfg1) None]) []
               (mkEdge (next_id cfg1) (next_id cfg1 + 1) (Some true)));
      [ cbn [upgrade condition nodes next_id]; now rewrite <- app_assoc
      | cbn [edges]; now rewrite <- app_assoc
      | fresh_pair C1 | reflexivity].
  - intros N ->. destruct (Cons _ N) as (c & b & ->). cbn [nonempty].
    intros exit cfg4 R.
    rewrite bind_assoc, bind_add_node. norm_graph.
    rewrite bind_assoc, bind_add_edge by fresh_pair C1. norm_graph.
    match type of R with
    | process_code_block _ ?entry ?body ?cfg3 = _ =>
        destruct (process_code_block_ok fuel entry body cfg3 exit cfg4)
          as (C4 & (_ & Hn & es & He & Fe) & Lx & X);
        [closed_graph C1 | cbn [id next_id]; lia | exact R |]
    end.
    cbn [id next_id nodes edges] in *. rewrite Forall_forall in Fe.
    rewrite bind_assoc. unfold bind at 1. rewrite R.
    rewrite bind_assoc, bind_add_edge by (rewrite He; fresh_in).
    norm_graph.
    rewrite bind_ret, bind_assoc, bind_add_edge
      by (cbn [edges]; rewrite He; fresh_in).
    norm_graph. reflexivity.
  - intros -> N. destruct (Cons _ N) as (c & b & ->). cbn [nonempty].
    intros exit cfg4 R.
    rewrite bind_assoc, bind_add_edge by fresh_pair C1. norm_graph.
    rewrite bind_ret, bind_assoc, bind_add_node. norm_graph.
    rewrite bind_assoc, bind_add_edge by fresh_pair C1. norm_graph.
    match type of R with
    | process_code_block _ ?entry ?body ?cfg3 = _ =>
        destruct (process_code_block_ok fuel entry body cfg3 exit cfg4)
          as (C4 & (_ & Hn & es & He & Fe) & Lx & X);
        [closed_graph C1 | cbn [id next_id]; lia | exact R |]
    end.
    cbn [id next_id nodes edges] in *. rewrite Forall_forall in Fe.
    rewrite bind_assoc. unfold bind at 1. rewrite R.
    rewrite bind_assoc, bind_add_edge by (rewrite He; fresh_in).
    reflexivity.
  - intros N N'. destruct (Cons _ N) as (c & b & ->).
    destruct (Cons _ N') as (c' & b' & ->). cbn [nonempty].
    intros exit cfg4 R exit' cfg6 R'.
    rewrite bind_assoc, bind_add_node. norm_graph.
    rewrite bind_assoc, bind_add_edge by fresh_pair C1. norm_graph.
    match type of R with
    | process_code_block _ ?entry ?body ?cfg3 = _ =>
        destruct (process_code_block_ok fuel entry body cfg3 exit cfg4)
          as (C4 & (Ln4 & Hn & es & He & Fe) & Lx & X);
        [closed_graph C1 | cbn [id next_id]; lia | exact R |]
    end.
    cbn [id next_id nodes edges] in *.
    assert (forall e, In e (edges cfg4) ->
                      source e < next_id cfg4 /\ target e < next_id cfg4) as B4
      by (apply Forall_forall; exact C4).
    match type of R' with
    | process_code_block _ ?entry ?body ?cfg5 = _ =>
        destruct (process_code_block_ok fuel entry body cfg5 exit' cfg6)
          as (C6 & (Ln6 & Hn' & es' & He' & Fe') & Lx' & X');
        [closed_graph C4 | cbn [id next_id]; lia | exact R' |]
    end.
    cbn [id next_id nodes edges] in *.
    rewrite bind_assoc. unfold bind at 1. rewrite R.
    pose proof Fe as Fa. pose proof Fe' as Fa'.
    rewrite Forall_forall in Fa, Fa'.
    rewrite bind_assoc, bind_add_edge by (rewrite He; fresh_in).
    norm_graph. rewrite bind_ret, bind_assoc, bind_add_node. norm_graph.
    rewrite bind_assoc, bind_add_edge by fresh_pair C4. norm_graph.
    rewrite bind_assoc. unfold bind at 1. rewrite R'.
    rewrite bind_assoc, bind_add_edge by (rewrite He'; fresh_in).
    split; [reflexivity|]. split.
    + destruct Hn as [ns Hn]. exists ns, es. repeat split; auto.
      eapply Forall_impl; [|exact Fe]. cbn beta. intros e [? ?]. lia.
    + destruct Hn' as [ns' Hn']. exists ns', es'. repeat split; auto.
      eapply Forall_impl; [|exact Fe']. cbn beta. intros e [? ?]. lia.
Qed.

(** X9.  An [if] with an empty body and no [else] gets one edge from its
    condition node to its merge node, labelled true: the false-edge that
    the builder requests next names the same pair and is absorbed, so the
    condition node has no false-edge. *)
Theorem empty_if_keeps_one_edge (fuel : nat) (lines : list str)
  (st : block_state) (cfg : ControlFlowGraph) (g : str) (next_idx : nat) :
  let line := strip (line_at lines (st_i st)) in
  startswith (py "if") line = true ->
  search_group re_if 4 line = Some g ->
  extract_if_else_blocks lines (st_i st) = ([], [], next_idx) ->
  closed cfg -> id (current_node st) < next_id cfg ->
  let '(cur1, cfg1) := flushed cfg (current_node st) (statement_buffer st) in
  let n := next_id cfg1 in
  let cond := mkNode n (strip g) ty_condition in
  let merge := mkNode (n + 1) (py "After If-Else (Merge Node)") ty_merge in
  let cfg' :=
    mkCFG (nodes cfg1 ++ [cond; merge])
      (edges cfg1 ++ [mkEdge (id cur1) n None; mkEdge n (n + 1) (Some true)])
      (n + 2) in
  block_step (process_code_block fuel) lines st cfg
  = Some (mkState next_idx merge [] (loop_stack st), cfg')
  /\ forall e, In e (edges cfg') -> source e = n ->
               e = mkEdge n (n + 1) (Some true).
Proof.
  intros line H1 Hre Hx C L.
  pose proof (if_step_shape fuel lines st cfg g H1 Hre C L) as S.
  pose proof (closed_flushed cfg (current_node st) (statement_buffer st) C L)
    as (C1 & L1 & _).
  destruct (flushed cfg (current_node st) (statement_buffer st)) as [cur1 cfg1].
  rewrite Hx in S. destruct S as (S & _). cbn [fst snd] in C1, L1.
  split.
  - rewrite (S eq_refl eq_refl). cbn [nodes edges].
    now rewrite <- app_assoc.
  - intros e I E. cbn [edges] in I. apply in_app_or in I.
    destruct I as [I|[<-|[<-|[]]]].
    + unfold closed in C1. rewrite Forall_forall in C1. apply C1 in I. lia.
    + cbn [source] in E. lia.
    + reflexivity.
Qed.

Lemma empty_if_keeps_one_edge_witness :
  block_step (process_code_block 1) [py "if (x > 0)"; py "{"; py "}"]
    (mkState 0 node_a [] []) (mkCFG [node_a] [] 1)
  = Some (mkState 3 (mkNode 2 (py "After If-Else (Merge Node)") ty_merge)
            [] [],
          mkCFG [node_a; mkNode 1 (py "x > 0") ty_condition;
                 mkNode 2 (py "After If-Else (Merge Node)") ty_merge]
            [mkEdge 0 1 None; mkEdge 1 2 (Some true)] 3).
Proof.
  refine (proj1 (empty_if_keeps_one_edge 1 [py "if (x > 0)"; py "{"; py "}"]
                   (mkState 0 node_a [] []) (mkCFG [node_a] [] 1)
                   (py "x > 0") 3 _ _ _ _ _)).
  - reflexivity.
  - vm_compute. reflexivity.
  - vm_compute. reflexivity.
  - constructor.
  - simpl. lia.
Defined.

(** X10.  An [if] with a body and no [else]: the condition node has a
    true-edge to the entry node of the branch and, added after everything
    the branch adds, a false-edge to the merge node, which the exit of the
    branch also reaches. *)
Theorem if_without_else_shape (fuel : nat) (lines : list str)
  (st : block_state) (cfg : ControlFlowGraph) (g if_body : str)
  (next_idx : nat) :
  let line := strip (line_at lines (st_i st)) in
  startswith (py "if") line = true ->
  search_group re_if 4 line = Some g ->
  extract_if_else_blocks lines (st_i st) = (if_body, [], next_idx) ->
  if_body <> [] ->
  closed cfg -> id (current_node st) < next_id cfg ->
  let '(cur1, cfg1) := flushed cfg (current_node st) (statement_buffer st) in
  let n := next_id cfg1 in
  let cond := mkNode n (strip g) ty_condition in
  let merge := mkNode (n + 1) (py "After If-Else (Merge Node)") ty_merge in
  let entry := mkNode (n + 2) (py "If Branch Entry") ty_statement in
  let cfg3 :=
    mkCFG (nodes cfg1 ++ [cond; merge; entry])
      (edges cfg1 ++ [mkEdge (id cur1) n None; mkEdge n (n + 2) (Some true)])
      (n + 3) in
  forall exit cfg4,
    process_code_block fuel entry if_body cfg3 = Some (exit, cfg4) ->
    block_step (process_code_block fuel) lines st cfg
    = Some (mkState next_idx merge [] (loop_stack st),
            mkCFG (nodes cfg4)
              (edges cfg4 ++ [mkEdge (id exit) (n + 1) None;
                              mkEdge n (n + 1) (Some false)])
              (next_id cfg4)).
Proof.
  intros line H1 Hre Hx N C L.
  pose proof (if_step_shape fuel lines st cfg g H1 Hre C L) as S.
  destruct (flushed cfg (current_node st) (statement_buffer st)) as [cur1 cfg1].
  rewrite Hx in S. destruct S as (_ & S & _).
  cbv zeta. intros exit cfg4 R.
  revert S. cbn [nodes edges]. rewrite <- !app_assoc. cbn [app]. intros S.
  exact (S N eq_refl exit cfg4 R).
Qed.

Lemma if_without_else_shape_witness :
  block_step (process_code_block 1)
    [py "if (x > 0)"; py "{"; py "y = 1;"; py "}"]
    (mkState 0 node_a [] []) (mkCFG [node_a] [] 1)
  = Some (mkState 4 (mkNode 2 (py "After If-Else (Merge Node)") ty_merge)
            [] [],
          mkCFG [node_a; mkNode 1 (py "x > 0") ty_condition;
                 mkNode 2 (py "After If-Else (Merge Node)") ty_merge;
                 mkNode 3 (py "If Branch Entry") ty_statement;
                 mkNode 4 (py "y = 1;") ty_statement]
            [mkEdge 0 1 None; mkEdge 1 3 (Some true); mkEdge 3 4 None;
             mkEdge 4 2 None; mkEdge 1 2 (Some false)] 5).
Proof.
  refine (if_without_else_shape 1
            [py "if (x > 0)"; py "{"; py "y = 1;"; py "}"]
            (mkState 0 node_a [] []) (mkCFG [node_a] [] 1)
            (py "x > 0") (py "y = 1;") 4 _ _ _ _ _ _
            (mkNode 4 (py "y = 1;") ty_statement)
            (mkCFG [node_a; mkNode 1 (py "x > 0") ty_condition;
                    mkNode 2 (py "After If-Else (Merge Node)") ty_merge;
                    mkNode 3 (py "If Branch Entry") ty_statement;
                    mkNode 4 (py "y = 1;") ty_statement]
               [mkEdge 0 1 None; mkEdge 1 3 (Some true); mkEdge 3 4 None] 5)
            _).
  - reflexivity.
  - vm_compute. reflexivity.
  - vm_compute. reflexivity.
  - discriminate.
  - constructor.
  - simpl. lia.
  - vm_compute. reflexivity.
Defined.

(** X11.  An [if] with a body and an [else] with a body: the branches are
    built one after the other, the exit of each is wired to the one merge
    node, the condition node has a true-edge to the entry of the first and
    a false-edge to the entry of the second, and nothing that either branch
    adds touches the condition node or the merge node. *)
Theorem if_else_general_shape (fuel : nat) (lines : list str)
  (st : block_state) (cfg : ControlFlowGraph) (g if_body else_body : str)
  (next_idx : nat) :
  let line := strip (line_at lines (st_i st)) in
  startswith (py "if") line = true ->
  search_group re_if 4 line = Some g ->
  extract_if_else_blocks lines (st_i st) = (if_body, else_body, next_idx) ->
  if_body <> [] -> else_body <> [] ->
  closed cfg -> id (current_node st) < next_id cfg ->
  let '(cur1, cfg1) := flushed cfg (current_node st) (statement_buffer st) in
  let n := next_id cfg1 in
  let cond := mkNode n (strip g) ty_condition in
  let merge := mkNode (n + 1) (py "After If-Else (Merge Node)") ty_merge in
  let if_entry := mkNode (n + 2) (py "If Branch Entry") ty_statement in
  let cfg3 :=
    mkCFG (nodes cfg1 ++ [cond; merge; if_entry])
      (edges cfg1 ++ [mkEdge (id cur1) n None; mkEdge n (n + 2) (Some true)])
      (n + 3) in
  forall exit cfg4,
    process_code_block fuel if_entry if_body cfg3 = Some (exit, cfg4) ->
    let else_entry :=
      mkNode (next_id cfg4) (py "Else Branch Entry") ty_statement in
    let cfg5 :=
      mkCFG (nodes cfg4 ++ [else_entry])
        (edges cfg4 ++ [mkEdge (id exit) (n + 1) None;
                        mkEdge n (next_id cfg4) (Some false)])
        (next_id cfg4 + 1) in
    forall exit' cfg6,
      process_code_block fuel else_entry else_body cfg5 = Some (exit', cfg6) ->
      block_step (process_code_block fuel) lines st cfg
      = Some (mkState next_idx merge [] (loop_stack st),
              mkCFG (nodes cfg6) (edges cfg6 ++ [mkEdge (id exit') (n + 1) None])
                (next_id cfg6))
      /\ (exists es, edges cfg4 = edges cfg3 ++ es
                     /\ Forall (fun e => n + 3 <= target e /\ n + 2 <= source e)
                          es)
      /\ (exists es, edges cfg6 = edges cfg5 ++ es
                     /\ Forall (fun e => next_id cfg4 + 1 <= target e
                                         /\ next_id cfg4 <= source e) es).
Proof.
  intros line H1 Hre Hx N N' C L.
  pose proof (if_step_shape fuel lines st cfg g H1 Hre C L) as S.
  destruct (flushed cfg (current_node st) (statement_buffer st)) as [cur1 cfg1].
  rewrite Hx in S. destruct S as (_ & _ & _ & S).
  cbv zeta. intros exit cfg4 R exit' cfg6 R'.
  revert S. cbn [nodes edges]. rewrite <- !app_assoc. cbn [app]. intros S.
  destruct (S N N' exit cfg4 R exit' cfg6 R')
    as (E & (ns & es & _ & He & Fe) & (ns' & es' & _ & He' & Fe')).
  split; [exact E|]. split; [exists es | exists es']; auto.
Qed.

Lemma if_else_general_shape_witness :
  block_step (process_code_block 1)
    [py "if (a)"; py "{"; py "b;"; py "}"; py "else"; py "{"; py "c;"; py "}"]
    (mkState 0 node_a [] []) (mkCFG [node_a] [] 1)
  = Some (mkState 8 (mkNode 2 (py "After If-Else (Merge Node)") ty_merge)
            [] [],
          mkCFG [node_a; mkNode 1 (py "a") ty_condition;
                 mkNode 2 (py "After If-Else (Merge Node)") ty_merge;
                 mkNode 3 (py "If Branch Entry") ty_statement;
                 mkNode 4 (py "b;") ty_statement;
                 mkNode 5 (py "Else Branch Entry") ty_statement;
                 mkNode 6 (py "c;") ty_statement]
            [mkEdge 0 1 None; mkEdge 1 3 (Some true); mkEdge 3 4 None;
             mkEdge 4 2 None; mkEdge 1 5 (Some false); mkEdge 5 6 None;
             mkEdge 6 2 None] 7).
Proof.
  refine (proj1 (if_else_general_shape 1
            [py "if (a)"; py "{"; py "b;"; py "}"; py "else"; py "{"; py "c;";
             py "}"]
            (mkState 0 node_a [] []) (mkCFG [node_a] [] 1)
            (py "a") (py "b;") (py "c;") 8 _ _ _ _ _ _ _
            (mkNode 4 (py "b;") ty_statement)
            (mkCFG [node_a; mkNode 1 (py "a") ty_condition;
                    mkNode 2 (py "After If-Else (Merge Node)") ty_merge;
                    mkNode 3 (py "If Branch Entry") ty_statement;
                    mkNode 4 (py "b;") ty_statement]
               [mkEdge 0 1 None; mkEdge 1 3 (Some true); mkEdge 3 4 None] 5)
            _
            (mkNode 6 (py "c;") ty_statement)
            (mkCFG [node_a; mkNode 1 (py "a") ty_condition;
                    mkNode 2 (py "After If-Else (Merge Node)") ty_merge;
                    mkNode 3 (py "If Branch Entry") ty_statement;
                    mkNode 4 (py "b;") ty_statement;
                    mkNode 5 (py "Else Branch Entry") ty_statement;
                    mkNode 6 (py "c;") ty_statement]
               [mkEdge 0 1 None; mkEdge 1 3 (Some true); mkEdge 3 4 None;
                mkEdge 4 2 None; mkEdge 1 5 (Some false); mkEdge 5 6 None] 7)
            _)).
  - reflexivity.
  - vm_compute. reflexivity.
  - vm_compute. reflexivity.
  - discriminate.
  - discriminate.
  - constructor.
  - simpl. lia.
  - vm_compute. reflexivity.
  - vm_compute. reflexivity.
Defined.

(** ** When the tokenizer returns *)

Lemma scan_to_paren_found (s : str) :
  (scan_to_paren s <? length s) = existsb (Ascii.eqb "("%char) s.
Proof.
  induction s as [|c s IH]; [reflexivity|].
  cbn [scan_to_paren existsb length]. rewrite (Ascii.eqb_sym "("%char c).
  destruct (Ascii.eqb c "("%char); [reflexivity|]. exact IH.
Qed.

Lemma at_keyword_in_text (kw code : str) (i : nat) :
  0 < length kw ->
  at_keyword kw code i = true -> i + length kw <= length code.
Proof.
  unfold at_keyword. intros P H. apply andb_true_iff in H as [H _].
  apply str_eqb_eq in H. apply (f_equal (@length ascii)) in H.
  unfold slice in H. rewrite length_firstn, length_skipn in H. lia.
Qed.

Lemma header_token_index (k : nat) (code : str) (st : tok_state) :
  tk_i st + k <= length code ->
  (no_paren_from code (tk_i st + k) = true ->
   tk_i (header_token k code st) = tk_i st)
  /\ (no_paren_from code (tk_i st + k) = false ->
      tk_i st < tk_i (header_token k code st)).
Proof.
  intros L. unfold header_token, no_paren_from.
  rewrite <- scan_to_paren_found, length_skipn.
  set (d := scan_to_paren (skipn (tk_i st + k) code)).
  destruct (Nat.ltb_spec d (length code - (tk_i st + k))) as [D|D];
    cbn [negb]; (split; [intros E | intros E]); try discriminate.
  - replace (tk_i st + k + d <? length code) with true
      by (symmetry; apply Nat.ltb_lt; lia).
    cbn [tk_i]. lia.
  - replace (tk_i st + k + d <? length code) with false
      by (symmetry; apply Nat.ltb_ge; lia).
    reflexivity.
Qed.

Lemma split_step_stuck (code : str) (st : tok_state) :
  (stuck_at code (tk_i st) = true -> tk_i (split_step code st) = tk_i st)
  /\ (stuck_at code (tk_i st) = false -> tk_i st < tk_i (split_step code st)).
Proof.
  unfold stuck_at, split_step.
  destruct (at_keyword (py "if") code (tk_i st)) eqn:K1;
    [apply (header_token_index 2);
     apply (at_keyword_in_text (py "if")); [vm_compute; lia | exact K1]|].
  destruct (at_keyword (py "for") code (tk_i st)) eqn:K2;
    [apply (header_token_index 3);
     apply (at_keyword_in_text (py "for")); [vm_compute; lia | exact K2]|].
  destruct (at_keyword (py "while") code (tk_i st)) eqn:K3;
    [apply (header_token_index 5);
     apply (at_keyword_in_text (py "while")); [vm_compute; lia | exact K3]|].
  split; [discriminate|]. intros _.
  unfold keyword_token.
  repeat match goal with
         | |- context [if ?b then _ else _] => destruct b
         end; cbn [tk_i length py list_ascii_of_string]; lia.
Qed.

Lemma split_steps_progress (code : str) (k : nat) (st : tok_state) :
  tk_i st <= tk_i (Nat.iter k (split_step code) st).
Proof.
  induction k as [|k IH]; [apply Nat.le_refl|]. rewrite Nat.iter_succ.
  pose proof (split_step_progress code (Nat.iter k (split_step code) st)).
  lia.
Qed.

Lemma split_loop_from_stuck (code : str) (k : nat) :
  forall st,
    tk_i (Nat.iter k (split_step code) st) < length code ->
    stuck_at code (tk_i (Nat.iter k (split_step code) st)) = true ->
    forall fuel, split_loop fuel code st = None.
Proof.
  induction k as [|k IH]; intros st L K fuel.
  - unfold Nat.iter in *. cbn [nat_rect] in *. apply split_loop_stuck; auto.
    now apply split_step_stuck.
  - pose proof (split_steps_progress code (S k) st) as L0.
    rewrite Nat.iter_succ_r in L, K, L0.
    destruct fuel as [|fuel].
    + simpl. replace (length code <=? tk_i st) with false; auto.
      symmetry. apply Nat.leb_gt. lia.
    + rewrite split_loop_next by lia. now apply IH.
Qed.

Lemma split_loop_to_stuck (code : str) (n : nat) :
  forall st,
    length code <= n + tk_i st ->
    split_loop n code st = None ->
    exists k, tk_i (Nat.iter k (split_step code) st) < length code
              /\ stuck_at code (tk_i (Nat.iter k (split_step code) st)) = true.
Proof.
  induction n as [|n IH]; intros st L H.
  - rewrite split_loop_done in H by lia. discriminate.
  - destruct (Nat.leb_spec (length code) (tk_i st)) as [D|D].
    + rewrite split_loop_done in H by auto. discriminate.
    + rewrite split_loop_next in H by auto.
      destruct (stuck_at code (tk_i st)) eqn:K.
      * exists 0. unfold Nat.iter. cbn [nat_rect]. auto.
      * apply split_step_stuck in K.
        destruct (IH (split_step code st)) as (k & Hk); [lia|auto|].
        exists (S k). now rewrite Nat.iter_succ_r.
Qed.

(** X12.  Termination of the tokenizer: [split_into_statements] fails to
    return exactly when its loop arrives, after some number of iterations,
    at an index inside the text where [if], [for] or [while] is recognised
    and no opening parenthesis follows the keyword. *)
Theorem tokenizer_loops_exactly_when_stuck (code : str) :
  split_into_statements code = None
  <-> exists k, tk_i (tok_after code k) < length code
                /\ stuck_at code (tk_i (tok_after code k)) = true.
Proof.
  unfold tok_after, split_into_statements. split.
  - apply split_loop_to_stuck. cbn [tk_i]. lia.
  - intros (k & L & K). now apply (split_loop_from_stuck code k).
Qed.

(** X13.  A text in which no index is such a keyword without a parenthesis
    is tokenized: the tokenizer returns a list of tokens. *)
Theorem tokenizer_returns_without_stuck_keyword (code : str) :
  (forall i, i < length code -> stuck_at code i = false) ->
  exists lines, split_into_statements code = Some lines.
Proof.
  intros H. destruct (split_into_statements code) as [lines|] eqn:E;
    [now exists lines|].
  apply split_loop_to_stuck in E as (k & L & K); [|cbn [tk_i]; lia].
  rewrite H in K by auto. discriminate.
Qed.

Lemma tokenizer_loops_exactly_when_stuck_witness :
  split_into_statements (py "x = 1; if y;") = None.
Proof.
  apply tokenizer_loops_exactly_when_stuck. exists 7.
  split; [vm_compute; lia | vm_compute; reflexivity].
Defined.

Lemma tokenizer_returns_without_stuck_keyword_witness :
  (forall i, i < length (py "if (a) { b; } else c;") ->
             stuck_at (py "if (a) { b; } else c;") i = false)
  /\ exists lines,
      split_into_statements (py "if (a) { b; } else c;") = Some lines.
Proof.
  assert (forall i, i < length (py "if (a) { b; } else c;") ->
                    stuck_at (py "if (a) { b; } else c;") i = false) as H.
  { intros i L. do 22 (destruct i as [|i]; [vm_compute; reflexivity|]).
    vm_compute in L. lia. }
  split; [exact H|].
  exact (tokenizer_returns_without_stuck_keyword _ H).
Defined.

(** ** Tokens carry no surrounding whitespace *)

Lemma lstrip_hd_ok (s : str) : hd_ok (lstrip s).
Proof.
  induction s as [|c s IH]; cbn [lstrip]; [exact I|].
  destruct (isspace c) eqn:E; [exact IH | exact E].
Qed.

Lemma lstrip_fixed (s : str) : hd_ok s -> lstrip s = s.
Proof. destruct s as [|c s]; cbn [lstrip hd_ok]; [auto|]. now intros ->. Qed.

Lemma lstrip_split (s : str) :
  exists p, s = p ++ lstrip s /\ Forall (fun c => isspace c = true) p.
Proof.
  induction s as [|c s (p & E & F)]; [exists []; auto|].
  cbn [lstrip]. destruct (isspace c) eqn:C.
  - exists (c :: p). cbn [app]. split; [now rewrite <- E | auto].
  - exists []. auto.
Qed.

Lemma hd_ok_prefix (x y : str) : hd_ok (x ++ y) -> x <> [] -> hd_ok x.
Proof. destruct x; [congruence | auto]. Qed.

Lemma strip_ends (s : str) : hd_ok (strip s) /\ hd_ok (rev (strip s)).
Proof.
  unfold strip, rstrip. rewrite rev_involutive.
  split; [|apply lstrip_hd_ok].
  destruct (lstrip_split (rev (lstrip s))) as (p & E & _).
  destruct (lstrip (rev (lstrip s))) as [|c b] eqn:B; [exact I|].
  apply (f_equal (@rev ascii)) in E. rewrite rev_involutive, rev_app_distr in E.
  apply (hd_ok_prefix _ (rev p)).
  - rewrite <- E. apply lstrip_hd_ok.
  - intros N. apply (f_equal (@length ascii)) in N.
    rewrite length_rev in N. discriminate.
Qed.

Lemma strip_fixed (s : str) : hd_ok s -> hd_ok (rev s) -> strip s = s.
Proof.
  intros H1 H2. unfold strip, rstrip.
  rewrite (lstrip_fixed s H1), (lstrip_fixed _ H2). apply rev_involutive.
Qed.

Lemma strip_strip (s : str) : strip (strip s) = strip s.
Proof. apply strip_fixed; apply strip_ends. Qed.

Lemma lstrip_keeps (c : ascii) (s : str) :
  isspace c = false -> In c s -> In c (lstrip s).
Proof.
  intros C. induction s as [|d s IH]; [auto|].
  cbn [lstrip]. destruct (isspace d) eqn:D; [|auto].
  intros [->|H]; [congruence | auto].
Qed.

Lemma strip_keeps (c : ascii) (s : str) :
  isspace c = false -> In c s -> In c (strip s).
Proof.
  intros C H. unfold strip, rstrip. rewrite <- in_rev.
  apply lstrip_keeps; auto. rewrite <- in_rev. now apply lstrip_keeps.
Qed.

Lemma trimmed_strip (c : ascii) (s : str) :
  isspace c = false -> In c s -> trimmed (strip s).
Proof.
  intros C H. split; [|apply strip_strip].
  intros E. apply (strip_keeps c s C) in H. rewrite E in H. destruct H.
Qed.

Lemma flush_current_trimmed (current : str) (lines : list str) :
  Forall trimmed lines -> Forall trimmed (flush_current current lines).
Proof.
  intros H. unfold flush_current.
  destruct (strip current) as [|c t] eqn:E; cbn [nonempty]; [auto|].
  apply Forall_app. split; [auto|]. constructor; [|constructor].
  split; [discriminate|]. rewrite <- E. apply strip_strip.
Qed.

Lemma header_token_trimmed (kw : str) (c : ascii) (code : str)
  (st : tok_state) :
  isspace c = false -> hd_error kw = Some c ->
  at_keyword kw code (tk_i st) = true ->
  Forall trimmed (tk_lines st) ->
  Forall trimmed (tk_lines (header_token (length kw) code st)).
Proof.
  intros C K A H. unfold header_token.
  match goal with |- context [if ?b then _ else _] => destruct b end;
    cbn [tk_lines]; [|now apply flush_current_trimmed].
  apply Forall_app. split; [now apply flush_current_trimmed|].
  constructor; [|constructor]. apply (trimmed_strip c); auto.
  unfold at_keyword in A. apply andb_true_iff in A as [A _].
  apply str_eqb_eq in A. unfold slice in *.
  destruct kw as [|k0 kw]; [discriminate|]. injection K as ->.
  replace (tk_i st + length (c :: kw) - tk_i st) with (S (length kw)) in A
    by (cbn [length]; lia).
  destruct (skipn (tk_i st) code) as [|d rest]; [discriminate|].
  cbn [firstn] in A. injection A as -> _.
  match goal with |- In _ (firstn ?n _) => replace n with (S (pred n)) end.
  - cbn [firstn]. now left.
  - cbn [length]. lia.
Qed.

Lemma split_step_trimmed (code : str) (st : tok_state) :
  Forall trimmed (tk_lines st) ->
  Forall trimmed (tk_lines (split_step code st)).
Proof.
  intros H. unfold split_step.
  destruct (at_keyword (py "if") code (tk_i st)) eqn:K1;
    [now apply (header_token_trimmed (py "if") "i"%char)|].
  destruct (at_keyword (py "for") code (tk_i st)) eqn:K2;
    [now apply (header_token_trimmed (py "for") "f"%char)|].
  destruct (at_keyword (py "while") code (tk_i st)) eqn:K3;
    [now apply (header_token_trimmed (py "while") "w"%char)|].
  assert (forall t, trimmed t ->
            Forall trimmed (flush_current (tk_current st) (tk_lines st) ++ [t]))
    as Emit.
  { intros t T. apply Forall_app. split; [now apply flush_current_trimmed|].
    constructor; [exact T | constructor]. }
  destruct (at_keyword (py "do") code (tk_i st));
    [apply Emit; split; [discriminate | reflexivity]|].
  destruct (at_keyword (py "else") code (tk_i st));
    [apply Emit; split; [discriminate | reflexivity]|].
  destruct (Ascii.eqb (char_at code (tk_i st)) "{"%char) eqn:B1.
  { apply Ascii.eqb_eq in B1. rewrite B1. cbn [orb tk_lines].
    apply Emit. split; [discriminate | reflexivity]. }
  destruct (Ascii.eqb (char_at code (tk_i st)) "}"%char) eqn:B2.
  { apply Ascii.eqb_eq in B2. rewrite B2. cbn [orb tk_lines].
    apply Emit. split; [discriminate | reflexivity]. }
  cbn [orb].
  destruct (Ascii.eqb (char_at code (tk_i st)) ";"%char); cbn [tk_lines];
    [|exact H].
  apply Forall_app. split; [exact H|]. constructor; [|constructor].
  apply (trimmed_strip ";"%char); [reflexivity|].
  apply in_or_app. right. now left.
Qed.

Lemma split_loop_trimmed (code : str) (lines : list str) (n : nat) :
  forall st, Forall trimmed (tk_lines st) ->
             split_loop n code st = Some lines -> Forall trimmed lines.
Proof.
  induction n as [|n IH]; intros st H E;
    destruct (Nat.leb_spec (length code) (tk_i st)) as [D|D].
  - rewrite split_loop_done in E by auto. injection E as <-.
    now apply flush_current_trimmed.
  - simpl in E. apply Nat.leb_gt in D. rewrite D in E. discriminate.
  - rewrite split_loop_done in E by auto. injection E as <-.
    now apply flush_current_trimmed.
  - rewrite split_loop_next in E by auto.
    apply (IH (split_step code st)); [now apply split_step_trimmed | exact E].
Qed.

(** X14.  Every token the tokenizer returns is non-empty and has no
    whitespace at either end: stripping it again changes nothing. *)
Theorem tokens_are_trimmed (code : str) (lines : list str) :
  split_into_statements code = Some lines -> Forall trimmed lines.
Proof.
  apply split_loop_trimmed. constructor.
Qed.

Lemma tokens_are_trimmed_witness :
  split_into_statements (py "  a = 1 ;  while (a) { a-- ; }  ")
  = Some [py "a = 1 ;"; py "while (a)"; py "{"; py "a-- ;"; py "}"]
  /\ Forall trimmed [py "a = 1 ;"; py "while (a)"; py "{"; py "a-- ;"; py "}"].
Proof.
  refine ((fun E => conj E (tokens_are_trimmed _ _ E)) _).
  vm_compute. reflexivity.
Defined.

(** ** Bodies between braces *)

Lemma scan_braces_inner (rest : list str) (body : list str) :
  forall d d', inner_depth body d = Some d' ->
               scan_braces (body ++ rest) (S d)
               = length body + scan_braces rest (S d').
Proof.
  induction body as [|l body IH]; intros d d' H; cbn [inner_depth] in H.
  - injection H as ->. reflexivity.
  - cbn [app scan_braces length].
    destruct (str_eqb (strip l) (py "{")).
    + rewrite (IH _ _ H). reflexivity.
    + destruct (str_eqb (strip l) (py "}")).
      * destruct d as [|d]; [discriminate|]. rewrite (IH _ _ H). reflexivity.
      * rewrite (IH _ _ H). reflexivity.
Qed.

Lemma scan_braces_closed (ls : list str) : scan_braces ls 0 = 0.
Proof. destruct ls; reflexivity. Qed.

Lemma line_at_middle (pre : list str) (l : str) (post : list str) (i : nat) :
  i = length pre -> line_at (pre ++ l :: post) i = l.
Proof. intros ->. unfold line_at. apply nth_middle. Qed.

Lemma skipn_middle (pre : list str) (l : str) (post : list str) (i : nat) :
  i = length pre + 1 -> skipn i (pre ++ l :: post) = post.
Proof.
  intros ->. rewrite skipn_app, skipn_all2 by lia.
  replace (length pre + 1 - length pre) with 1 by lia. reflexivity.
Qed.

Lemma block_at_braced (pre : list str) (o : str) (body : list str) (c : str)
  (post : list str) (i : nat) :
  i = length pre -> strip o = py "{" -> strip c = py "}" -> balanced body ->
  block_at (pre ++ o :: body ++ c :: post) i
  = (join nl body, i + length body + 2).
Proof.
  intros -> O C B. unfold block_at.
  rewrite (line_at_middle pre o _ _ eq_refl), O.
  replace (length pre <? length (pre ++ o :: body ++ c :: post)) with true
    by (symmetry; apply Nat.ltb_lt; rewrite length_app; cbn [length]; lia).
  cbn [andb str_eqb py list_ascii_of_string Ascii.eqb Bool.eqb].
  unfold slice.
  rewrite (skipn_middle pre o _ _ eq_refl), (scan_braces_inner _ _ _ _ B).
  cbn [scan_braces]. rewrite C.
  cbn [str_eqb py list_ascii_of_string Ascii.eqb Bool.eqb andb].
  rewrite scan_braces_closed.
  f_equal; [|lia]. f_equal.
  replace (length pre + 1 + (length body + 1) - 1 - (length pre + 1))
    with (length body + 0) by lia.
  rewrite firstn_app_2. cbn [firstn]. apply app_nil_r.
Qed.

Lemma block_at_unclosed (pre : list str) (o : str) (rest : list str)
  (i : nat) :
  i = length pre -> strip o = py "{" -> unclosed rest ->
  block_at (pre ++ o :: rest) i
  = (join nl (removelast rest), length (pre ++ o :: rest)).
Proof.
  intros -> O (d & B). unfold block_at.
  rewrite (line_at_middle pre o _ _ eq_refl), O.
  replace (length pre <? length (pre ++ o :: rest)) with true
    by (symmetry; apply Nat.ltb_lt; rewrite length_app; cbn [length]; lia).
  cbn [andb str_eqb py list_ascii_of_string Ascii.eqb Bool.eqb].
  unfold slice. rewrite (skipn_middle pre o _ _ eq_refl).
  replace (scan_braces rest 1) with (scan_braces (rest ++ []) 1)
    by now rewrite app_nil_r.
  rewrite (scan_braces_inner _ _ _ _ B).
  cbn [scan_braces]. rewrite length_app. cbn [length].
  f_equal; [|lia]. f_equal.
  rewrite removelast_firstn_len. f_equal. lia.
Qed.

Lemma block_at_single (pre : list str) (l : str) (post : list str) (i : nat) :
  i = length pre -> strip l <> py "{" ->
  block_at (pre ++ l :: post) i = (l, i + 1).
Proof.
  intros -> N. unfold block_at.
  rewrite (line_at_middle pre l _ _ eq_refl).
  apply str_eqb_neq in N. rewrite N.
  replace (length pre <? length (pre ++ l :: post)) with true
    by (symmetry; apply Nat.ltb_lt; rewrite length_app; cbn [length]; lia).
  reflexivity.
Qed.

Lemma after_header (pre : list str) (h : str) (tail : list str) :
  pre ++ h :: tail = (pre ++ [h]) ++ tail.
Proof. now rewrite <- app_assoc. Qed.

(** X15.  Body of a loop between braces: for a header followed by an
    opening brace, tokens whose braces match one another and the closing
    brace, [extract_loop_body] returns those tokens joined by newlines and
    the index just after the closing brace. *)
Theorem loop_body_between_braces (pre : list str) (header o : str)
  (body : list str) (c : str) (post : list str) :
  strip o = py "{" -> strip c = py "}" -> balanced body ->
  extract_loop_body (pre ++ header :: o :: body ++ c :: post) (length pre)
  = (join nl body, length pre + length body + 3).
Proof.
  intros O C B. unfold extract_loop_body. rewrite after_header.
  rewrite (block_at_braced (pre ++ [header]) o body c post _ ) ; auto.
  - f_equal. lia.
  - rewrite length_app. reflexivity.
Qed.

(** X16.  Body of a loop whose brace is never closed: the scan runs to the
    end of the tokens, and the body returned leaves out the last token. *)
Theorem unclosed_loop_body_loses_last_token (pre : list str) (header o : str)
  (rest : list str) :
  strip o = py "{" -> unclosed rest ->
  extract_loop_body (pre ++ header :: o :: rest) (length pre)
  = (join nl (removelast rest), length (pre ++ header :: o :: rest)).
Proof.
  intros O B. unfold extract_loop_body. rewrite after_header.
  apply block_at_unclosed; auto. rewrite length_app. reflexivity.
Qed.

Lemma loop_body_between_braces_witness :
  extract_loop_body
    ([py "x;"] ++ py "while (a)" :: py "{"
       :: [py "if (b)"; py "{"; py "c;"; py "}"; py "d;"] ++ py "}" :: [py "e;"])
    1
  = (join nl [py "if (b)"; py "{"; py "c;"; py "}"; py "d;"], 1 + 5 + 3).
Proof.
  apply (loop_body_between_braces [py "x;"]); vm_compute; reflexivity.
Defined.

Lemma unclosed_loop_body_loses_last_token_witness :
  extract_loop_body ([] ++ py "while (a)" :: py "{" :: [py "b;"; py "c;"]) 0
  = (py "b;", 4).
Proof.
  apply (unclosed_loop_body_loses_last_token [] (py "while (a)") (py "{")
           [py "b;"; py "c;"]).
  - vm_compute. reflexivity.
  - exists 0. vm_compute. reflexivity.
Defined.

(** ** What a match takes *)

Lemma greedy_inv (p : ascii -> bool) (k : str -> option (list str * str))
  (s : str) :
  forall segs' rest,
    greedy p k s = Some (segs', rest) ->
    exists sg segs s',
      segs' = sg :: segs /\ Forall (fun c => p c = true) sg
      /\ s = sg ++ s' /\ k s' = Some (segs, rest).
Proof.
  assert (forall s segs' rest,
             with_seg [] (k s) = Some (segs', rest) ->
             exists sg segs s',
               segs' = sg :: segs /\ Forall (fun c => p c = true) sg
               /\ s = sg ++ s' /\ k s' = Some (segs, rest)) as Stop.
  { intros s0 segs' rest H. destruct (k s0) as [[segs r]|] eqn:K;
      [|discriminate].
    injection H as <- <-. exists [], segs, s0. auto. }
  induction s as [|c s IH]; intros segs' rest H; cbn [greedy] in H;
    [now apply Stop|].
  destruct (p c) eqn:P; [|now apply Stop].
  destruct (greedy p k s) as [[[|sg segs] r]|] eqn:G; cbn [cons_seg or_else] in H;
    try (now apply Stop).
  injection H as <- <-.
  destruct (IH _ _ eq_refl) as (sg' & segs' & s' & E & F & -> & K).
  injection E as <- <-. exists (c :: sg), segs, s'. auto.
Qed.

Lemma lazy_inv (p : ascii -> bool) (k : str -> option (list str * str))
  (s : str) :
  forall segs' rest,
    lazy p k s = Some (segs', rest) ->
    exists sg segs s',
      segs' = sg :: segs /\ Forall (fun c => p c = true) sg
      /\ s = sg ++ s' /\ k s' = Some (segs, rest).
Proof.
  induction s as [|c s IH]; intros segs' rest H; cbn [lazy] in H.
  - destruct (k []) as [[segs r]|] eqn:K; cbn [with_seg] in H; [|discriminate].
    injection H as <- <-. exists [], segs, []. auto.
  - destruct (k (c :: s)) as [[segs r]|] eqn:K; cbn [with_seg] in H.
    + injection H as <- <-. exists [], segs, (c :: s). auto.
    + destruct (p c) eqn:P; [|discriminate].
      destruct (lazy p k s) as [[[|sg segs] r]|] eqn:G; cbn [cons_seg] in H;
        try discriminate.
      injection H as <- <-.
      destruct (IH _ _ eq_refl) as (sg' & segs' & s' & E & F & -> & K').
      injection E as <- <-. exists (c :: sg), segs, s'. auto.
Qed.

Lemma match_here_sound (re : list atom) :
  forall s segs rest,
    match_here re s = Some (segs, rest) ->
    s = concat segs ++ rest /\ Forall2 seg_ok re segs.
Proof.
  induction re as [|a re IH]; intros s segs rest H; cbn [match_here] in H.
  - injection H as <- <-. auto.
  - destruct (qt a) eqn:Q.
    + destruct s as [|c s]; [discriminate|].
      destruct (cls a c) eqn:C; [|discriminate].
      destruct (match_here re s) as [[segs0 r]|] eqn:K; [|discriminate].
      injection H as <- <-. destruct (IH _ _ _ K) as [-> F].
      split; [reflexivity|]. constructor; [|exact F].
      unfold seg_ok. rewrite Q. auto.
    + apply greedy_inv in H as (sg & segs0 & s' & -> & F & -> & K).
      destruct (IH _ _ _ K) as [-> F'].
      split; [cbn [concat]; now rewrite app_assoc|].
      constructor; [|exact F']. unfold seg_ok. rewrite Q. auto.
    + destruct s as [|c s]; [discriminate|].
      destruct (cls a c) eqn:C; [|discriminate].
      destruct (greedy (cls a) (match_here re) s) as [[[|sg0 segs0] r]|] eqn:G;
        try discriminate.
      injection H as <- <-.
      apply greedy_inv in G as (sg & segs1 & s' & E & F & -> & K).
      injection E as <- <-.
      destruct (IH _ _ _ K) as [-> F'].
      split; [cbn [concat app]; now rewrite app_assoc|].
      constructor; [|exact F']. unfold seg_ok. rewrite Q.
      split; [auto | cbn [length]; lia].
    + apply lazy_inv in H as (sg & segs0 & s' & -> & F & -> & K).
      destruct (IH _ _ _ K) as [-> F'].
      split; [cbn [concat]; now rewrite app_assoc|].
      constructor; [|exact F']. unfold seg_ok. rewrite Q. auto.
Qed.

Lemma re_search_sound (re : list atom) (s : str) :
  forall pre segs rest,
    re_search re s = Some (pre, segs, rest) ->
    s = pre ++ concat segs ++ rest /\ Forall2 seg_ok re segs.
Proof.
  induction s as [|c s IH]; intros pre segs rest H; cbn [re_search] in H.
  - destruct (match_here re []) as [[segs0 r]|] eqn:K; [|discriminate].
    injection H as <- <- <-. now apply match_here_sound.
  - destruct (match_here re (c :: s)) as [[segs0 r]|] eqn:K.
    + injection H as <- <- <-. now apply match_here_sound.
    + destruct (re_search re s) as [[[pre0 segs0] r]|]; [|discriminate].
      injection H as <- <- <-. destruct (IH _ _ _ eq_refl) as [-> F].
      auto.
Qed.

Lemma match_takes_literal (re : list atom) (c : ascii) (segs : list str) :
  Forall2 seg_ok (re ++ [lit c]) segs -> In c (concat segs).
Proof.
  intros F. apply Forall2_app_inv_l in F as (l1 & l2 & _ & F & ->).
  inversion F as [|a sg re' l' [C L] F' E1 E2]; subst.
  inversion F'; subst.
  rewrite concat_app. apply in_or_app. right. cbn [concat].
  cbn [lit qt cls] in *.
  destruct sg as [|d [|? ?]]; try discriminate.
  inversion C as [|? ? D _]; subst. apply Ascii.eqb_eq in D. subst.
  now left.
Qed.

Lemma re_search_literal (re : list atom) (c : ascii) (s : str) :
  ~ In c s -> re_search (re ++ [lit c]) s = None.
Proof.
  intros N. destruct (re_search (re ++ [lit c]) s) as [[[pre segs] rest]|] eqn:E;
    [|reflexivity].
  apply re_search_sound in E as [-> F]. apply match_takes_literal in F.
  exfalso. apply N. apply in_or_app. right. apply in_or_app. now left.
Qed.

(** X17.  Condition of a do-while: when the token after the closing brace
    starts with [while] and holds no semicolon, the pattern
    [while \s* \( ( .* ) \) ;] finds nothing in it, and
    [extract_do_while_body_and_condition] returns the body between the
    braces, an empty condition and the index after that token. *)
Theorem do_while_condition_needs_semicolon (pre : list str) (d o : str)
  (body : list str) (c w : str) (post : list str) :
  strip o = py "{" -> strip c = py "}" -> balanced body ->
  startswith (py "while") (strip w) = true -> ~ In ";"%char w ->
  extract_do_while_body_and_condition
    (pre ++ d :: o :: body ++ c :: w :: post) (length pre)
  = (join nl body, [], length pre + length body + 4).
Proof.
  intros O C B W N. unfold extract_do_while_body_and_condition.
  rewrite after_header.
  rewrite (block_at_braced (pre ++ [d]) o body c (w :: post) (length pre + 1)
             (eq_sym (length_app pre [d])) O C B).
  set (lines := (pre ++ [d]) ++ o :: body ++ c :: w :: post).
  assert (lines = (pre ++ d :: o :: body ++ [c]) ++ w :: post) as L.
  { unfold lines. rewrite <- !app_assoc. cbn [app]. rewrite <- app_assoc.
    reflexivity. }
  assert (length pre + 1 + length body + 2
          = length (pre ++ d :: o :: body ++ [c])) as I.
  { rewrite !length_app. cbn [length]. rewrite length_app. cbn [length]. lia. }
  rewrite I, L, (line_at_middle _ w post _ eq_refl), W.
  replace (_ <? _) with true
    by (symmetry; apply Nat.ltb_lt; rewrite (length_app _ (w :: post));
        cbn [length]; lia).
  cbn [andb]. unfold search_group, re_do_while.
  rewrite (re_search_literal re_while ";"%char w N).
  f_equal. rewrite <- I. lia.
Qed.

Lemma do_while_condition_needs_semicolon_witness :
  extract_do_while_body_and_condition
    ([] ++ py "do" :: py "{" :: [py "x++;"] ++ py "}" :: py "while (x < 3)"
        :: [py ";"]) 0
  = (py "x++;", [], 0 + 1 + 4).
Proof.
  apply (do_while_condition_needs_semicolon [] (py "do") (py "{") [py "x++;"]
           (py "}") (py "while (x < 3)") [py ";"]);
    try (vm_compute; reflexivity).
  vm_compute. intuition discriminate.
Defined.

Lemma startswith_neq (p s : str) : startswith p s = false -> s <> p.
Proof.
  intros H ->. revert H. induction p as [|c p IH]; cbn [startswith];
    [discriminate|].
  rewrite Ascii.eqb_refl. exact IH.
Qed.

(** X18.  Both branches between braces: for an [if] header followed by a
    braced block, the token [else] and a second braced block,
    [extract_if_else_blocks] returns the tokens of each block joined by
    newlines, and the index just after the second closing brace. *)
Theorem if_else_between_braces (pre : list str) (h o1 : str) (b1 : list str)
  (c1 e o2 : str) (b2 : list str) (c2 : str) (post : list str) :
  strip o1 = py "{" -> strip c1 = py "}" -> balanced b1 ->
  strip e = py "else" ->
  strip o2 = py "{" -> strip c2 = py "}" -> balanced b2 ->
  extract_if_else_blocks
    (pre ++ h :: o1 :: b1 ++ c1 :: e :: o2 :: b2 ++ c2 :: post) (length pre)
  = (join nl b1, join nl b2, length pre + length b1 + length b2 + 6).
Proof.
  intros O1 C1 B1 E O2 C2 B2. unfold extract_if_else_blocks.
  rewrite after_header.
  rewrite (block_at_braced (pre ++ [h]) o1 b1 c1 _ (length pre + 1)
             (eq_sym (length_app pre [h])) O1 C1 B1).
  set (lines := (pre ++ [h]) ++ _).
  set (p1 := pre ++ h :: o1 :: b1 ++ [c1]).
  assert (length pre + 1 + length b1 + 2 = length p1) as I1.
  { unfold p1. rewrite !length_app. cbn [length]. rewrite length_app.
    cbn [length]. lia. }
  assert (lines = p1 ++ e :: o2 :: b2 ++ c2 :: post) as L1.
  { unfold lines, p1. rewrite <- !app_assoc. cbn [app]. rewrite <- app_assoc.
    reflexivity. }
  assert (lines = (p1 ++ [e]) ++ o2 :: b2 ++ c2 :: post) as L2.
  { rewrite L1. apply after_header. }
  assert (length p1 < length lines) as Lt1.
  { rewrite L1, length_app. cbn [length]. lia. }
  assert (length p1 + 1 < length lines) as Lt2.
  { rewrite L2, !length_app. cbn [length]. lia. }
  rewrite I1. apply Nat.ltb_lt in Lt1, Lt2. rewrite Lt1, Lt2.
  rewrite L1 at 1. rewrite (line_at_middle p1 e _ _ eq_refl), E.
  rewrite L2 at 1.
  rewrite (line_at_middle (p1 ++ [e]) o2 _ _ (eq_sym (length_app p1 [e]))), O2.
  cbn [andb str_eqb py list_ascii_of_string Ascii.eqb Bool.eqb startswith].
  rewrite L2.
  rewrite (block_at_braced (p1 ++ [e]) o2 b2 c2 post (length p1 + 1)
             (eq_sym (length_app p1 [e])) O2 C2 B2).
  f_equal. lia.
Qed.

Lemma if_else_between_braces_witness :
  extract_if_else_blocks
    ([] ++ py "if (a)" :: py "{" :: [py "b;"] ++ py "}" :: py "else" :: py "{"
        :: [py "c;"; py "d;"] ++ py "}" :: [py "e;"]) 0
  = (py "b;", join nl [py "c;"; py "d;"], 0 + 1 + 2 + 6).
Proof.
  apply (if_else_between_braces [] (py "if (a)") (py "{") [py "b;"] (py "}")
           (py "else") (py "{") [py "c;"; py "d;"] (py "}") [py "e;"]);
    vm_compute; reflexivity.
Defined.

(** X19.  An [else if] is not followed: when the token after [else] starts
    with [if], [extract_if_else_blocks] returns that header token alone as
    the else block and the index just after it, so the block of the
    [else if] stays with the caller's tokens. *)
Theorem else_if_body_is_left_behind (pre : list str) (h o1 : str)
  (b1 : list str) (c1 e h2 : str) (post : list str) :
  strip o1 = py "{" -> strip c1 = py "}" -> balanced b1 ->
  strip e = py "else" -> startswith (py "if") (strip h2) = true ->
  extract_if_else_blocks
    (pre ++ h :: o1 :: b1 ++ c1 :: e :: h2 :: post) (length pre)
  = (join nl b1, h2, length pre + length b1 + 5)
  /\ skipn (length pre + length b1 + 5)
       (pre ++ h :: o1 :: b1 ++ c1 :: e :: h2 :: post) = post.
Proof.
  intros O1 C1 B1 E H2. unfold extract_if_else_blocks.
  rewrite after_header.
  rewrite (block_at_braced (pre ++ [h]) o1 b1 c1 _ (length pre + 1)
             (eq_sym (length_app pre [h])) O1 C1 B1).
  set (lines := (pre ++ [h]) ++ _).
  set (p1 := pre ++ h :: o1 :: b1 ++ [c1]).
  assert (length pre + 1 + length b1 + 2 = length p1) as I1.
  { unfold p1. rewrite !length_app. cbn [length]. rewrite length_app.
    cbn [length]. lia. }
  assert (lines = p1 ++ e :: h2 :: post) as L1.
  { unfold lines, p1. rewrite <- !app_assoc. cbn [app]. rewrite <- app_assoc.
    reflexivity. }
  assert (lines = (p1 ++ [e]) ++ h2 :: post) as L2.
  { rewrite L1. apply after_header. }
  assert (length p1 < length lines) as Lt1.
  { rewrite L1, length_app. cbn [length]. lia. }
  assert (length p1 + 1 < length lines) as Lt2.
  { rewrite L2, !length_app. cbn [length]. lia. }
  rewrite I1. apply Nat.ltb_lt in Lt1, Lt2. rewrite Lt1, Lt2.
  rewrite L1 at 1. rewrite (line_at_middle p1 e _ _ eq_refl), E.
  rewrite L2 at 1.
  rewrite (line_at_middle (p1 ++ [e]) h2 _ _ (eq_sym (length_app p1 [e]))), H2.
  cbn [andb str_eqb py list_ascii_of_string Ascii.eqb Bool.eqb].
  rewrite L2 at 1.
  rewrite (line_at_middle (p1 ++ [e]) h2 _ _ (eq_sym (length_app p1 [e]))).
  split; [f_equal; lia|].
  rewrite L2. apply skipn_middle. rewrite length_app. cbn [length]. lia.
Qed.

Lemma else_if_body_is_left_behind_witness :
  extract_if_else_blocks
    ([] ++ py "if (a)" :: py "{" :: [py "b;"] ++ py "}" :: py "else"
        :: py "if (c)" :: [py "{"; py "d;"; py "}"]) 0
  = (py "b;", py "if (c)", 0 + 1 + 5)
  /\ skipn (0 + 1 + 5)
       ([] ++ py "if (a)" :: py "{" :: [py "b;"] ++ py "}" :: py "else"
           :: py "if (c)" :: [py "{"; py "d;"; py "}"])
     = [py "{"; py "d;"; py "}"].
Proof.
  apply (else_if_body_is_left_behind [] (py "if (a)") (py "{") [py "b;"]
           (py "}") (py "else") (py "if (c)") [py "{"; py "d;"; py "}"]);
    vm_compute; reflexivity.
Defined.

(** ** What the header patterns capture *)

Section Repetition.
Variable p : ascii -> bool.
Variable k : str -> option (list str * str).

Lemma greedy_run (run rest : str) (segs : list str) (r : str) :
  Forall (fun c => p c = true) run ->
  match rest with [] => True | d :: _ => p d = false end ->
  k rest = Some (segs, r) ->
  greedy p k (run ++ rest) = Some (run :: segs, r).
Proof.
  intros F D K. induction F as [|x run X F IH]; cbn [app].
  - destruct rest as [|d rest]; cbn [greedy]; [now rewrite K|].
    now rewrite D, K.
  - cbn [greedy]. now rewrite X, IH.
Qed.

Lemma greedy_fail (t : str) :
  Forall (fun c => p c = true) t ->
  (forall x y, t = x ++ y -> k y = None) ->
  greedy p k t = None.
Proof.
  intros F. induction F as [|c t C F IH]; intros N; cbn [greedy].
  - now rewrite (N [] [] eq_refl).
  - rewrite C, IH, (N [] (c :: t) eq_refl); [reflexivity|].
    intros x y ->. apply (N (c :: x)). reflexivity.
Qed.

Lemma greedy_backtrack (run tail : str) (segs : list str) (r : str) :
  Forall (fun c => p c = true) run ->
  Forall (fun c => p c = true) tail ->
  (forall x y, tail = x ++ y -> x <> [] -> k y = None) ->
  k tail = Some (segs, r) ->
  greedy p k (run ++ tail) = Some (run :: segs, r).
Proof.
  intros F T N K. induction F as [|x run X F IH]; cbn [app].
  - destruct T as [|d tail D T]; cbn [greedy]; [now rewrite K|].
    rewrite D, K, greedy_fail; auto.
    intros x y ->. apply (N (d :: x)); [reflexivity | discriminate].
  - cbn [greedy]. now rewrite X, IH.
Qed.

Lemma lazy_first (run rest : str) (segs : list str) (r : str) :
  Forall (fun c => p c = true) run ->
  (forall x y, run = x ++ y -> y <> [] -> k (y ++ rest) = None) ->
  k rest = Some (segs, r) ->
  lazy p k (run ++ rest) = Some (run :: segs, r).
Proof.
  intros F. induction F as [|x run X F IH]; intros N K; cbn [app].
  - destruct rest; cbn [lazy]; now rewrite K.
  - cbn [lazy].
    assert (k (x :: run ++ rest) = None) as N0
      by (apply (N [] (x :: run) eq_refl); discriminate).
    rewrite N0. cbn [with_seg]. rewrite X, IH; auto.
    intros a b ->. apply (N (x :: a)). reflexivity.
Qed.
End Repetition.

Lemma match_here_lit (c : ascii) (re : list atom) (s : str) :
  match_here (lit c :: re) (c :: s) = with_seg [c] (match_here re s).
Proof. cbn [match_here lit qt cls]. now rewrite Ascii.eqb_refl. Qed.

Lemma match_here_lit_fails (c : ascii) (re : list atom) (s : str) :
  match s with [] => True | d :: _ => d <> c end ->
  match_here (lit c :: re) s = None.
Proof.
  destruct s as [|d s]; [reflexivity|]. intros N.
  cbn [match_here lit qt cls].
  destruct (Ascii.eqb c d) eqn:E; [|reflexivity].
  apply Ascii.eqb_eq in E. congruence.
Qed.

Lemma suffix_without (c : ascii) (t x y : str) :
  ~ In c t -> t = x ++ y -> match y with [] => True | d :: _ => d <> c end.
Proof.
  intros N ->. destruct y as [|d y]; [exact I|]. intros ->.
  apply N. apply in_or_app. right. now left.
Qed.

Lemma re_search_here (re : list atom) (s : str) (segs : list str) (r : str) :
  match_here re s = Some (segs, r) -> re_search re s = Some ([], segs, r).
Proof. intros H. destruct s; cbn [re_search]; now rewrite H. Qed.

(** The tail of the patterns of [if] and [while]: [\( ( .* ) \)] takes the
    text up to the last closing parenthesis of the line. *)
Lemma parenthesised_greedy (c t : str) :
  one_line c -> one_line t -> ~ In ")"%char t ->
  match_here [lit "("; Atom any_but_newline Star; lit ")"]
    ("("%char :: c ++ ")"%char :: t)
  = Some ([py "("; c; py ")"], t).
Proof.
  intros C T N. rewrite match_here_lit.
  change (match_here (Atom any_but_newline Star :: [lit ")"]))
    with (greedy any_but_newline (match_here [lit ")"])).
  assert (greedy any_but_newline (match_here [lit ")"])
            (c ++ ")"%char :: t) = Some (c :: [py ")"], t)) as G.
  { apply greedy_backtrack.
    - exact C.
    - constructor; [reflexivity | exact T].
    - intros x y E X. apply match_here_lit_fails.
      destruct x as [|x0 x]; [congruence|]. injection E as _ E.
      exact (suffix_without _ _ _ _ N E).
    - apply match_here_lit. }
  rewrite G. reflexivity.
Qed.

(** X20.  Condition of an [if] or [while] header: in a line made of the
    keyword, whitespace, a parenthesised text and a tail without closing
    parenthesis, the pattern captures exactly the text between the first
    opening and the last closing parenthesis. *)
Theorem header_condition_is_parenthesised_text (ws c t : str) :
  blank ws -> one_line c -> one_line t -> ~ In ")"%char t ->
  search_group re_if 4 (py "if" ++ ws ++ py "(" ++ c ++ py ")" ++ t) = Some c
  /\ search_group re_while 7 (py "while" ++ ws ++ py "(" ++ c ++ py ")" ++ t)
     = Some c.
Proof.
  intros W C T N. pose proof (parenthesised_greedy c t C T N) as P.
  unfold search_group. split.
  - rewrite (re_search_here _ _ [py "i"; py "f"; ws; py "("; c; py ")"] t);
      [reflexivity|].
    unfold re_if, lits. cbn [py list_ascii_of_string map app].
    rewrite !match_here_lit.
    change (match_here (Atom isspace Star :: ?re))
      with (greedy isspace (match_here re)).
    rewrite (greedy_run _ _ ws _ [py "("; c; py ")"] t W); auto.
  - rewrite (re_search_here _ _
               [py "w"; py "h"; py "i"; py "l"; py "e"; ws; py "("; c; py ")"]
               t); [reflexivity|].
    unfold re_while, lits. cbn [py list_ascii_of_string map app].
    rewrite !match_here_lit.
    change (match_here (Atom isspace Star :: ?re))
      with (greedy isspace (match_here re)).
    rewrite (greedy_run _ _ ws _ [py "("; c; py ")"] t W); auto.
Qed.

Lemma header_condition_is_parenthesised_text_witness :
  search_group re_if 4
    (py "if" ++ py " " ++ py "(" ++ py "f(a) > g(b)" ++ py ")" ++ py " // no")
  = Some (py "f(a) > g(b)")
  /\ search_group re_while 7
       (py "while" ++ py " " ++ py "(" ++ py "f(a) > g(b)" ++ py ")"
          ++ py " // no")
     = Some (py "f(a) > g(b)").
Proof.
  apply (header_condition_is_parenthesised_text (py " ") (py "f(a) > g(b)")
           (py " // no")).
  - repeat constructor.
  - repeat constructor.
  - repeat constructor.
  - vm_compute. intuition discriminate.
Defined.

Lemma match_here_star (p : ascii -> bool) (re : list atom) (s : str) :
  match_here (Atom p Star :: re) s = greedy p (match_here re) s.
Proof. reflexivity. Qed.

Lemma match_here_lazy (p : ascii -> bool) (re : list atom) (s : str) :
  match_here (Atom p LazyStar :: re) s = lazy p (match_here re) s.
Proof. reflexivity. Qed.

(** A lazy [.*?] before a literal takes the text up to the first
    occurrence of the literal. *)
Lemma lazy_until (c : ascii) (re : list atom) (run rest : str)
  (segs : list str) (r : str) :
  one_line run -> ~ In c run ->
  match_here (lit c :: re) rest = Some (segs, r) ->
  match_here (Atom any_but_newline LazyStar :: lit c :: re) (run ++ rest)
  = Some (run :: segs, r).
Proof.
  intros O N K. rewrite match_here_lazy. apply lazy_first.
  - exact O.
  - intros x y E Y. apply match_here_lit_fails.
    pose proof (suffix_without _ _ _ _ N E) as S0.
    destruct y as [|d y]; [congruence | exact S0].
  - exact K.
Qed.

(** X21.  Clauses of a [for] header: in a line made of [for], whitespace
    and a parenthesised text [a;b;c], where [a] and [b] hold no semicolon
    and [c] no closing parenthesis, the pattern captures [a], [b] and [c],
    whatever follows the closing parenthesis. *)
Theorem for_header_clauses (ws a b c t : str) :
  blank ws -> one_line a -> one_line b -> one_line c ->
  ~ In ";"%char a -> ~ In ";"%char b -> ~ In ")"%char c ->
  let line := py "for" ++ ws ++ py "(" ++ a ++ py ";" ++ b ++ py ";" ++ c
              ++ py ")" ++ t in
  search_group re_for 5 line = Some a
  /\ search_group re_for 7 line = Some b
  /\ search_group re_for 9 line = Some c.
Proof.
  intros W A B C Na Nb Nc line.
  assert (match_here [lit ")"] (")"%char :: t) = Some ([py ")"], t)) as K3
    by apply match_here_lit.
  pose proof (lazy_until _ _ c _ _ _ C Nc K3) as L3.
  assert (match_here (lit ";" :: Atom any_but_newline LazyStar :: [lit ")"])
            (";"%char :: c ++ ")"%char :: t)
          = Some ([py ";"; c; py ")"], t)) as K2
    by (rewrite match_here_lit, L3; reflexivity).
  pose proof (lazy_until _ _ b _ _ _ B Nb K2) as L2.
  assert (match_here
            (lit ";" :: Atom any_but_newline LazyStar :: lit ";"
               :: Atom any_but_newline LazyStar :: [lit ")"])
            (";"%char :: b ++ ";"%char :: c ++ ")"%char :: t)
          = Some ([py ";"; b; py ";"; c; py ")"], t)) as K1
    by (rewrite match_here_lit, L2; reflexivity).
  pose proof (lazy_until _ _ a _ _ _ A Na K1) as L1.
  assert (re_search re_for line
          = Some ([], [py "f"; py "o"; py "r"; ws; py "("; a; py ";"; b;
                       py ";"; c; py ")"], t)) as E.
  { apply re_search_here. unfold line, re_for, lits.
    cbn [py list_ascii_of_string map app]. rewrite !match_here_lit.
    rewrite match_here_star.
    rewrite (greedy_run isspace _ ws
               ("("%char :: a ++ ";"%char :: b ++ ";"%char :: c ++ ")"%char :: t)
               [py "("; a; py ";"; b; py ";"; c; py ")"] t W);
      [reflexivity | reflexivity |].
    rewrite match_here_lit, L1. reflexivity. }
  unfold search_group. rewrite E. auto.
Qed.

Lemma for_header_clauses_witness :
  search_group re_for 5 (py "for" ++ py " " ++ py "(" ++ py "i = 0" ++ py ";"
                           ++ py " i < n" ++ py ";" ++ py " i += f(i"
                           ++ py ")" ++ py ")")
  = Some (py "i = 0")
  /\ search_group re_for 7 (py "for" ++ py " " ++ py "(" ++ py "i = 0"
                              ++ py ";" ++ py " i < n" ++ py ";"
                              ++ py " i += f(i" ++ py ")" ++ py ")")
     = Some (py " i < n")
  /\ search_group re_for 9 (py "for" ++ py " " ++ py "(" ++ py "i = 0"
                              ++ py ";" ++ py " i < n" ++ py ";"
                              ++ py " i += f(i" ++ py ")" ++ py ")")
     = Some (py " i += f(i").
Proof.
  apply (for_header_clauses (py " ") (py "i = 0") (py " i < n")
           (py " i += f(i") (py ")"));
    try (repeat constructor); vm_compute; intuition discriminate.
Defined.

(** ** Comments *)

Lemma re_remove_slash_free (c : ascii) (re : list atom) (s : str) :
  ~ In c s -> re_remove_from (lit c :: re) 0 s = s.
Proof.
  induction s as [|d s IH]; intros N; [reflexivity|].
  cbn [re_remove_from].
  rewrite match_here_lit_fails
    by (intros ->; apply N; now left).
  rewrite IH; [reflexivity|]. intros H. apply N. now right.
Qed.

Lemma re_remove_prefix (c : ascii) (re : list atom) (a s : str) :
  ~ In c a ->
  re_remove_from (lit c :: re) 0 (a ++ s)
  = a ++ re_remove_from (lit c :: re) 0 s.
Proof.
  induction a as [|d a IH]; intros N; [reflexivity|].
  cbn [app re_remove_from].
  rewrite match_here_lit_fails
    by (intros ->; apply N; now left).
  rewrite IH; [reflexivity|]. intros H. apply N. now right.
Qed.

Lemma re_remove_skip (re : list atom) (x t : str) :
  re_remove_from re (length x) (x ++ t) = re_remove_from re 0 t.
Proof. induction x as [|d x IH]; [reflexivity|]. exact IH. Qed.

(** X22.  Text without a slash holds no comment: the two substitutions of
    [parse_cpp_code] leave it as it is. *)
Theorem text_without_slash_is_kept (code : str) :
  ~ In "/"%char code -> remove_comments code = code.
Proof.
  intros N. unfold remove_comments, re_remove, re_line_comment,
              re_block_comment, lits.
  cbn [py list_ascii_of_string map app].
  rewrite (re_remove_slash_free "/"%char _ code N).
  exact (re_remove_slash_free "/"%char _ code N).
Qed.

Lemma text_without_slash_is_kept_witness :
  remove_comments (py "int main() { return 0; }")
  = py "int main() { return 0; }".
Proof.
  apply text_without_slash_is_kept. vm_compute. intuition discriminate.
Defined.

(** X23.  A line comment is removed up to the end of its line: in text
    without any other slash, [//] and the rest of the line disappear, and
    the newline that ends the line stays. *)
Theorem line_comment_is_removed (a c t : str) :
  ~ In "/"%char a -> one_line c -> line_end t -> ~ In "/"%char t ->
  remove_comments (a ++ py "//" ++ c ++ t) = a ++ t.
Proof.
  intros Na C T Nt.
  assert (re_remove re_line_comment (a ++ py "//" ++ c ++ t) = a ++ t) as E.
  { unfold re_remove, re_line_comment, lits.
    cbn [py list_ascii_of_string map app].
    rewrite (re_remove_prefix "/"%char _ a _ Na). f_equal.
    cbn [re_remove_from]. rewrite !match_here_lit, match_here_star.
    rewrite (greedy_run any_but_newline _ c t [] t C);
      [| destruct t as [|d t']; [exact I | cbn in T; now subst d]
       | reflexivity].
    cbn [with_seg length].
    replace (S (S (length (c ++ t))) - length t) with (S (S (length c)))
      by (rewrite length_app; lia).
    change (re_remove_from ?re (S (length c)) ("/"%char :: c ++ t))
      with (re_remove_from re (length c) (c ++ t)).
    rewrite re_remove_skip.
    exact (re_remove_slash_free "/"%char _ t Nt). }
  unfold remove_comments. rewrite E.
  unfold re_remove, re_block_comment, lits.
  cbn [py list_ascii_of_string map app].
  apply re_remove_slash_free.
  intros H. apply in_app_or in H as [H|H]; auto.
Qed.

Lemma line_comment_is_removed_witness :
  remove_comments (py "x = 1; " ++ py "//" ++ py " set x; if y"
                     ++ nl ++ py "y = 2;")
  = py "x = 1; " ++ nl ++ py "y = 2;".
Proof.
  apply (line_comment_is_removed (py "x = 1; ") (py " set x; if y")
           (nl ++ py "y = 2;")).
  - vm_compute. intuition discriminate.
  - repeat constructor.
  - reflexivity.
  - vm_compute. intuition discriminate.
Defined.

(** ** The body of the function *)

Lemma find_body_end_inner (rest : str) (body : str) :
  forall i d d', char_depth body d = Some d' ->
                 find_body_end (body ++ rest) i (S d)
                 = find_body_end rest (i + length body) (S d').
Proof.
  induction body as [|c body IH]; intros i d d' H; cbn [char_depth] in H.
  - injection H as ->. cbn [app length]. f_equal. lia.
  - cbn [app find_body_end length].
    destruct (Ascii.eqb c "{"%char).
    + replace (S d + 1) with (S (S d)) by lia. rewrite (IH _ _ _ H).
      f_equal. lia.
    + destruct (Ascii.eqb c "}"%char).
      * destruct d as [|d]; [discriminate|].
        replace (S (S d) - 1) with (S d) by lia. cbn [Nat.eqb].
        rewrite (IH _ _ _ H). f_equal. lia.
      * rewrite (IH _ _ _ H). f_equal. lia.
Qed.

(** X24.  End of the function body: when the braces of [body] match one
    another, the brace-balancing loop of [parse_cpp_code] stops at the
    closing brace that follows it, and the text cut off is [body],
    whatever comes after that brace. *)
Theorem function_body_ends_at_matching_brace (body rest : str) :
  char_depth body 0 = Some 0 ->
  find_body_end (body ++ "}"%char :: rest) 0 1 = length body
  /\ firstn (find_body_end (body ++ "}"%char :: rest) 0 1)
       (body ++ "}"%char :: rest) = body.
Proof.
  intros B.
  assert (find_body_end (body ++ "}"%char :: rest) 0 1 = length body) as E.
  { rewrite (find_body_end_inner _ _ _ _ _ B). reflexivity. }
  split; [exact E|]. rewrite E.
  replace (length body) with (length body + 0) by lia.
  rewrite firstn_app_2. cbn [firstn]. apply app_nil_r.
Qed.

Lemma function_body_ends_at_matching_brace_witness :
  find_body_end (py " if (a) { b; } c; " ++ "}"%char :: py " int g() { }")
    0 1 = length (py " if (a) { b; } c; ")
  /\ firstn (find_body_end
               (py " if (a) { b; } c; " ++ "}"%char :: py " int g() { }") 0 1)
       (py " if (a) { b; } c; " ++ "}"%char :: py " int g() { }")
     = py " if (a) { b; } c; ".
Proof.
  apply (function_body_ends_at_matching_brace (py " if (a) { b; } c; ")
           (py " int g() { }")).
  vm_compute. reflexivity.
Defined.

Lemma process_code_block_hangs (fuel : nat) (entry_node : Node)
  (code_block : str) (cfg : ControlFlowGraph) :
  split_into_statements (strip code_block) = None ->
  strip code_block = code_block ->
  process_code_block fuel entry_node code_block cfg = None.
Proof.
  intros H S0. destruct fuel as [|fuel]; [reflexivity|].
  rewrite process_code_block_eq, S0.
  destruct code_block as [|c code_block]; [discriminate|].
  cbn [nonempty negb]. rewrite S0 in H. now rewrite H.
Qed.

(** X25.  A body on which the tokenizer does not return makes the whole
    parse hang: when a function signature is found and
    [split_into_statements] loops on the stripped body, [parse_cpp_code]
    returns no graph, however deep the recursion is allowed to go. *)
Theorem parse_hangs_when_tokenizer_loops (fuel : nat) (code pre : str)
  (segs : list str) (body : str) :
  re_search re_function (remove_comments code) = Some (pre, segs, body) ->
  split_into_statements (strip (firstn (find_body_end body 0 1) body)) = None ->
  parse_cpp_code fuel code = None.
Proof.
  intros F H. unfold parse_cpp_code. rewrite F.
  unfold bind at 1. cbn [add_node new_cfg nodes edges next_id].
  unfold bind at 1. cbn [add_node nodes edges next_id].
  unfold bind at 1.
  destruct (add_edge _ _ None _) as [[e cfg1]|]; [|reflexivity].
  unfold bind at 1.
  rewrite process_code_block_hangs; [reflexivity | | apply strip_strip].
  now rewrite strip_strip.
Qed.

Lemma parse_hangs_when_tokenizer_loops_witness :
  parse_cpp_code 5 (py "int main() { x = 1; if y; }") = None.
Proof.
  refine (parse_hangs_when_tokenizer_loops 5 _ [] _ (py " x = 1; if y; }") _ _).
  - vm_compute. reflexivity.
  - vm_compute. reflexivity.
Defined.
